(** * Ledger Ergo app driver: the transaction-signing session protocol

    A shallow embedding of [src/interactions/signTx.ts] (and of the second
    variant of the same driver that the repository carries), of the auth
    token generator of [src/erg.ts], and of the helpers they call, followed
    by the properties of the signing session.

    Conventions.
    - A [Buffer] is a list of bytes; a JavaScript [number] that the driver
      encodes is a [Z]; the auth token the app holds and the numbers it is
      computed from are binary64 values of IEEE 754 with their rounding; a
      value that may be [undefined] is an [option].
    - An [async] function that talks to the device is a program of the
      monad [Prog]: a tree whose nodes are the exchanges with the device.
      [await] is sequencing, an exception is a [Throw] leaf, and nothing in
      the driver catches one.
    - The device is any function from the commands received so far and the
      current command to a response. *)

From Stdlib Require Import ZArith String Ascii Bool Lia Arith List.
From Stdlib Require Import Strings.Byte Floats.SpecFloat.
Import ListNotations.

Set Implicit Arguments.

(* ================================================================== *)
(** * Errors and results *)

(** The ways an input can be malformed. *)
Inductive MalformedInput : Type :=
| ChangePathNotPresent   (* [new Error("change path is not present")] *)
| IntegerOutOfRange      (* a fixed-width encoder given a value that does not fit *)
| InvalidHexString       (* hex decoding of a non-hex or odd-length string *)
| InvalidPath.           (* a derivation path that does not parse *)

Inductive Err : Type :=
| Malformed (m : MalformedInput)
| DeviceRejection (code : Z).

(** [inl] is a thrown error, [inr] a returned value. *)
Definition Res (A : Type) : Type := (Err + A)%type.

Definition Buffer : Type := list byte.

Definition res_bind {A B} (r : Res A) (f : A -> Res B) : Res B :=
  match r with
  | inl e => inl e
  | inr a => f a
  end.

(** [items.map(f)] for a callback that may throw: the first failure, in
    list order, is the result. *)
Fixpoint res_map {T A} (f : T -> Res A) (items : list T) : Res (list A) :=
  match items with
  | [] => inr []
  | x :: rest =>
      res_bind (f x) (fun a =>
      res_bind (res_map f rest) (fun others => inr (a :: others)))
  end.

(** [Buffer.concat] of parts computed left to right, each of which may throw. *)
Fixpoint res_concat (parts : list (Res Buffer)) : Res Buffer :=
  match parts with
  | [] => inr []
  | p :: rest =>
      res_bind p (fun b =>
      res_bind (res_concat rest) (fun more => inr (b ++ more)))
  end.

(* ================================================================== *)
(** * Binary codec *)

Definition byteOfZ (z : Z) : byte :=
  match Byte.of_N (Z.to_N (z mod 256)) with
  | Some b => b
  | None => x00
  end.

Definition byteToZ (b : byte) : Z := Z.of_N (Byte.to_N b).

(** The [width] low bytes of [v], most significant first. *)
Fixpoint bigEndian (width : nat) (v : Z) : Buffer :=
  match width with
  | O => []
  | S w => byteOfZ (Z.shiftr v (8 * Z.of_nat w)) :: bigEndian w v
  end.

Definition fitsUnsigned (width : nat) (v : Z) : bool :=
  (0 <=? v)%Z && (v <? 2 ^ (8 * Z.of_nat width))%Z.

Definition hexChar (n : N) : ascii :=
  if (n <? 10)%N then ascii_of_N (48 + n) else ascii_of_N (87 + n).

Definition hexValue (c : ascii) : option N :=
  let n := N_of_ascii c in
  if ((48 <=? n) && (n <=? 57))%N then Some (n - 48)%N
  else if ((97 <=? n) && (n <=? 102))%N then Some (n - 87)%N
  else if ((65 <=? n) && (n <=? 70))%N then Some (n - 55)%N
  else None.

Module Serialize.

(** Modelled from the spec: [Serialize.uint8], [uint16], [uint32] and
    [uint64] of [src/serialization/serialize.ts], which is missing.  The
    spec (4.1) has fixed-width integers encoded big-endian, and (7) makes a
    value that cannot be represented (such as the index of a token id that
    is not in the table) a Malformed Input error. *)
Definition uint (width : nat) (v : Z) : Res Buffer :=
  if fitsUnsigned width v then inr (bigEndian width v)
  else inl (Malformed IntegerOutOfRange).

Definition uint8 : Z -> Res Buffer := uint 1.
Definition uint16 : Z -> Res Buffer := uint 2.
Definition uint32 : Z -> Res Buffer := uint 4.
Definition uint64 : Z -> Res Buffer := uint 8.

(** Modelled from the spec: the path encoder of the missing
    [serialize.ts].  Spec 4.1: a leading length byte followed by each
    component as a 32-bit integer. *)
Definition path (components : list Z) : Res Buffer :=
  res_concat (uint8 (Z.of_nat (length components)) :: map uint32 components).

(** Modelled from the spec: [Serialize.hex] of the missing [serialize.ts].
    Spec 4.1: decoding is case-insensitive, and an odd length or a non-hex
    character is an error of the caller. *)
Fixpoint hex (s : string) : Res Buffer :=
  match s with
  | EmptyString => inr []
  | String hi (String lo rest) =>
      match hexValue hi, hexValue lo with
      | Some h, Some l =>
          res_bind (hex rest) (fun bytes =>
            inr (byteOfZ (Z.of_N (16 * h + l)) :: bytes))
      | _, _ => inl (Malformed InvalidHexString)
      end
  | String _ EmptyString => inl (Malformed InvalidHexString)
  end.

(** Modelled from the spec: [Serialize.array] of the missing
    [serialize.ts]: the encodings of the items, in order, concatenated. *)
Definition array {T} (data : list T) (f : T -> Res Buffer) : Res Buffer :=
  res_bind (res_map f data) (fun encoded => inr (concat encoded)).

(** Modelled from the spec: the number of batches, their cutting and the
    batches of a list, for the two chunking regimes of spec 4.2 (the list
    chunking of the missing [serialize.ts] and the buffer slicing of the
    missing [device.ts]): consecutive batches of at most [maxSize] items, in
    order, all full but possibly the last. *)
Definition ceilDiv (a b : nat) : nat := (a + (b - 1)) / b.

(** [count] batches are cut from the front of [rest], one after the other. *)
Fixpoint batches {T} (maxSize count : nat) (rest : list T) : list (list T) :=
  match count with
  | O => []
  | S c => firstn maxSize rest :: batches maxSize c (skipn maxSize rest)
  end.

Definition chunk {T} (data : list T) (maxSize : nat) : list (list T) :=
  batches maxSize (ceilDiv (length data) maxSize) data.

(** Modelled from the spec: [Serialize.arrayAndChunk] (named
    [arrayAsMappedChunks] in the second variant) of the missing
    [serialize.ts].  Spec 4.2, count-bounded list chunking: the items are
    grouped, in order, into batches of at most [maxSize] items and each
    batch's encoded items are concatenated into one packet; an empty list
    gives no packet. *)
Definition arrayAndChunk {T} (data : list T) (maxSize : nat)
    (f : T -> Res Buffer) : Res (list Buffer) :=
  res_map (fun batch => array batch f) (chunk data maxSize).

End Serialize.

Module Deserialize.

(** Modelled from the spec: [Deserialize.hex] of the missing
    [deserialize.ts].  Spec 4.1: hex encoding is lowercase. *)
Fixpoint hex (b : Buffer) : string :=
  match b with
  | [] => EmptyString
  | x :: rest =>
      let n := Byte.to_N x in
      String (hexChar (n / 16)) (String (hexChar (n mod 16)) (hex rest))
  end.

End Deserialize.

(** [array.indexOf(x)] on strings: the first position holding [x], or -1. *)
Fixpoint indexOfFrom (l : list string) (x : string) (i : Z) : Z :=
  match l with
  | [] => (-1)%Z
  | y :: rest => if String.eqb y x then i else indexOfFrom rest x (i + 1)%Z
  end.

Definition indexOf (l : list string) (x : string) : Z := indexOfFrom l x 0.

(* ================================================================== *)
(** * Data model ([types/public], [types/internal], [models/attestedBox]) *)

(** [amount] is the number [Serialize.uint64] is given. *)
Record Token : Type := { id : string; amount : Z }.

Record BoxCandidate : Type := {
  value : Z;
  ergoTree : Buffer;
  creationHeight : Z;
  tokens : list Token;
  registers : Buffer
}.

(** [path] is optional in the first variant ([path?: string]). *)
Record ChangeMap : Type := { address : string; path : option string }.

(** Of an attested frame the driver reads the ready-to-send bytes only
    ([frame.buffer], [frame.bytes] in the second variant). *)
Record AttestedBoxFrame : Type := { buffer : Buffer }.

Record AttestedBox : Type := {
  frames : list AttestedBoxFrame;
  extension : option Buffer
}.

Record AttestedTx : Type := {
  inputs : list AttestedBox;
  dataInputs : list string;
  outputs : list BoxCandidate;
  distinctTokenIds : list Buffer;
  changeMap : ChangeMap
}.

(** [Network] is a numeric enum of a library; the driver only passes the
    number on. *)
Definition Network : Type := Z.

(* ================================================================== *)
(** * The command channel *)

Inductive COMMAND : Type := DERIVE_ADDRESS | SIGN_TX.

(** One call of [device.send(ins, p1, p2, data)].  [p2] is [None] when the
    driver passes [undefined] (a session id read from an empty response). *)
Record Apdu : Type := {
  cmd_ins : COMMAND;
  cmd_p1 : Z;
  cmd_p2 : option Z;
  cmd_data : Buffer
}.

Record DeviceResponse : Type := { returnCode : Z; data : Buffer }.

(** The device: its answer to a command, given the commands it has
    received before. *)
Definition Device : Type := list Apdu -> Apdu -> DeviceResponse.

(** What the repository takes from outside the files at hand. *)
Class Platform : Type := {
  (** the largest payload of one command ([device.ts]) *)
  MAX_DATA_LENGTH : nat;
  (** the status word that means success ([RETURN_CODE.OK], [device.ts]) *)
  RETURN_CODE_OK : Z;
  (** the parser of a derivation path string; [None] when it throws *)
  pathToArray : string -> option (list Z);
  (** [ErgoAddress.fromErgoTree(tree).toString()] of [@fleet-sdk/core] *)
  addressFromErgoTree : string -> string
}.

(** ** Programs over the channel *)

Inductive Prog (A : Type) : Type :=
| Ret (a : A)
| Throw (e : Err)
| Exchange (c : Apdu) (k : DeviceResponse -> Prog A).

Arguments Ret {A} a.
Arguments Throw {A} e.
Arguments Exchange {A} c k.

Fixpoint bind {A B} (p : Prog A) (f : A -> Prog B) : Prog B :=
  match p with
  | Ret a => f a
  | Throw e => Throw e
  | Exchange c k => Exchange c (fun r => bind (k r) f)
  end.

Declare Scope prog_scope.
Delimit Scope prog_scope with prog.
Notation "x <- p ;; q" := (bind p (fun x => q))
  (at level 61, p at next level, right associativity) : prog_scope.
Notation "p ;; q" := (bind p (fun _ => q))
  (at level 61, right associativity) : prog_scope.
Local Open Scope prog_scope.

(** A value computed on the host before the call it is an argument of. *)
Definition liftRes {A} (r : Res A) : Prog A :=
  match r with
  | inl e => Throw e
  | inr a => Ret a
  end.

(** [for (const x of items) { await body(x); }] *)
Fixpoint forEach {T} (items : list T) (body : T -> Prog unit) : Prog unit :=
  match items with
  | [] => Ret tt
  | x :: rest => body x ;; forEach rest body
  end.

(** Running a program against a device that has received [log] so far:
    the result, and the commands the program sent. *)
Fixpoint run {A} (dev : Device) (p : Prog A) (log : list Apdu)
  : Res A * list Apdu :=
  match p with
  | Ret a => (inr a, [])
  | Throw e => (inl e, [])
  | Exchange c k =>
      let (r, cs) := run dev (k (dev log c)) (log ++ [c]) in (r, c :: cs)
  end.

(** A run on a device that has received nothing yet. *)
Definition result {A} (dev : Device) (p : Prog A) : Res A := fst (run dev p []).
Definition trace {A} (dev : Device) (p : Prog A) : list Apdu := snd (run dev p []).

(** [cs] are sent one after the other from [log] and each is answered
    with success. *)
Fixpoint accepted (ok : Z) (dev : Device) (log cs : list Apdu) : Prop :=
  match cs with
  | [] => True
  | c :: rest => returnCode (dev log c) = ok /\ accepted ok dev (log ++ [c]) rest
  end.

Module DeviceChannel.
Section WithPlatform.
Context {platform : Platform}.

(** Modelled from the spec: [Device.send] of the missing [device.ts].
    Spec 6 and 7: one request and one response; any status other than the
    reserved success value is raised as a Device Rejection that keeps the
    raw code. *)
Definition send (ins : COMMAND) (p1 : Z) (p2 : option Z) (payload : Buffer)
  : Prog DeviceResponse :=
  Exchange {| cmd_ins := ins; cmd_p1 := p1; cmd_p2 := p2; cmd_data := payload |}
    (fun response =>
       if (returnCode response =? RETURN_CODE_OK)%Z then Ret response
       else Throw (DeviceRejection (returnCode response))).

Fixpoint sendEach (ins : COMMAND) (p1 : Z) (p2 : option Z)
    (chunks : list Buffer) (last : option DeviceResponse)
  : Prog (option DeviceResponse) :=
  match chunks with
  | [] => Ret last
  | c :: rest =>
      response <- send ins p1 p2 c ;;
      sendEach ins p1 p2 rest (Some response)
  end.

(** Modelled from the spec: [Device.sendData] of the missing [device.ts].
    Spec 4.2 and 6: the buffer is cut into sequential slices of at most the
    channel's maximum payload, one [send] is issued per slice, and the
    response of the last one is returned. *)
Definition sendData (ins : COMMAND) (p1 : Z) (p2 : option Z) (payload : Buffer)
  : Prog (option DeviceResponse) :=
  sendEach ins p1 p2 (Serialize.chunk payload MAX_DATA_LENGTH) None.

End WithPlatform.
End DeviceChannel.

(** [send] is kept folded in proofs and unfolded where it is analysed. *)
Opaque DeviceChannel.send.

Module P1.
Definition START_SIGNING : Z := 0x01.
Definition START_TRANSACTION : Z := 0x10.
Definition ADD_TOKEN_IDS : Z := 0x11.
Definition ADD_INPUT_BOX_FRAME : Z := 0x12.
Definition ADD_INPUT_BOX_CONTEXT_EXTENSION_CHUNK : Z := 0x13.
Definition ADD_DATA_INPUTS : Z := 0x14.
Definition ADD_OUTPUT_BOX_START : Z := 0x15.
Definition ADD_OUTPUT_BOX_ERGO_TREE_CHUNK : Z := 0x16.
Definition ADD_OUTPUT_BOX_MINERS_FEE_TREE : Z := 0x17.
Definition ADD_OUTPUT_BOX_CHANGE_TREE : Z := 0x18.
Definition ADD_OUTPUT_BOX_TOKENS : Z := 0x19.
Definition ADD_OUTPUT_BOX_REGISTERS_CHUNK : Z := 0x1a.
Definition CONFIRM_AND_SIGN : Z := 0x20.
End P1.

Module P2.
Definition WITHOUT_TOKEN : Z := 0x01.
Definition WITH_TOKEN : Z := 0x02.
End P2.

(** [authToken ? a : b]: a number is truthy when it is present and not 0. *)
Definition truthy (n : option Z) : bool :=
  match n with
  | Some v => negb (v =? 0)%Z
  | None => false
  end.

(** [!path] holds of [undefined] and of the empty string. *)
Definition falsyString (s : option string) : bool :=
  match s with
  | Some EmptyString => true
  | Some _ => false
  | None => true
  end.

(** [response.data[0]]: [undefined] on an empty response. *)
Definition firstByte (response : DeviceResponse) : option Z :=
  option_map byteToZ (nth_error (data response) 0).

Section PathEncoding.
Context {platform : Platform}.

(** Modelled from the spec: [Serialize.bip32Path] ([serialize.path] on a
    string in the second variant) of the missing [serialize.ts]: the path
    string is parsed into its components, which are encoded as in spec 4.1. *)
Definition bip32Path (p : string) : Res Buffer :=
  match pathToArray p with
  | Some components => Serialize.path components
  | None => inl (Malformed InvalidPath)
  end.

End PathEncoding.

(* ================================================================== *)
(** * [src/interactions/signTx.ts] *)

Module SignTx.
Section WithPlatform.
Context {platform : Platform}.
Import DeviceChannel.

Definition MAINNET_MINER_FEE_TREE : string :=
  "1005040004000e36100204a00b08cd0279be667ef9dcbbac55a06295ce870b07029bfcdb2dce28d959f2815b16f81798ea02d192a39a8cc7a701730073011001020402d19683030193a38cc7b2a57300000193c2b2a57301007473027303830108cdeeac93b1a57304".
Definition TESTNET_FEE_TREE : string :=
  "1005040004000e36100204900108cd0279be667ef9dcbbac55a06295ce870b07029bfcdb2dce28d959f2815b16f81798ea02d192a39a8cc7a701730073011001020402d19683030193a38cc7b2a57300000193c2b2a57301007473027303830108cdeeac93b1a57304".

Definition MAX_PACKET_SIZE : nat := 7.

Definition sendHeader (path : string) (authToken : option Z) : Prog (option Z) :=
  payload <- liftRes (res_concat
    [ bip32Path path;
      if truthy authToken
      then Serialize.uint32 (match authToken with Some t => t | None => 0%Z end)
      else inr [] ]) ;;
  response <- send SIGN_TX P1.START_SIGNING
    (Some (if truthy authToken then P2.WITH_TOKEN else P2.WITHOUT_TOKEN))
    payload ;;
  Ret (firstByte response).

Definition sendStartTx (sessionId : option Z) (tx : AttestedTx)
    (uniqueTokenIdsCount : Z) : Prog (option Z) :=
  payload <- liftRes (res_concat
    [ Serialize.uint16 (Z.of_nat (length (inputs tx)));
      Serialize.uint16 (Z.of_nat (length (dataInputs tx)));
      Serialize.uint8 uniqueTokenIdsCount;
      Serialize.uint16 (Z.of_nat (length (outputs tx))) ]) ;;
  response <- send SIGN_TX P1.START_TRANSACTION sessionId payload ;;
  Ret (firstByte response).

Definition sendDistinctTokensIds (sessionId : option Z) (ids : list Buffer)
  : Prog unit :=
  if (length ids =? 0)%nat then Ret tt
  else
    packets <- liftRes (Serialize.arrayAndChunk ids MAX_PACKET_SIZE
                          (fun id => inr id)) ;;
    forEach packets (fun p =>
      send SIGN_TX P1.ADD_TOKEN_IDS sessionId p ;; Ret tt).

Definition sendBoxContextExtension (sessionId : option Z) (extension : Buffer)
  : Prog unit :=
  sendData SIGN_TX P1.ADD_INPUT_BOX_CONTEXT_EXTENSION_CHUNK sessionId extension ;;
  Ret tt.

Definition sendInputs (sessionId : option Z) (inputBoxes : list AttestedBox)
  : Prog unit :=
  forEach inputBoxes (fun box =>
    forEach (frames box) (fun frame =>
      send SIGN_TX P1.ADD_INPUT_BOX_FRAME sessionId (buffer frame) ;; Ret tt) ;;
    match extension box with
    | Some ext =>
        if (0 <? length ext)%nat then sendBoxContextExtension sessionId ext
        else Ret tt
    | None => Ret tt
    end).

Definition sendDataInputs (sessionId : option Z) (boxIds : list string)
  : Prog unit :=
  packets <- liftRes (Serialize.arrayAndChunk boxIds MAX_PACKET_SIZE
                        (fun id => Serialize.hex id)) ;;
  forEach packets (fun p =>
    send SIGN_TX P1.ADD_DATA_INPUTS sessionId p ;; Ret tt).

Definition addOutputBoxErgoTree (sessionId : option Z) (ergoTree : Buffer)
  : Prog unit :=
  sendData SIGN_TX P1.ADD_OUTPUT_BOX_ERGO_TREE_CHUNK sessionId ergoTree ;;
  Ret tt.

Definition addOutputBoxMinersFeeTree (sessionId : option Z) (network : Network)
  : Prog unit :=
  send SIGN_TX P1.ADD_OUTPUT_BOX_MINERS_FEE_TREE sessionId [byteOfZ network] ;;
  Ret tt.

Definition addOutputBoxChangeTree (sessionId : option Z) (path : option string)
  : Prog unit :=
  if falsyString path then Throw (Malformed ChangePathNotPresent)
  else
    payload <- liftRes (bip32Path (match path with Some p => p | None => EmptyString end)) ;;
    send SIGN_TX P1.ADD_OUTPUT_BOX_CHANGE_TREE sessionId payload ;;
    Ret tt.

Definition addOutputBoxTokens (sessionId : option Z) (tokens : list Token)
    (distinctTokenIds : list string) : Prog unit :=
  payload <- liftRes (Serialize.array tokens (fun t =>
    res_concat [ Serialize.uint32 (indexOf distinctTokenIds (id t));
                 Serialize.uint64 (amount t) ])) ;;
  send SIGN_TX P1.ADD_OUTPUT_BOX_TOKENS sessionId payload ;;
  Ret tt.

Definition addOutputBoxRegisters (sessionId : option Z) (registers : Buffer)
  : Prog unit :=
  sendData SIGN_TX P1.ADD_OUTPUT_BOX_REGISTERS_CHUNK sessionId registers ;;
  Ret tt.

(** The body of the loop of [sendOutputs]. *)
Definition sendOutputBox (sessionId : option Z) (changeMap : ChangeMap)
    (distinctTokenIdsStr : list string) (network : Network)
    (box : BoxCandidate) : Prog unit :=
  header <- liftRes (res_concat
    [ Serialize.uint64 (value box);
      Serialize.uint32 (Z.of_nat (length (ergoTree box)));
      Serialize.uint32 (creationHeight box);
      Serialize.uint8 (Z.of_nat (length (tokens box)));
      Serialize.uint32 (Z.of_nat (length (registers box))) ]) ;;
  send SIGN_TX P1.ADD_OUTPUT_BOX_START sessionId header ;;
  let tree := Deserialize.hex (ergoTree box) in
  (if String.eqb tree MAINNET_MINER_FEE_TREE || String.eqb tree TESTNET_FEE_TREE
   then addOutputBoxMinersFeeTree sessionId network
   else if String.eqb (addressFromErgoTree tree) (address changeMap)
   then addOutputBoxChangeTree sessionId (path changeMap)
   else addOutputBoxErgoTree sessionId (ergoTree box)) ;;
  (if (0 <? length (tokens box))%nat
   then addOutputBoxTokens sessionId (tokens box) distinctTokenIdsStr
   else Ret tt) ;;
  (if (0 <? length (registers box))%nat
   then addOutputBoxRegisters sessionId (registers box)
   else Ret tt).

Definition sendOutputs (sessionId : option Z) (boxes : list BoxCandidate)
    (changeMap : ChangeMap) (distinctTokenIds : list Buffer)
    (network : Network) : Prog unit :=
  let distinctTokenIdsStr := map Deserialize.hex distinctTokenIds in
  forEach boxes (sendOutputBox sessionId changeMap distinctTokenIdsStr network).

Definition sendConfirmAndSign (sessionId : option Z) : Prog Buffer :=
  response <- send SIGN_TX P1.CONFIRM_AND_SIGN sessionId [] ;;
  Ret (data response).

Definition signTx (tx : AttestedTx) (signPath : string) (network : Network)
    (authToken : option Z) : Prog Buffer :=
  sessionId <- sendHeader signPath authToken ;;
  sendStartTx sessionId tx (Z.of_nat (length (distinctTokenIds tx))) ;;
  sendDistinctTokensIds sessionId (distinctTokenIds tx) ;;
  sendInputs sessionId (inputs tx) ;;
  sendDataInputs sessionId (dataInputs tx) ;;
  sendOutputs sessionId (outputs tx) (changeMap tx) (distinctTokenIds tx) network ;;
  signBytes <- sendConfirmAndSign sessionId ;;
  Ret signBytes.

End WithPlatform.
End SignTx.

(* ================================================================== *)
(** * The second variant of the driver (carried after [src/erg.ts])

    It differs from the first in four places: the network tag opens the
    start-signing payload, one miner-fee script is known, the fee-tree
    command has an empty payload, and the change path is not optional. *)

Module SignTx2.

Record ChangeMap : Type := { address : string; path : string }.

Record AttestedTransaction : Type := {
  inputs : list AttestedBox;
  dataInputs : list string;
  outputs : list BoxCandidate;
  distinctTokenIds : list Buffer;
  changeMap : ChangeMap
}.

Section WithPlatform.
Context {platform : Platform}.
Import DeviceChannel.

Definition MINER_FEE_TREE : string :=
  "1005040004000e36100204a00b08cd0279be667ef9dcbbac55a06295ce870b07029bfcdb2dce28d959f2815b16f81798ea02d192a39a8cc7a701730073011001020402d19683030193a38cc7b2a57300000193c2b2a57301007473027303830108cdeeac93b1a57304".

Definition MAX_PACKET_SIZE : nat := 7.

Definition sendHeader (network : Network) (path : string)
    (authToken : option Z) : Prog (option Z) :=
  payload <- liftRes (res_concat
    [ Serialize.uint8 network;
      bip32Path path;
      if truthy authToken
      then Serialize.uint32 (match authToken with Some t => t | None => 0%Z end)
      else inr [] ]) ;;
  response <- send SIGN_TX P1.START_SIGNING
    (Some (if truthy authToken then P2.WITH_TOKEN else P2.WITHOUT_TOKEN))
    payload ;;
  Ret (firstByte response).

Definition sendStartTx (sessionId : option Z) (tx : AttestedTransaction)
    (uniqueTokenIdsCount : Z) : Prog (option Z) :=
  payload <- liftRes (res_concat
    [ Serialize.uint16 (Z.of_nat (length (inputs tx)));
      Serialize.uint16 (Z.of_nat (length (dataInputs tx)));
      Serialize.uint8 uniqueTokenIdsCount;
      Serialize.uint16 (Z.of_nat (length (outputs tx))) ]) ;;
  response <- send SIGN_TX P1.START_TRANSACTION sessionId payload ;;
  Ret (firstByte response).

Definition sendDistinctTokensIds (sessionId : option Z) (ids : list Buffer)
  : Prog unit :=
  if (length ids =? 0)%nat then Ret tt
  else
    packets <- liftRes (Serialize.arrayAndChunk ids MAX_PACKET_SIZE
                          (fun id => inr id)) ;;
    forEach packets (fun p =>
      send SIGN_TX P1.ADD_TOKEN_IDS sessionId p ;; Ret tt).

Definition sendBoxContextExtension (sessionId : option Z) (extension : Buffer)
  : Prog unit :=
  sendData SIGN_TX P1.ADD_INPUT_BOX_CONTEXT_EXTENSION_CHUNK sessionId extension ;;
  Ret tt.

Definition sendInputs (sessionId : option Z) (inputs : list AttestedBox)
  : Prog unit :=
  forEach inputs (fun input =>
    forEach (frames input) (fun frame =>
      send SIGN_TX P1.ADD_INPUT_BOX_FRAME sessionId (buffer frame) ;; Ret tt) ;;
    match extension input with
    | Some ext =>
        if (0 <? length ext)%nat then sendBoxContextExtension sessionId ext
        else Ret tt
    | None => Ret tt
    end).

Definition sendDataInputs (sessionId : option Z) (boxIds : list string)
  : Prog unit :=
  packets <- liftRes (Serialize.arrayAndChunk boxIds MAX_PACKET_SIZE
                        Serialize.hex) ;;
  forEach packets (fun p =>
    send SIGN_TX P1.ADD_DATA_INPUTS sessionId p ;; Ret tt).

Definition addOutputBoxErgoTree (sessionId : option Z) (ergoTree : Buffer)
  : Prog unit :=
  sendData SIGN_TX P1.ADD_OUTPUT_BOX_ERGO_TREE_CHUNK sessionId ergoTree ;;
  Ret tt.

Definition addOutputBoxMinersFeeTree (sessionId : option Z) : Prog unit :=
  send SIGN_TX P1.ADD_OUTPUT_BOX_MINERS_FEE_TREE sessionId [] ;;
  Ret tt.

Definition addOutputBoxChangeTree (sessionId : option Z) (path : string)
  : Prog unit :=
  payload <- liftRes (bip32Path path) ;;
  send SIGN_TX P1.ADD_OUTPUT_BOX_CHANGE_TREE sessionId payload ;;
  Ret tt.

Definition addOutputBoxTokens (sessionId : option Z) (tokens : list Token)
    (distinctTokenIds : list string) : Prog unit :=
  payload <- liftRes (Serialize.array tokens (fun t =>
    res_concat [ Serialize.uint32 (indexOf distinctTokenIds (id t));
                 Serialize.uint64 (amount t) ])) ;;
  send SIGN_TX P1.ADD_OUTPUT_BOX_TOKENS sessionId payload ;;
  Ret tt.

Definition addOutputBoxRegisters (sessionId : option Z) (registers : Buffer)
  : Prog unit :=
  sendData SIGN_TX P1.ADD_OUTPUT_BOX_REGISTERS_CHUNK sessionId registers ;;
  Ret tt.

(** The body of the loop of [sendOutputs]. *)
Definition sendOutputBox (sessionId : option Z) (changeMap : ChangeMap)
    (distinctTokenIdsStr : list string) (box : BoxCandidate) : Prog unit :=
  header <- liftRes (res_concat
    [ Serialize.uint64 (value box);
      Serialize.uint32 (Z.of_nat (length (ergoTree box)));
      Serialize.uint32 (creationHeight box);
      Serialize.uint8 (Z.of_nat (length (tokens box)));
      Serialize.uint32 (Z.of_nat (length (registers box))) ]) ;;
  send SIGN_TX P1.ADD_OUTPUT_BOX_START sessionId header ;;
  let tree := Deserialize.hex (ergoTree box) in
  (if String.eqb tree MINER_FEE_TREE
   then addOutputBoxMinersFeeTree sessionId
   else if String.eqb (addressFromErgoTree tree) (address changeMap)
   then addOutputBoxChangeTree sessionId (path changeMap)
   else addOutputBoxErgoTree sessionId (ergoTree box)) ;;
  (if (0 <? length (tokens box))%nat
   then addOutputBoxTokens sessionId (tokens box) distinctTokenIdsStr
   else Ret tt) ;;
  (if (0 <? length (registers box))%nat
   then addOutputBoxRegisters sessionId (registers box)
   else Ret tt).

Definition sendOutputs (sessionId : option Z) (boxes : list BoxCandidate)
    (changeMap : ChangeMap) (distinctTokenIds : list Buffer) : Prog unit :=
  let distinctTokenIdsStr := map Deserialize.hex distinctTokenIds in
  forEach boxes (sendOutputBox sessionId changeMap distinctTokenIdsStr).

Definition sendConfirmAndSign (sessionId : option Z) : Prog Buffer :=
  response <- send SIGN_TX P1.CONFIRM_AND_SIGN sessionId [] ;;
  Ret (data response).

Definition signTx (tx : AttestedTransaction) (signPath : string)
    (network : Network) (authToken : option Z) : Prog Buffer :=
  sessionId <- sendHeader network signPath authToken ;;
  sendStartTx sessionId tx (Z.of_nat (length (distinctTokenIds tx))) ;;
  sendDistinctTokensIds sessionId (distinctTokenIds tx) ;;
  sendInputs sessionId (inputs tx) ;;
  sendDataInputs sessionId (dataInputs tx) ;;
  sendOutputs sessionId (outputs tx) (changeMap tx) (distinctTokenIds tx) ;;
  proof <- sendConfirmAndSign sessionId ;;
  Ret proof.

End WithPlatform.
End SignTx2.

(* ================================================================== *)
(** * [src/erg.ts]: the auth token of [ErgoApp] *)

Module ErgoApp.

(** A JavaScript [number]: a binary64 value of IEEE 754, in the canonical
    form that [isNumber] checks (on which [SFeqb] is the equality [===] of
    numbers: a NaN equals nothing and the two zeros are equal). *)
Definition Number : Type := spec_float.
Definition prec : Z := 53.
Definition emax : Z := 1024.
Definition isNumber (x : Number) : Prop := valid_binary prec emax x = true.

(** An integer as a number: the nearest double, which is the integer itself
    when it has at most 53 bits. *)
Definition ofInt (z : Z) : Number := binary_normalize prec emax z 0 false.

(** The number [0xffffffff]. *)
Definition MAX_UINT32 : Number := ofInt 0xffffffff.

(** [Math.floor] of a number that is zero or finite, as the integer it is.
    (The products it is applied to are zero or finite, see
    [product_spec].) *)
Definition floor (x : Number) : Z :=
  match x with
  | S754_finite s m e => Z.shiftl (if s then Z.neg m else Z.pos m) e
  | _ => 0%Z
  end.

(** One result of [Math.random()]. *)
Definition Random : Type := Number.

(** [Math.floor(Math.random() * 0xffffffff) + 1]: the product is rounded to
    the nearest double; its integer part is below [2 ^ 32], so that adding 1
    is exact. *)
Definition candidate (r : Random) : Z :=
  (floor (SFmul prec emax r MAX_UINT32) + 1)%Z.

(** [newAuthToken]: the [do ... while] loop draws until the candidate
    differs from the current token.  [draws] are the results [Math.random]
    is going to give; the new token comes with the draws left over, and
    [None] is a loop that has used them all up and is still running. *)
Fixpoint newAuthToken (_authToken : Number) (draws : list Random)
  : option (Number * list Random) :=
  match draws with
  | [] => None
  | r :: rest =>
      let newToken := ofInt (candidate r) in
      if SFeqb newToken _authToken then newAuthToken _authToken rest
      else Some (newToken, rest)
  end.

(** The constructor, as far as [_authToken] goes: [authToken] is whatever
    number the caller passes, [0] by default. *)
Definition constructor (authToken : Number) (draws : list Random)
  : option (Number * list Random) :=
  if SFeqb authToken (S754_zero false) then newAuthToken authToken draws
  else Some (authToken, draws).

(** [getAuthToken] *)
Definition getAuthToken (_authToken : Number) (useAuthToken : bool)
  : option Number :=
  if useAuthToken then Some _authToken else None.

End ErgoApp.

(* ================================================================== *)
(** * Vocabulary of the properties *)

Definition prefix {T} (a b : list T) : Prop := exists rest, b = a ++ rest.

(** A [SIGN_TX] command. *)
Definition command (p1 : Z) (sessionId : option Z) (payload : Buffer) : Apdu :=
  {| cmd_ins := SIGN_TX; cmd_p1 := p1; cmd_p2 := sessionId; cmd_data := payload |}.

(** The step of the session (spec 4.4) a command belongs to. *)
Definition phase (c : Apdu) : nat :=
  let p := cmd_p1 c in
  if (p =? P1.START_SIGNING)%Z then 1
  else if (p =? P1.START_TRANSACTION)%Z then 2
  else if (p =? P1.ADD_TOKEN_IDS)%Z then 3
  else if ((p =? P1.ADD_INPUT_BOX_FRAME)
           || (p =? P1.ADD_INPUT_BOX_CONTEXT_EXTENSION_CHUNK))%Z then 4
  else if (p =? P1.ADD_DATA_INPUTS)%Z then 5
  else if ((P1.ADD_OUTPUT_BOX_START <=? p)
           && (p <=? P1.ADD_OUTPUT_BOX_REGISTERS_CHUNK))%Z then 6
  else if (p =? P1.CONFIRM_AND_SIGN)%Z then 7
  else 0.

(** A program that checks the status of every response, sends only
    commands of [C] and throws, on its own account, only malformed-input
    errors of [E]. *)
Inductive Conforms {A} (ok : Z) (C : Apdu -> Prop) (E : MalformedInput -> Prop)
  : Prog A -> Prop :=
| Conforms_Ret : forall a, Conforms ok C E (Ret a)
| Conforms_Throw : forall m, E m -> Conforms ok C E (Throw (Malformed m))
| Conforms_Exchange : forall c k,
    C c ->
    (forall r, returnCode r = ok -> Conforms ok C E (k r)) ->
    (forall r, returnCode r <> ok -> k r = Throw (DeviceRejection (returnCode r))) ->
    Conforms ok C E (Exchange c k).

(** How a run that sent [cs] from [log] can have ended with [r]: every
    command was accepted, unless the run ended with the rejection of its
    last command. *)
Definition outcome {A} (ok : Z) (dev : Device) (log : list Apdu)
    (E : MalformedInput -> Prop) (r : Res A) (cs : list Apdu) : Prop :=
  match r with
  | inr _ => accepted ok dev log cs
  | inl (Malformed m) => E m /\ accepted ok dev log cs
  | inl (DeviceRejection code) =>
      exists cs' c, cs = cs' ++ [c] /\ accepted ok dev log cs' /\
                    returnCode (dev (log ++ cs') c) = code /\ code <> ok
  end.

(** A program whose commands are those of [plan], in order: it sends a
    prefix of [plan], and all of it when it returns. *)
Definition Follows {A} (p : Prog A) (plan : list Apdu) : Prop :=
  forall dev log,
    prefix (snd (run dev p log)) plan /\
    (forall a, fst (run dev p log) = inr a -> snd (run dev p log) = plan).

(** The errors of the encoders, and a host computation that can only fail
    with one of them. *)
Definition encoderError (m : MalformedInput) : Prop := m <> ChangePathNotPresent.

Definition failsAsEncoder {A} (r : Res A) : Prop :=
  forall e, r = inl e -> exists m, e = Malformed m /\ encoderError m.

(** A command of step [n] of the session [sessionId]. *)
Definition inPhase (n : nat) (sessionId : option Z) (c : Apdu) : Prop :=
  cmd_ins c = SIGN_TX /\ cmd_p2 c = sessionId /\ phase c = n.

(** [cs] is cut into consecutive segments, one per stage, in order. *)
Fixpoint staged (stages : list (list Apdu -> Prop)) (cs : list Apdu) : Prop :=
  match stages with
  | [] => cs = []
  | stage :: later => exists a b, cs = a ++ b /\ stage a /\ staged later b
  end.

(** At most one command, of step [n]; any number of commands of step [n]. *)
Definition oneOfPhase (n : nat) (seg : list Apdu) : Prop :=
  Forall (fun c => phase c = n) seg /\ (length seg <= 1)%nat.

Definition allOfPhase (n : nat) (seg : list Apdu) : Prop :=
  Forall (fun c => phase c = n) seg.




Section Plans.
Context {platform : Platform}.

(** The commands of one attested input: its frames, then its extension
    in slices. *)
Definition extensionCommands (sessionId : option Z) (ext : option Buffer)
  : list Apdu :=
  match ext with
  | Some bytes =>
      map (command P1.ADD_INPUT_BOX_CONTEXT_EXTENSION_CHUNK sessionId)
          (Serialize.chunk bytes MAX_DATA_LENGTH)
  | None => []
  end.

Definition inputCommands (sessionId : option Z) (box : AttestedBox) : list Apdu :=
  map (fun frame => command P1.ADD_INPUT_BOX_FRAME sessionId (buffer frame))
      (frames box)
  ++ extensionCommands sessionId (extension box).

(** The three ways the script of an output is announced. *)
Definition isTreeCommand (c : Apdu) : Prop :=
  cmd_p1 c = P1.ADD_OUTPUT_BOX_ERGO_TREE_CHUNK \/
  cmd_p1 c = P1.ADD_OUTPUT_BOX_MINERS_FEE_TREE \/
  cmd_p1 c = P1.ADD_OUTPUT_BOX_CHANGE_TREE.

Definition afterTreeCommand (c : Apdu) : Prop :=
  cmd_p1 c = P1.ADD_OUTPUT_BOX_TOKENS \/
  cmd_p1 c = P1.ADD_OUTPUT_BOX_REGISTERS_CHUNK.

Definition ergoTreeCommands (sessionId : option Z) (box : BoxCandidate)
  : list Apdu :=
  map (command P1.ADD_OUTPUT_BOX_ERGO_TREE_CHUNK sessionId)
      (Serialize.chunk (ergoTree box) MAX_DATA_LENGTH).

(** The commands of the sub-steps of an output, as far as the host can
    encode them. *)
Definition outputHeader (box : BoxCandidate) : Res Buffer :=
  res_concat
    [ Serialize.uint64 (value box);
      Serialize.uint32 (Z.of_nat (length (ergoTree box)));
      Serialize.uint32 (creationHeight box);
      Serialize.uint8 (Z.of_nat (length (tokens box)));
      Serialize.uint32 (Z.of_nat (length (registers box))) ].

Definition startCommands (sessionId : option Z) (box : BoxCandidate)
    (then_ : list Apdu) : list Apdu :=
  match outputHeader box with
  | inr header => command P1.ADD_OUTPUT_BOX_START sessionId header :: then_
  | inl _ => []
  end.

Definition feeTreeCommands (sessionId : option Z) (payload : Buffer) : list Apdu :=
  [command P1.ADD_OUTPUT_BOX_MINERS_FEE_TREE sessionId payload].

Definition changePathCommands (sessionId : option Z) (p : string) : list Apdu :=
  match bip32Path p with
  | inr payload => [command P1.ADD_OUTPUT_BOX_CHANGE_TREE sessionId payload]
  | inl _ => []
  end.

Definition changeTreeCommands (sessionId : option Z) (p : option string)
  : list Apdu :=
  if falsyString p then []
  else changePathCommands sessionId
         (match p with Some s => s | None => EmptyString end).

Definition tokenCommands (sessionId : option Z) (table : list string)
    (box : BoxCandidate) : list Apdu :=
  if (0 <? length (tokens box))%nat then
    match Serialize.array (tokens box) (fun t =>
            res_concat [ Serialize.uint32 (indexOf table (id t));
                         Serialize.uint64 (amount t) ]) with
    | inr payload => [command P1.ADD_OUTPUT_BOX_TOKENS sessionId payload]
    | inl _ => []
    end
  else [].

Definition registerCommands (sessionId : option Z) (box : BoxCandidate)
  : list Apdu :=
  if (0 <? length (registers box))%nat then
    map (command P1.ADD_OUTPUT_BOX_REGISTERS_CHUNK sessionId)
        (Serialize.chunk (registers box) MAX_DATA_LENGTH)
  else [].

(** The script of the output is one of the miner-fee scripts the first
    variant knows; it is the one the second variant knows. *)
Definition isFeeScript (box : BoxCandidate) : Prop :=
  Deserialize.hex (ergoTree box) = SignTx.MAINNET_MINER_FEE_TREE \/
  Deserialize.hex (ergoTree box) = SignTx.TESTNET_FEE_TREE.

Definition isFeeScript2 (box : BoxCandidate) : Prop :=
  Deserialize.hex (ergoTree box) = SignTx2.MINER_FEE_TREE.

(** The address derived from the script of the output is [changeAddress]. *)
Definition paysTo (changeAddress : string) (box : BoxCandidate) : Prop :=
  addressFromErgoTree (Deserialize.hex (ergoTree box)) = changeAddress.

Definition treeCommands (sessionId : option Z) (changeMap : ChangeMap)
    (network : Network) (box : BoxCandidate) : list Apdu :=
  let tree := Deserialize.hex (ergoTree box) in
  if String.eqb tree SignTx.MAINNET_MINER_FEE_TREE
     || String.eqb tree SignTx.TESTNET_FEE_TREE
  then feeTreeCommands sessionId [byteOfZ network]
  else if String.eqb (addressFromErgoTree tree) (address changeMap)
  then changeTreeCommands sessionId (path changeMap)
  else ergoTreeCommands sessionId box.

Definition treeCommands2 (sessionId : option Z) (changeMap : SignTx2.ChangeMap)
    (box : BoxCandidate) : list Apdu :=
  let tree := Deserialize.hex (ergoTree box) in
  if String.eqb tree SignTx2.MINER_FEE_TREE
  then feeTreeCommands sessionId []
  else if String.eqb (addressFromErgoTree tree) (SignTx2.address changeMap)
  then changePathCommands sessionId (SignTx2.path changeMap)
  else ergoTreeCommands sessionId box.

Definition outputCommands (sessionId : option Z) (changeMap : ChangeMap)
    (table : list string) (network : Network) (box : BoxCandidate) : list Apdu :=
  startCommands sessionId box
    (treeCommands sessionId changeMap network box
     ++ tokenCommands sessionId table box
     ++ registerCommands sessionId box).

Definition outputCommands2 (sessionId : option Z) (changeMap : SignTx2.ChangeMap)
    (table : list string) (box : BoxCandidate) : list Apdu :=
  startCommands sessionId box
    (treeCommands2 sessionId changeMap box
     ++ tokenCommands sessionId table box
     ++ registerCommands sessionId box).

(** What a tree command of an output says of the output, in the first
    variant and in the second. *)
Definition treePolicy (changeMap : ChangeMap) (network : Network)
    (box : BoxCandidate) (c : Apdu) : Prop :=
  (cmd_p1 c = P1.ADD_OUTPUT_BOX_MINERS_FEE_TREE ->
     isFeeScript box /\ cmd_data c = [byteOfZ network]) /\
  (cmd_p1 c = P1.ADD_OUTPUT_BOX_CHANGE_TREE ->
     ~ isFeeScript box /\ paysTo (address changeMap) box /\
     exists p, path changeMap = Some p /\ bip32Path p = inr (cmd_data c)) /\
  (cmd_p1 c = P1.ADD_OUTPUT_BOX_ERGO_TREE_CHUNK ->
     ~ isFeeScript box /\ ~ paysTo (address changeMap) box).

Definition treePolicy2 (changeMap : SignTx2.ChangeMap)
    (box : BoxCandidate) (c : Apdu) : Prop :=
  (cmd_p1 c = P1.ADD_OUTPUT_BOX_MINERS_FEE_TREE ->
     isFeeScript2 box /\ cmd_data c = []) /\
  (cmd_p1 c = P1.ADD_OUTPUT_BOX_CHANGE_TREE ->
     ~ isFeeScript2 box /\ paysTo (SignTx2.address changeMap) box /\
     bip32Path (SignTx2.path changeMap) = inr (cmd_data c)) /\
  (cmd_p1 c = P1.ADD_OUTPUT_BOX_ERGO_TREE_CHUNK ->
     ~ isFeeScript2 box /\ ~ paysTo (SignTx2.address changeMap) box).

(** The steps of [signTx] that come before the output following [before]:
    the session as far as that output.  It returns the session id. *)
Definition stepsBefore (tx : AttestedTx) (signPath : string)
    (network : Network) (authToken : option Z) (before : list BoxCandidate)
  : Prog (option Z) :=
  sessionId <- SignTx.sendHeader signPath authToken ;;
  SignTx.sendStartTx sessionId tx (Z.of_nat (length (distinctTokenIds tx))) ;;
  SignTx.sendDistinctTokensIds sessionId (distinctTokenIds tx) ;;
  SignTx.sendInputs sessionId (inputs tx) ;;
  SignTx.sendDataInputs sessionId (dataInputs tx) ;;
  forEach before
    (SignTx.sendOutputBox sessionId (changeMap tx)
       (map Deserialize.hex (distinctTokenIds tx)) network) ;;
  Ret sessionId.

(** The tree step of an output has nothing to fail on: the output is not a
    change output, or the change path is there and can be encoded. *)
Definition treeStepEncodes (changeMap : ChangeMap) (box : BoxCandidate) : Prop :=
  isFeeScript box \/ ~ paysTo (address changeMap) box \/
  exists p payload,
    path changeMap = Some p /\ falsyString (Some p) = false /\
    bip32Path p = inr payload.

End Plans.

(** A result of [Math.random]: a double with positive sign, at least 0 and
    less than 1. *)
Definition unitInterval (r : ErgoApp.Random) : Prop :=
  match r with
  | S754_zero false => True
  | S754_finite false m e =>
      bounded ErgoApp.prec ErgoApp.emax m e = true /\
      (Z.pos m < 2 ^ (- e))%Z
  | _ => False
  end.

(* ================================================================== *)
(** * Sample inputs *)

Module Sample.
Local Open Scope string_scope.

Definition signPath : string := "m/44'/429'/0'/0/0".
Definition changePath : string := "m/44'/429'/0'/1/0".

(** A platform with the usual constants, a parser that knows the two
    sample paths and an address that is the script in hex after a tag. *)
Definition platform : Platform := {|
  MAX_DATA_LENGTH := 255;
  RETURN_CODE_OK := 0x9000%Z;
  pathToArray := fun s =>
    if String.eqb s signPath
    then Some [2147483692; 2147484077; 2147483648; 0; 0]%Z
    else if String.eqb s changePath
    then Some [2147483692; 2147484077; 2147483648; 1; 0]%Z
    else None;
  addressFromErgoTree := fun tree => String "9"%char tree
|}.

(** A device that accepts everything and names the session 7. *)
Definition accepting : Device :=
  fun _ _ => {| returnCode := 0x9000%Z; data := [x07] |}.

(** A device that rejects the command it receives after [n] others. *)
Definition rejectingAfter (n : nat) : Device :=
  fun log _ =>
    if (length log =? n)%nat then {| returnCode := 0x6985%Z; data := [] |}
    else {| returnCode := 0x9000%Z; data := [x07] |}.

Definition bytesOfHex (s : string) : Buffer :=
  match Serialize.hex s with
  | inr b => b
  | inl _ => []
  end.

Definition tokenA : string := "aa01".
Definition tokenB : string := "bb02".

Definition mainnetFeeBox : BoxCandidate := {|
  value := 1100000; ergoTree := bytesOfHex SignTx.MAINNET_MINER_FEE_TREE;
  creationHeight := 10; tokens := []; registers := [] |}.

Definition testnetFeeBox : BoxCandidate := {|
  value := 1100000; ergoTree := bytesOfHex SignTx.TESTNET_FEE_TREE;
  creationHeight := 10; tokens := []; registers := [] |}.

Definition changeBox : BoxCandidate := {|
  value := 5000; ergoTree := [x00; x08; xcd; x02];
  creationHeight := 10;
  tokens := [ {| id := tokenB; amount := 3 |} ];
  registers := [] |}.

Definition externalBox : BoxCandidate := {|
  value := 7000; ergoTree := [x00; x08; xcd; x03];
  creationHeight := 10;
  tokens := [ {| id := tokenA; amount := 1 |}; {| id := tokenB; amount := 2 |} ];
  registers := [x01; x04; x02] |}.

(** An output that refers to a token the table does not hold. *)
Definition strayTokenBox : BoxCandidate := {|
  value := 7000; ergoTree := [x00; x08; xcd; x03];
  creationHeight := 10;
  tokens := [ {| id := "cc03"; amount := 1 |} ];
  registers := [] |}.

Definition change : ChangeMap :=
  {| address := "90008cd02"; path := Some changePath |}.

Definition changeWithoutPath : ChangeMap :=
  {| address := "90008cd02"; path := None |}.

Definition input1 : AttestedBox := {|
  frames := [ {| buffer := [x01; x02] |}; {| buffer := [x03] |} ];
  extension := Some [x09; x09] |}.

(** An input whose extension is present and empty. *)
Definition input2 : AttestedBox := {|
  frames := [ {| buffer := [x04] |} ];
  extension := Some [] |}.

Definition tx : AttestedTx := {|
  inputs := [input1; input2];
  dataInputs := ["d1d2"];
  outputs := [externalBox; changeBox; mainnetFeeBox];
  distinctTokenIds := [bytesOfHex tokenA; bytesOfHex tokenB];
  changeMap := change |}.

Definition txWithoutChangePath : AttestedTx := {|
  inputs := [input1];
  dataInputs := [];
  outputs := [changeBox];
  distinctTokenIds := [bytesOfHex tokenB];
  changeMap := changeWithoutPath |}.

Definition txWithStrayToken : AttestedTx := {|
  inputs := [input1];
  dataInputs := [];
  outputs := [strayTokenBox];
  distinctTokenIds := [bytesOfHex tokenA];
  changeMap := change |}.

Definition change2 : SignTx2.ChangeMap :=
  {| SignTx2.address := "90008cd02"; SignTx2.path := changePath |}.

(** Eight data-input ids: one full packet and one more. *)
Definition eightIds : list string :=
  ["d1d1"; "d2d2"; "d3d3"; "d4d4"; "d5d5"; "d6d6"; "d7d7"; "d8d8"].

Definition eightIdsPackets : list Buffer :=
  [ bytesOfHex "d1d1d2d2d3d3d4d4d5d5d6d6d7d7"; bytesOfHex "d8d8" ].

(** Stands for a command that was not sent. *)
Definition noCommand : Apdu := command 0 None [].

(** Two results of [Math.random]: 9 * 2^-33, which gives the candidate 5,
    and 1/2 + 2^-33, whose product with 0xffffffff is rounded up to 2^31
    and gives the candidate 2147483649. *)
Definition draw5 : ErgoApp.Random :=
  S754_finite false 5066549580791808 (-82).
Definition drawHalf : ErgoApp.Random :=
  S754_finite false 4503599628419072 (-53).
Definition draws : list ErgoApp.Random := [draw5; drawHalf].

Definition tx2 : SignTx2.AttestedTransaction := {|
  SignTx2.inputs := [input1; input2];
  SignTx2.dataInputs := ["d1d2"];
  SignTx2.outputs := [externalBox; changeBox; mainnetFeeBox];
  SignTx2.distinctTokenIds := [bytesOfHex tokenA; bytesOfHex tokenB];
  SignTx2.changeMap := change2 |}.

End Sample.

(* ================================================================== *)
(** * [src/interactions/deriveAddress.ts] *)

Module DeriveAddress.

Inductive ReturnType : Type := Return | Display.

Module P1.
Definition RETURN : Z := 0x01.
Definition DISPLAY : Z := 0x02.
End P1.

Module P2.
Definition WITHOUT_TOKEN : Z := 0x01.
Definition WITH_TOKEN : Z := 0x02.
End P2.

Definition CHANGE_PATH_INDEX : nat := 3.
Definition ALLOWED_CHANGE_PATHS : list Z := [0; 1]%Z.

Record DerivedAddress : Type := { addressHex : string }.

(** What a call can end with other than a value: the two errors the file
    raises itself, and whatever the encoders and the channel raise. *)
Inductive Failure : Type :=
| InvalidPathLength (n : nat)      (* [`Invalid path length. ${n}`] *)
| InvalidChangePath (change : Z)   (* [`Invalid change path: ${change}`] *)
| Raised (e : Err).

Section WithPlatform.
Context {platform : Platform}.
Import DeviceChannel.

(** [sendDeriveAddress] is not [async]: it throws while it checks the path
    and builds the payload ([inl]), or hands back the promise of the one
    command ([inr]). *)
Definition sendDeriveAddress (network : Network) (path : string)
    (returnType : ReturnType) (authToken : option Z)
  : Failure + Prog DeviceResponse :=
  match pathToArray path with
  | None => inl (Raised (Malformed InvalidPath))
  | Some pathArray =>
      if (length pathArray <? 5)%nat
      then inl (InvalidPathLength (length pathArray))
      else
        let change := nth CHANGE_PATH_INDEX pathArray 0%Z in
        if negb (existsb (Z.eqb change) ALLOWED_CHANGE_PATHS)
        then inl (InvalidChangePath change)
        else
          match res_concat [ inr [byteOfZ network]; Serialize.path pathArray ] with
          | inl e => inl (Raised e)
          | inr bytes =>
              match (if truthy authToken
                     then res_concat
                            [ inr bytes;
                              Serialize.uint32
                                (match authToken with Some t => t | None => 0%Z end) ]
                     else inr bytes) with
              | inl e => inl (Raised e)
              | inr payload =>
                  inr (send DERIVE_ADDRESS
                         (match returnType with
                          | Return => P1.RETURN
                          | Display => P1.DISPLAY
                          end)
                         (Some (if truthy authToken then P2.WITH_TOKEN
                                else P2.WITHOUT_TOKEN))
                         payload)
              end
          end
  end.

Definition deriveAddress (network : Network) (path : string)
    (authToken : option Z) : Failure + Prog DerivedAddress :=
  match sendDeriveAddress network path Return authToken with
  | inl failure => inl failure
  | inr pending =>
      inr (response <- pending ;;
           Ret {| addressHex := Deserialize.hex (data response) |})
  end.

Definition showAddress (network : Network) (path : string)
    (authToken : option Z) : Failure + Prog bool :=
  match sendDeriveAddress network path Display authToken with
  | inl failure => inl failure
  | inr pending =>
      inr (response <- pending ;;
           Ret (returnCode response =? RETURN_CODE_OK)%Z)
  end.

End WithPlatform.

(** A call against a device: what the caller gets, and the commands sent. *)
Definition attempt {A} (dev : Device) (call : Failure + Prog A)
    (log : list Apdu) : (Failure + A) * list Apdu :=
  match call with
  | inl failure => (inl failure, [])
  | inr p =>
      let (r, cs) := run dev p log in
      (match r with
       | inl e => inl (Raised e)
       | inr a => inr a
       end, cs)
  end.

End DeriveAddress.

(* ================================================================== *)
(** * More vocabulary and samples *)

(** A digit of lowercase hex, and a string of such digits. *)
Definition lowerHexDigit (c : ascii) : bool :=
  let n := N_of_ascii c in
  (((48 <=? n) && (n <=? 57)) || ((97 <=? n) && (n <=? 102)))%N.

Fixpoint lowerHexString (s : string) : bool :=
  match s with
  | EmptyString => true
  | String c rest => lowerHexDigit c && lowerHexString rest
  end.

(** The payload of the start-transaction command. *)
Definition startTxPayload (nInputs nDataInputs nTokenIds nOutputs : nat) : Buffer :=
  bigEndian 2 (Z.of_nat nInputs) ++ bigEndian 2 (Z.of_nat nDataInputs)
  ++ bigEndian 1 (Z.of_nat nTokenIds) ++ bigEndian 2 (Z.of_nat nOutputs).

(** The auth token part of a payload. *)
Definition authTokenBytes (authToken : option Z) : Buffer :=
  match authToken with
  | Some t => if (t =? 0)%Z then [] else bigEndian 4 t
  | None => []
  end.

(** The request for an address: the network byte, the number of path
    components in one byte, the components in four bytes each and, with a
    token, its four bytes. *)
Definition deriveAddressRequest (p1 : Z) (network : Network)
    (components : list Z) (authToken : option Z) : Apdu :=
  {| cmd_ins := DERIVE_ADDRESS;
     cmd_p1 := p1;
     cmd_p2 := Some (if truthy authToken then DeriveAddress.P2.WITH_TOKEN
                     else DeriveAddress.P2.WITHOUT_TOKEN);
     cmd_data := byteOfZ network
                 :: bigEndian 1 (Z.of_nat (length components))
                 ++ concat (map (bigEndian 4) components)
                 ++ authTokenBytes authToken |}.

Definition p1Of (returnType : DeriveAddress.ReturnType) : Z :=
  match returnType with
  | DeriveAddress.Return => DeriveAddress.P1.RETURN
  | DeriveAddress.Display => DeriveAddress.P1.DISPLAY
  end.

(** A request for an address, with a token added to it. *)
Definition withToken (t : Z) (c : Apdu) : Apdu :=
  {| cmd_ins := cmd_ins c;
     cmd_p1 := cmd_p1 c;
     cmd_p2 := Some DeriveAddress.P2.WITH_TOKEN;
     cmd_data := cmd_data c ++ bigEndian 4 t |}.

(** The request, but for [P1]. *)
Definition requestBody (c : Apdu) : COMMAND * option Z * Buffer :=
  (cmd_ins c, cmd_p2 c, cmd_data c).

Module MoreSamples.
Local Open Scope string_scope.

Definition shortPath : string := "m/44'/429'/0'".
Definition strangeChangePath : string := "m/44'/429'/0'/2/0".

(** The sample platform, with a parser that knows two more paths. *)
Definition platform : Platform := {|
  MAX_DATA_LENGTH := 255;
  RETURN_CODE_OK := 0x9000%Z;
  pathToArray := fun s =>
    if String.eqb s Sample.signPath
    then Some [2147483692; 2147484077; 2147483648; 0; 0]%Z
    else if String.eqb s shortPath
    then Some [2147483692; 2147484077; 2147483648]%Z
    else if String.eqb s strangeChangePath
    then Some [2147483692; 2147484077; 2147483648; 2; 0]%Z
    else None;
  addressFromErgoTree := fun tree => String "9"%char tree
|}.

(** A transaction with 256 distinct token ids. *)
Definition txManyTokens : AttestedTx := {|
  inputs := [Sample.input1];
  dataInputs := [];
  outputs := [Sample.mainnetFeeBox];
  distinctTokenIds := repeat [x01] 256;
  changeMap := Sample.change |}.

(** An output whose token id is written in uppercase hex. *)
Definition uppercaseTokenBox : BoxCandidate := {|
  value := 7000; ergoTree := [x00; x08; xcd; x03];
  creationHeight := 10;
  tokens := [ {| id := "AA01"; amount := 1 |} ];
  registers := [] |}.

(** A transaction whose table holds the bytes aa 01 and whose output
    names them in uppercase. *)
Definition txUppercaseToken : AttestedTx := {|
  inputs := [Sample.input1];
  dataInputs := [];
  outputs := [uppercaseTokenBox];
  distinctTokenIds := [[xaa; x01]];
  changeMap := Sample.change |}.

(** A platform whose channel carries two bytes of data at most. *)
Definition narrowPlatform : Platform := {|
  MAX_DATA_LENGTH := 2;
  RETURN_CODE_OK := 0x9000%Z;
  pathToArray := fun _ => None;
  addressFromErgoTree := fun tree => tree
|}.

(** A device that answers every command with the bytes 03 ab. *)
Definition addressDevice : Device :=
  fun _ _ => {| returnCode := 0x9000%Z; data := [x03; xab] |}.

(** An output without tokens and without registers. *)
Definition plainBox : BoxCandidate := {|
  value := 7000; ergoTree := [x00; x08; xcd; x03];
  creationHeight := 10; tokens := []; registers := [] |}.

End MoreSamples.

(* ================================================================== *)
(** * Running programs *)

Section Running.
Variable dev : Device.

Lemma run_bind {A B} (p : Prog A) (f : A -> Prog B) (log : list Apdu) :
  run dev (bind p f) log =
  match run dev p log with
  | (inl e, cs) => (inl e, cs)
  | (inr a, cs) =>
      let (r, cs') := run dev (f a) (log ++ cs) in (r, cs ++ cs')
  end.
Proof.
  revert log.
  induction p as [a | e | c k IH]; intro log; simpl.
  - rewrite app_nil_r. now destruct (run dev (f a) log).
  - reflexivity.
  - rewrite IH.
    destruct (run dev (k (dev log c)) (log ++ [c])) as [[e | a] cs];
      [reflexivity |].
    rewrite <- app_assoc. simpl.
    now destruct (run dev (f a) (log ++ c :: cs)).
Qed.

(** The two ways a sequence can have run. *)
Lemma run_bind_inv {A B} (p : Prog A) (f : A -> Prog B) log r cs :
  run dev (bind p f) log = (r, cs) ->
  (exists e, run dev p log = (inl e, cs) /\ r = inl e) \/
  (exists a cs1 cs2,
      run dev p log = (inr a, cs1) /\
      run dev (f a) (log ++ cs1) = (r, cs2) /\ cs = cs1 ++ cs2).
Proof.
  rewrite run_bind.
  destruct (run dev p log) as [[e | a] cs1].
  - intro H. inversion H. left. eauto.
  - destruct (run dev (f a) (log ++ cs1)) as [r2 cs2] eqn:Hf.
    intro H. inversion H. subst. right. eauto 6.
Qed.

Lemma run_liftRes {A} (r : Res A) log :
  run dev (liftRes r) log = (r, []).
Proof. now destruct r. Qed.

End Running.

Lemma accepted_app ok dev log cs1 cs2 :
  accepted ok dev log (cs1 ++ cs2) <->
  accepted ok dev log cs1 /\ accepted ok dev (log ++ cs1) cs2.
Proof.
  revert log.
  induction cs1 as [| c cs1 IH]; intro log; simpl.
  - rewrite app_nil_r. tauto.
  - rewrite IH, <- app_assoc. simpl. tauto.
Qed.

(** In an accepted sequence every command was answered with success. *)
Lemma accepted_split ok dev log pre c post :
  accepted ok dev log (pre ++ c :: post) ->
  returnCode (dev (log ++ pre) c) = ok.
Proof.
  rewrite accepted_app. simpl. tauto.
Qed.

Lemma prefix_nil {T} (l : list T) : prefix [] l.
Proof. now exists l. Qed.

Lemma prefix_refl {T} (l : list T) : prefix l l.
Proof. exists []. now rewrite app_nil_r. Qed.

Lemma prefix_app_l {T} (a b c : list T) : prefix b c -> prefix (a ++ b) (a ++ c).
Proof. intros [rest ->]. exists rest. now rewrite app_assoc. Qed.

Lemma prefix_app_r {T} (a b c : list T) : prefix a b -> prefix a (b ++ c).
Proof. intros [rest ->]. exists (rest ++ c). now rewrite app_assoc. Qed.

Lemma prefix_Forall {T} (P : T -> Prop) (a b : list T) :
  prefix a b -> Forall P b -> Forall P a.
Proof. intros [rest ->] H. now apply Forall_app in H. Qed.

(* ================================================================== *)
(** * Programs that conform *)

Section Conformance.
Context {platform : Platform}.
Import DeviceChannel.

Lemma Conforms_mono {A} (C C' : Apdu -> Prop) (E E' : MalformedInput -> Prop)
    (p : Prog A) :
  (forall c, C c -> C' c) -> (forall m, E m -> E' m) ->
  Conforms RETURN_CODE_OK C E p -> Conforms RETURN_CODE_OK C' E' p.
Proof.
  intros HC HE H.
  induction H; constructor; auto.
Qed.

Lemma Conforms_bind {A B} C E (p : Prog A) (f : A -> Prog B) :
  Conforms RETURN_CODE_OK C E p -> (forall a, Conforms RETURN_CODE_OK C E (f a)) ->
  Conforms RETURN_CODE_OK C E (bind p f).
Proof.
  intros Hp Hf.
  induction Hp as [a | m Hm | c k Hc Hk IH Hrej]; simpl.
  - apply Hf.
  - now constructor.
  - constructor; auto.
    intros r Hr. now rewrite (Hrej r Hr).
Qed.

Lemma Conforms_send C E ins p1 p2 payload :
  C {| cmd_ins := ins; cmd_p1 := p1; cmd_p2 := p2; cmd_data := payload |} ->
  Conforms RETURN_CODE_OK C E (send ins p1 p2 payload).
Proof.
  intro HC. with_strategy transparent [send] unfold send.
  constructor; auto; intros r Hr.
  - apply Z.eqb_eq in Hr. rewrite Hr. constructor.
  - apply Z.eqb_neq in Hr. now rewrite Hr.
Qed.

Lemma Conforms_liftRes {A} C (E : MalformedInput -> Prop) (r : Res A) :
  (forall e, r = inl e -> exists m, e = Malformed m /\ E m) ->
  Conforms RETURN_CODE_OK C E (liftRes r).
Proof.
  intro H. destruct r as [e | a]; simpl.
  - destruct (H e eq_refl) as [m [-> Hm]]. now constructor.
  - constructor.
Qed.

Lemma Conforms_forEach {T} C E (items : list T) (body : T -> Prog unit) :
  (forall x, In x items -> Conforms RETURN_CODE_OK C E (body x)) ->
  Conforms RETURN_CODE_OK C E (forEach items body).
Proof.
  induction items as [| x rest IH]; intro H; simpl.
  - constructor.
  - apply Conforms_bind.
    + apply H. now left.
    + intros _. apply IH. intros y Hy. apply H. now right.
Qed.

Lemma Conforms_sendEach C E ins p1 p2 chunks last :
  (forall payload, In payload chunks ->
     C {| cmd_ins := ins; cmd_p1 := p1; cmd_p2 := p2; cmd_data := payload |}) ->
  Conforms RETURN_CODE_OK C E (sendEach ins p1 p2 chunks last).
Proof.
  revert last.
  induction chunks as [| c rest IH]; intros last H; simpl.
  - constructor.
  - apply Conforms_bind.
    + apply Conforms_send. apply H. now left.
    + intro r. apply IH. intros y Hy. apply H. now right.
Qed.

Lemma Conforms_sendData C E ins p1 p2 payload :
  (forall slice,
     C {| cmd_ins := ins; cmd_p1 := p1; cmd_p2 := p2; cmd_data := slice |}) ->
  Conforms RETURN_CODE_OK C E (sendData ins p1 p2 payload).
Proof. intro H. apply Conforms_sendEach. auto. Qed.

(** What conformance means for a run. *)
Lemma Conforms_run {A} C E (p : Prog A) :
  Conforms RETURN_CODE_OK C E p ->
  forall dev log,
    Forall C (snd (run dev p log)) /\
    outcome RETURN_CODE_OK dev log E (fst (run dev p log)) (snd (run dev p log)).
Proof.
  induction 1 as [a | m Hm | c k Hc Hk IH Hrej]; intros dev log; simpl.
  - auto.
  - auto.
  - destruct (Z.eq_dec (returnCode (dev log c)) RETURN_CODE_OK) as [Hok | Hno].
    + destruct (IH _ Hok dev (log ++ [c])) as [HF Hout].
      destruct (run dev (k (dev log c)) (log ++ [c])) as [r cs]. simpl in *.
      split; [now constructor |].
      destruct r as [[m | code] | a]; simpl in *.
      * tauto.
      * destruct Hout as (cs' & c' & -> & Hacc & Hcode & Hne).
        exists (c :: cs'), c'. simpl.
        rewrite <- app_assoc in Hcode. simpl in Hcode. tauto.
      * tauto.
    + rewrite (Hrej _ Hno). simpl.
      split; [now repeat constructor |].
      exists [], c. simpl. rewrite app_nil_r. tauto.
Qed.

End Conformance.

(* ================================================================== *)
(** * Programs that follow a plan *)

Section Following.
Context {platform : Platform}.
Import DeviceChannel.

Lemma Follows_Ret {A} (a : A) : Follows (Ret a) [].
Proof. intros dev log. simpl. split; [apply prefix_nil | auto]. Qed.

Lemma Follows_Throw {A} (e : Err) plan : Follows (@Throw A e) plan.
Proof. intros dev log. simpl. split; [apply prefix_nil | discriminate]. Qed.

Lemma Follows_bind {A B} (p : Prog A) (f : A -> Prog B) plan1 plan2 :
  Follows p plan1 -> (forall a, Follows (f a) plan2) ->
  Follows (bind p f) (plan1 ++ plan2).
Proof.
  intros Hp Hf dev log.
  rewrite run_bind.
  destruct (Hp dev log) as [Hpre Hall].
  destruct (run dev p log) as [[e | a] cs]; simpl in *.
  - split; [now apply prefix_app_r | discriminate].
  - rewrite (Hall a eq_refl).
    destruct (Hf a dev (log ++ plan1)) as [Hpre2 Hall2].
    destruct (run dev (f a) (log ++ plan1)) as [r cs2]; simpl in *.
    split; [now apply prefix_app_l |].
    intros b Hb. now rewrite (Hall2 b Hb).
Qed.

Lemma Follows_send ins p1 p2 payload :
  Follows (send ins p1 p2 payload)
    [{| cmd_ins := ins; cmd_p1 := p1; cmd_p2 := p2; cmd_data := payload |}].
Proof.
  intros dev log. with_strategy transparent [send] unfold send. simpl.
  match goal with |- context [if ?b then _ else _] => destruct b end; simpl;
    split; auto using prefix_refl.
Qed.

Lemma Follows_step {A} (p : Prog A) c :
  Follows p [c] -> Follows (p ;; Ret tt) [c].
Proof.
  intro H. change [c] with ([c] ++ []).
  apply Follows_bind; [exact H | intro; apply Follows_Ret].
Qed.

Lemma Follows_forEach {T} (items : list T) (body : T -> Prog unit)
    (plan : T -> list Apdu) :
  (forall x, Follows (body x) (plan x)) ->
  Follows (forEach items body) (flat_map plan items).
Proof.
  intro H.
  induction items as [| x rest IH]; simpl.
  - apply Follows_Ret.
  - apply Follows_bind; auto.
Qed.

Lemma Follows_sendEach ins p1 p2 chunks last :
  Follows (sendEach ins p1 p2 chunks last)
    (map (fun payload =>
            {| cmd_ins := ins; cmd_p1 := p1; cmd_p2 := p2; cmd_data := payload |})
         chunks).
Proof.
  revert last.
  induction chunks as [| c rest IH]; intro last; simpl.
  - apply Follows_Ret.
  - change (?x :: ?l) with ([x] ++ l).
    apply Follows_bind; [apply Follows_send | intro; apply IH].
Qed.

Lemma Follows_sendData p1 sessionId payload :
  Follows (sendData SIGN_TX p1 sessionId payload ;; Ret tt)
    (map (command p1 sessionId) (Serialize.chunk payload MAX_DATA_LENGTH)).
Proof.
  rewrite <- (app_nil_r (map _ _)).
  apply Follows_bind; [apply Follows_sendEach | intro; apply Follows_Ret].
Qed.

(** A payload computed on the host, then the rest. *)
Lemma Follows_liftRes {A B} (r : Res A) (f : A -> Prog B) (plan : A -> list Apdu) :
  (forall a, r = inr a -> Follows (f a) (plan a)) ->
  Follows (bind (liftRes r) f)
          (match r with inr a => plan a | inl _ => [] end).
Proof.
  intro H. destruct r as [e | a]; simpl.
  - apply Follows_Throw.
  - now apply H.
Qed.

End Following.

(* ================================================================== *)
(** * The encoders *)

Section Encoders.
Context {platform : Platform}.

Lemma uint_fails width v : failsAsEncoder (Serialize.uint width v).
Proof.
  unfold Serialize.uint, failsAsEncoder.
  destruct (fitsUnsigned width v); intros e H; inversion H.
  exists IntegerOutOfRange. split; [reflexivity | discriminate].
Qed.

Lemma uint_value width v payload :
  Serialize.uint width v = inr payload ->
  payload = bigEndian width v /\ fitsUnsigned width v = true.
Proof.
  unfold Serialize.uint.
  destruct (fitsUnsigned width v); intro H; inversion H. auto.
Qed.

Lemma res_concat_fails parts :
  Forall failsAsEncoder parts -> failsAsEncoder (res_concat parts).
Proof.
  induction 1 as [| p rest Hp _ IH]; intros e He; simpl in He.
  - discriminate.
  - destruct p as [e1 | b]; simpl in He.
    + apply Hp. congruence.
    + destruct (res_concat rest) as [e2 | more]; simpl in He.
      * apply IH. congruence.
      * discriminate.
Qed.

Lemma res_map_fails {T A} (f : T -> Res A) items :
  (forall x, failsAsEncoder (f x)) -> failsAsEncoder (res_map f items).
Proof.
  intro Hf.
  induction items as [| x rest IH]; intros e He; simpl in He.
  - discriminate.
  - destruct (f x) as [e1 | a] eqn:Hx; simpl in He.
    + apply (Hf x). congruence.
    + destruct (res_map f rest) as [e2 | others]; simpl in He.
      * apply IH. congruence.
      * discriminate.
Qed.

Lemma array_fails {T} (data : list T) f :
  (forall x, failsAsEncoder (f x)) -> failsAsEncoder (Serialize.array data f).
Proof.
  intros Hf e He. unfold Serialize.array in He.
  destruct (res_map f data) as [e1 | encoded] eqn:Hm; simpl in He.
  - apply (res_map_fails f data Hf). congruence.
  - discriminate.
Qed.

Lemma arrayAndChunk_fails {T} (data : list T) maxSize f :
  (forall x, failsAsEncoder (f x)) ->
  failsAsEncoder (Serialize.arrayAndChunk data maxSize f).
Proof.
  intro Hf. unfold Serialize.arrayAndChunk.
  apply res_map_fails. intro batch. now apply array_fails.
Qed.

Lemma path_fails components : failsAsEncoder (Serialize.path components).
Proof.
  unfold Serialize.path. apply res_concat_fails.
  constructor; [apply uint_fails |].
  apply Forall_forall. intros r Hr.
  apply in_map_iff in Hr. destruct Hr as [v [<- _]]. apply uint_fails.
Qed.

Lemma bip32Path_fails p : failsAsEncoder (bip32Path p).
Proof.
  unfold bip32Path.
  destruct (pathToArray p); [apply path_fails |].
  intros e He. inversion He.
  exists InvalidPath. split; [reflexivity | discriminate].
Qed.

Lemma hex_fails s : failsAsEncoder (Serialize.hex s).
Proof.
  assert (H : failsAsEncoder (Serialize.hex s) /\
              forall c, failsAsEncoder (Serialize.hex (String c s))).
  { induction s as [| lo rest [IH1 IH2]].
    - split; intros; intros e He; simpl in He; inversion He.
      exists InvalidHexString. split; [reflexivity | discriminate].
    - split; [apply IH2 |].
      intros hi e He. simpl in He.
      destruct (hexValue hi), (hexValue lo);
        try (inversion He; exists InvalidHexString;
             split; [reflexivity | discriminate]).
      destruct (Serialize.hex rest) as [e1 | bytes] eqn:Hr; simpl in He.
      + apply IH1. congruence.
      + discriminate. }
  apply H.
Qed.

Lemma inr_fails {A} (a : A) : failsAsEncoder (@inr Err A a).
Proof. intros e He. discriminate. Qed.

End Encoders.

(* ================================================================== *)
(** * The steps of the first variant conform *)

Ltac encoder_side :=
  repeat first
    [ apply uint_fails | apply bip32Path_fails | apply hex_fails
    | apply inr_fails | apply path_fails
    | apply res_concat_fails; repeat constructor
    | apply arrayAndChunk_fails; intros
    | apply array_fails; intros
    | match goal with |- failsAsEncoder (if ?b then _ else _) => destruct b end ].

Ltac conforms_step :=
  first
    [ apply Conforms_Ret
    | apply Conforms_bind; [| intro]
    | apply Conforms_liftRes; encoder_side
    | apply Conforms_send; repeat split
    | apply Conforms_forEach; intros
    | apply Conforms_sendData; intros; repeat split
    | match goal with
      | |- Conforms _ _ _ (if ?b then _ else _) => destruct b
      | |- Conforms _ _ _ (match ?x with _ => _ end) => destruct x
      end ].

Ltac conforms := repeat conforms_step.

Section FirstVariantConforms.
Context {platform : Platform}.
Import SignTx.

Variable sessionId : option Z.

Lemma sendHeader_conforms path authToken :
  Conforms RETURN_CODE_OK
    (fun c => cmd_ins c = SIGN_TX /\ phase c = 1%nat) encoderError
    (sendHeader path authToken).
Proof. unfold sendHeader. conforms. Qed.

Lemma sendStartTx_conforms tx n :
  Conforms RETURN_CODE_OK (inPhase 2 sessionId) encoderError
    (sendStartTx sessionId tx n).
Proof. unfold sendStartTx. conforms. Qed.

Lemma sendDistinctTokensIds_conforms ids :
  Conforms RETURN_CODE_OK (inPhase 3 sessionId) encoderError
    (sendDistinctTokensIds sessionId ids).
Proof. unfold sendDistinctTokensIds. conforms. Qed.

Lemma sendInputs_conforms inputBoxes :
  Conforms RETURN_CODE_OK (inPhase 4 sessionId) encoderError
    (sendInputs sessionId inputBoxes).
Proof. unfold sendInputs, sendBoxContextExtension. conforms. Qed.

Lemma sendDataInputs_conforms boxIds :
  Conforms RETURN_CODE_OK (inPhase 5 sessionId) encoderError
    (sendDataInputs sessionId boxIds).
Proof. unfold sendDataInputs. conforms. Qed.

Lemma addOutputBoxErgoTree_conforms tree :
  Conforms RETURN_CODE_OK (inPhase 6 sessionId) encoderError
    (addOutputBoxErgoTree sessionId tree).
Proof. unfold addOutputBoxErgoTree. conforms. Qed.

Lemma addOutputBoxMinersFeeTree_conforms network :
  Conforms RETURN_CODE_OK (inPhase 6 sessionId) encoderError
    (addOutputBoxMinersFeeTree sessionId network).
Proof. unfold addOutputBoxMinersFeeTree. conforms. Qed.

Lemma addOutputBoxChangeTree_conforms path :
  Conforms RETURN_CODE_OK (inPhase 6 sessionId) (fun _ => True)
    (addOutputBoxChangeTree sessionId path).
Proof.
  unfold addOutputBoxChangeTree.
  destruct (falsyString path); [now constructor |].
  apply Conforms_mono with (C := inPhase 6 sessionId) (E := encoderError); auto.
  conforms.
Qed.

Lemma addOutputBoxTokens_conforms tokens table :
  Conforms RETURN_CODE_OK (inPhase 6 sessionId) encoderError
    (addOutputBoxTokens sessionId tokens table).
Proof. unfold addOutputBoxTokens. conforms. Qed.

Lemma addOutputBoxRegisters_conforms registers :
  Conforms RETURN_CODE_OK (inPhase 6 sessionId) encoderError
    (addOutputBoxRegisters sessionId registers).
Proof. unfold addOutputBoxRegisters. conforms. Qed.

Lemma sendOutputBox_conforms changeMap table network box :
  Conforms RETURN_CODE_OK (inPhase 6 sessionId) (fun _ => True)
    (sendOutputBox sessionId changeMap table network box).
Proof.
  unfold sendOutputBox.
  apply Conforms_bind.
  { apply Conforms_liftRes. intros e He.
    assert (Hf : failsAsEncoder (A := Buffer) (inl e))
      by (rewrite <- He; encoder_side).
    destruct (Hf e eq_refl) as [m [-> _]]. eauto. }
  intro header.
  apply Conforms_bind; [conforms |]. intros _.
  apply Conforms_bind.
  { destruct (_ || _)%bool.
    - eapply Conforms_mono; [| | apply addOutputBoxMinersFeeTree_conforms]; auto.
    - destruct (String.eqb _ _).
      + apply addOutputBoxChangeTree_conforms.
      + eapply Conforms_mono; [| | apply addOutputBoxErgoTree_conforms]; auto. }
  intros _.
  apply Conforms_bind.
  { destruct (0 <? _)%nat; [| constructor].
    eapply Conforms_mono; [| | apply addOutputBoxTokens_conforms]; auto. }
  intros _.
  destruct (0 <? _)%nat; [| constructor].
  eapply Conforms_mono; [| | apply addOutputBoxRegisters_conforms]; auto.
Qed.

Lemma sendOutputs_conforms boxes changeMap ids network :
  Conforms RETURN_CODE_OK (inPhase 6 sessionId) (fun _ => True)
    (sendOutputs sessionId boxes changeMap ids network).
Proof.
  unfold sendOutputs. apply Conforms_forEach. intros box _.
  apply sendOutputBox_conforms.
Qed.

Lemma sendConfirmAndSign_conforms :
  Conforms RETURN_CODE_OK (inPhase 7 sessionId) encoderError
    (sendConfirmAndSign sessionId).
Proof. unfold sendConfirmAndSign. conforms. Qed.

End FirstVariantConforms.

(* ================================================================== *)
(** * Single commands and staged runs *)

Section Commands.
Context {platform : Platform}.
Import DeviceChannel.

Lemma run_send dev ins p1 p2 payload log :
  run dev (send ins p1 p2 payload) log =
  let c := {| cmd_ins := ins; cmd_p1 := p1; cmd_p2 := p2; cmd_data := payload |} in
  let response := dev log c in
  (if (returnCode response =? RETURN_CODE_OK)%Z then inr response
   else inl (DeviceRejection (returnCode response)), [c]).
Proof.
  with_strategy transparent [send] unfold send. simpl.
  now destruct (returnCode _ =? RETURN_CODE_OK)%Z.
Qed.

(** A step that encodes a payload, sends it in one command and returns
    something read from the response. *)
Lemma run_encode_send {A} dev (r : Res Buffer) ins p1 p2
    (g : DeviceResponse -> A) log :
  run dev (payload <- liftRes r ;;
           response <- send ins p1 p2 payload ;;
           Ret (g response)) log =
  match r with
  | inl e => (inl e, [])
  | inr payload =>
      let c := {| cmd_ins := ins; cmd_p1 := p1; cmd_p2 := p2; cmd_data := payload |} in
      let response := dev log c in
      (if (returnCode response =? RETURN_CODE_OK)%Z then inr (g response)
       else inl (DeviceRejection (returnCode response)), [c])
  end.
Proof.
  destruct r as [e | payload]; simpl; [reflexivity |].
  rewrite run_bind, run_send. simpl.
  now destruct (returnCode _ =? RETURN_CODE_OK)%Z.
Qed.

Lemma run_send_then {A} dev ins p1 p2 payload (g : DeviceResponse -> A) log :
  run dev (response <- send ins p1 p2 payload ;; Ret (g response)) log =
  let c := {| cmd_ins := ins; cmd_p1 := p1; cmd_p2 := p2; cmd_data := payload |} in
  let response := dev log c in
  (if (returnCode response =? RETURN_CODE_OK)%Z then inr (g response)
   else inl (DeviceRejection (returnCode response)), [c]).
Proof.
  rewrite run_bind, run_send. simpl.
  now destruct (returnCode _ =? RETURN_CODE_OK)%Z.
Qed.

Lemma staged_nil stages :
  Forall (fun stage : list Apdu -> Prop => stage []) stages -> staged stages [].
Proof.
  induction 1 as [| stage later H _ IH]; simpl; [reflexivity |].
  exists [], []. auto.
Qed.

Lemma staged_bind {A B} dev (p : Prog A) (f : A -> Prog B)
    (stage : list Apdu -> Prop) later :
  (forall log, stage (snd (run dev p log))) ->
  (forall a log, staged later (snd (run dev (f a) log))) ->
  Forall (fun s : list Apdu -> Prop => s []) later ->
  forall log, staged (stage :: later) (snd (run dev (bind p f) log)).
Proof.
  intros Hp Hf Hnil log.
  rewrite run_bind.
  specialize (Hp log).
  destruct (run dev p log) as [[e | a] cs]; simpl in *.
  - exists cs, []. rewrite app_nil_r. auto using staged_nil.
  - specialize (Hf a (log ++ cs)).
    destruct (run dev (f a) (log ++ cs)) as [r cs2]; simpl in *.
    exists cs, cs2. auto.
Qed.

Lemma staged_last {A} dev (p : Prog A) (stage : list Apdu -> Prop) :
  (forall log, stage (snd (run dev p log))) ->
  forall log, staged [stage] (snd (run dev p log)).
Proof.
  intros Hp log. simpl.
  exists (snd (run dev p log)), []. rewrite app_nil_r. auto.
Qed.

(** A run that ended otherwise than by the rejection of its last command
    never saw a rejection. *)
Lemma outcome_abort {A} dev log E (r : Res A) cs pre c post :
  outcome RETURN_CODE_OK dev log E r cs ->
  cs = pre ++ c :: post ->
  returnCode (dev (log ++ pre) c) <> RETURN_CODE_OK ->
  post = [] /\ r = inl (DeviceRejection (returnCode (dev (log ++ pre) c))).
Proof.
  intros Hout -> Hrej.
  destruct r as [[m | code] | a]; simpl in Hout.
  - destruct Hout as [_ Hacc]. now apply accepted_split in Hacc.
  - destruct Hout as (cs' & c' & Heq & Hacc & Hcode & _).
    destruct (exists_last (l := c :: post)) as (post' & x & Hlast);
      [discriminate |].
    rewrite Hlast, app_assoc in Heq.
    apply app_inj_tail in Heq. destruct Heq as [<- <-].
    destruct post' as [| y post'].
    + simpl in Hlast. inversion Hlast; subst.
      now rewrite app_nil_r.
    + simpl in Hlast. inversion Hlast; subst.
      now apply accepted_split in Hacc.
  - now apply accepted_split in Hout.
Qed.

End Commands.

(* ================================================================== *)
(** * The session: scoping, order, abort *)

Section Session.
Context {platform : Platform}.
Import SignTx.

(** Everything [signTx] does once it has the session id. *)
Lemma afterHeader_conforms tx network sessionId :
  Conforms RETURN_CODE_OK
    (fun c => cmd_ins c = SIGN_TX /\ cmd_p2 c = sessionId) (fun _ => True)
    (sendStartTx sessionId tx (Z.of_nat (length (distinctTokenIds tx))) ;;
     sendDistinctTokensIds sessionId (distinctTokenIds tx) ;;
     sendInputs sessionId (inputs tx) ;;
     sendDataInputs sessionId (dataInputs tx) ;;
     sendOutputs sessionId (outputs tx) (changeMap tx) (distinctTokenIds tx) network ;;
     signBytes <- sendConfirmAndSign sessionId ;;
     Ret signBytes).
Proof.
  assert (HC : forall n c, inPhase n sessionId c ->
                           cmd_ins c = SIGN_TX /\ cmd_p2 c = sessionId)
    by (unfold inPhase; tauto).
  apply Conforms_bind;
    [eapply Conforms_mono; [apply HC | | apply sendStartTx_conforms]; auto
    | intros _].
  apply Conforms_bind;
    [eapply Conforms_mono; [apply HC | | apply sendDistinctTokensIds_conforms]; auto
    | intros _].
  apply Conforms_bind;
    [eapply Conforms_mono; [apply HC | | apply sendInputs_conforms]; auto
    | intros _].
  apply Conforms_bind;
    [eapply Conforms_mono; [apply HC | | apply sendDataInputs_conforms]; auto
    | intros _].
  apply Conforms_bind;
    [eapply Conforms_mono; [apply HC | | apply sendOutputs_conforms]; auto
    | intros _].
  apply Conforms_bind;
    [eapply Conforms_mono; [apply HC | | apply sendConfirmAndSign_conforms]; auto
    | intro; apply Conforms_Ret].
Qed.


(** C6.  The session id is the first byte of the response to the
    start-signing command, and every command sent after it in the same run
    of [signTx], whatever its kind, carries that same value as its P2. *)
Theorem session_id_scopes_every_later_command
    dev tx signPath network authToken hdr later :
  trace dev (signTx tx signPath network authToken) = hdr :: later ->
  cmd_p1 hdr = P1.START_SIGNING /\
  Forall (fun c => cmd_p2 c = firstByte (dev [] hdr)) later.
Proof.
  unfold trace, signTx. rewrite run_bind.
  unfold sendHeader at 1. rewrite run_encode_send.
  destruct (res_concat _) as [e | payload]; [discriminate |].
  cbv zeta.
  set (c := {| cmd_ins := SIGN_TX; cmd_p1 := P1.START_SIGNING;
               cmd_p2 := _; cmd_data := payload |}).
  destruct (returnCode (dev [] c) =? RETURN_CODE_OK)%Z.
  - pose proof (Conforms_run (afterHeader_conforms tx network (firstByte (dev [] c)))
                  dev ([] ++ [c])) as [HF _].
    destruct (run dev _ ([] ++ [c])) as [r cs]. simpl in *.
    intro H. inversion H; subst. split; [reflexivity |].
    eapply Forall_impl; [| exact HF]. simpl. tauto.
  - simpl. intro H. inversion H; subst. split; [reflexivity | constructor].
Qed.

Lemma oneOfPhase_nil n : oneOfPhase n [].
Proof. split; [constructor | simpl; lia]. Qed.

Lemma allOfPhase_nil n : allOfPhase n [].
Proof. constructor. Qed.

Lemma allOfPhase_run {A} n sessionId E (p : Prog A) dev log :
  Conforms RETURN_CODE_OK (inPhase n sessionId) E p ->
  allOfPhase n (snd (run dev p log)).
Proof.
  intro H. destruct (Conforms_run H dev log) as [HF _].
  eapply Forall_impl; [| exact HF]. unfold inPhase. tauto.
Qed.

Lemma oneOfPhase_encode_send {A} n dev (r : Res Buffer) p1 p2
    (g : DeviceResponse -> A) log :
  phase (command p1 p2 []) = n ->
  oneOfPhase n (snd (run dev (payload <- liftRes r ;;
                              response <- DeviceChannel.send SIGN_TX p1 p2 payload ;;
                              Ret (g response)) log)).
Proof.
  intro Hn. rewrite run_encode_send.
  destruct r as [e | payload]; simpl; [apply oneOfPhase_nil |].
  split; [| simpl; lia]. now repeat constructor.
Qed.


End Session.

Section Order.
Context {platform : Platform}.
Import SignTx.

Lemma encode_send_returns {A} dev (r : Res Buffer) p1 p2
    (g : DeviceResponse -> A) log a cs :
  run dev (payload <- liftRes r ;;
           response <- DeviceChannel.send SIGN_TX p1 p2 payload ;;
           Ret (g response)) log = (inr a, cs) ->
  exists payload,
    r = inr payload /\ cs = [command p1 p2 payload] /\
    a = g (dev log (command p1 p2 payload)).
Proof.
  rewrite run_encode_send.
  destruct r as [e | payload]; [discriminate |]. cbv zeta.
  destruct (returnCode _ =? RETURN_CODE_OK)%Z; intro H; inversion H.
  exists payload. auto.
Qed.



End Order.

(* ================================================================== *)
(** * Chunking *)

Section Chunking.
Variable T : Type.

Lemma ceilDiv_bounds len n :
  (0 < n)%nat ->
  (len <= Serialize.ceilDiv len n * n)%nat /\
  (0 < len -> 0 < Serialize.ceilDiv len n /\
              (Serialize.ceilDiv len n - 1) * n < len)%nat.
Proof.
  intro Hn. unfold Serialize.ceilDiv.
  pose proof (Nat.div_mod_eq (len + (n - 1)) n) as Hdm.
  pose proof (Nat.mod_upper_bound (len + (n - 1)) n) as Hlt.
  set (q := ((len + (n - 1)) / n)%nat) in *.
  set (m := ((len + (n - 1)) mod n)%nat) in *.
  assert (Hm : (m < n)%nat) by (apply Hlt; lia).
  split; [nia |].
  intro Hlen.
  assert (Hq : (0 < q)%nat) by (destruct q; [lia | lia]).
  split; [exact Hq |].
  destruct q as [| q']; [lia |]. simpl. rewrite Nat.sub_0_r. nia.
Qed.

Lemma batches_concat n k (l : list T) :
  concat (Serialize.batches n k l) = firstn (k * n) l.
Proof.
  revert l.
  induction k as [| k IH]; intro l; simpl; [reflexivity |].
  rewrite IH, firstn_skipn_comm.
  replace (firstn n l) with (firstn n (firstn (n + k * n) l)).
  - apply firstn_skipn.
  - rewrite firstn_firstn. f_equal. lia.
Qed.

Lemma batches_bound n k (l : list T) :
  Forall (fun b => (length b <= n)%nat) (Serialize.batches n k l).
Proof.
  revert l.
  induction k as [| k IH]; intro l; simpl; constructor; auto.
  rewrite length_firstn. lia.
Qed.

Lemma batches_inhabited n k (l : list T) :
  (0 < n)%nat -> (k = 0 \/ (k - 1) * n < length l)%nat ->
  Forall (fun b => b <> []) (Serialize.batches n k l).
Proof.
  intro Hn. revert l.
  induction k as [| k IH]; intros l Hk; simpl; constructor.
  - destruct Hk as [Hk | Hk]; [discriminate |].
    destruct l as [| x l]; [simpl in Hk; lia |].
    destruct n; [lia | discriminate].
  - apply IH. destruct Hk as [Hk | Hk]; [discriminate |].
    destruct k as [| k']; [now left | right].
    rewrite length_skipn. simpl in *. rewrite Nat.sub_0_r in *. nia.
Qed.

(** The batches of a list are the list, cut: they concatenate to it, none
    is empty and none has more than [maxSize] items. *)
Lemma chunk_spec (data : list T) maxSize :
  (0 < maxSize)%nat ->
  concat (Serialize.chunk data maxSize) = data /\
  Forall (fun b => b <> [] /\ (length b <= maxSize)%nat)
         (Serialize.chunk data maxSize).
Proof.
  intro Hn. unfold Serialize.chunk.
  destruct (ceilDiv_bounds (length data) Hn) as [Hup Hlow].
  split.
  - rewrite batches_concat. now apply firstn_all2.
  - apply Forall_and; [| apply batches_bound].
    apply batches_inhabited; [exact Hn |].
    destruct data as [| x data]; [left | right].
    + unfold Serialize.ceilDiv. simpl. apply Nat.div_small. lia.
    + apply Hlow. simpl. lia.
Qed.

Lemma chunk_nil maxSize : Serialize.chunk (@nil T) maxSize = [].
Proof.
  unfold Serialize.chunk, Serialize.ceilDiv.
  destruct maxSize as [| n]; [reflexivity |].
  change (length (@nil T)) with 0%nat.
  now rewrite Nat.div_small by lia.
Qed.

Lemma chunk_inhabited (data : list T) maxSize :
  (0 < maxSize)%nat -> data <> [] -> Serialize.chunk data maxSize <> [].
Proof.
  intros Hn Hdata Hnil.
  destruct (chunk_spec data Hn) as [Hcat _].
  rewrite Hnil in Hcat. simpl in Hcat. congruence.
Qed.

End Chunking.

(* ================================================================== *)
(** * Inputs and count-bounded lists *)

Section Lists.
Context {platform : Platform}.
Import DeviceChannel.

Lemma Follows_forEach_send {T} (items : list T) p1 sessionId (g : T -> Buffer) :
  Follows (forEach items (fun x => send SIGN_TX p1 sessionId (g x) ;; Ret tt))
          (map (fun x => command p1 sessionId (g x)) items).
Proof.
  induction items as [| x rest IH]; simpl.
  - apply Follows_Ret.
  - change (command p1 sessionId (g x) :: ?l)
      with ([command p1 sessionId (g x)] ++ l).
    apply Follows_bind; [| intro; exact IH].
    apply Follows_step, Follows_send.
Qed.

Lemma inputBody_follows sessionId (box : AttestedBox) :
  Follows
    (forEach (frames box) (fun frame =>
       send SIGN_TX P1.ADD_INPUT_BOX_FRAME sessionId (buffer frame) ;; Ret tt) ;;
     match extension box with
     | Some ext =>
         if (0 <? length ext)%nat
         then sendData SIGN_TX P1.ADD_INPUT_BOX_CONTEXT_EXTENSION_CHUNK
                sessionId ext ;; Ret tt
         else Ret tt
     | None => Ret tt
     end)
    (inputCommands sessionId box).
Proof.
  unfold inputCommands.
  apply Follows_bind; [apply Follows_forEach_send | intros _].
  unfold extensionCommands.
  destruct (extension box) as [ext |]; [| apply Follows_Ret].
  destruct ext as [| b ext]; simpl.
  - rewrite chunk_nil. apply Follows_Ret.
  - apply Follows_sendData.
Qed.

(** C10.  In both variants [sendInputs] sends, for each attested input in
    turn, its frames in order and then its context extension in slices; the
    extension contributes no command when it is undefined and none when it
    is present with zero bytes, and at least one when it has bytes. *)
Theorem inputs_frames_then_extension sessionId (inputBoxes : list AttestedBox) :
  Follows (SignTx.sendInputs sessionId inputBoxes)
          (flat_map (inputCommands sessionId) inputBoxes) /\
  Follows (SignTx2.sendInputs sessionId inputBoxes)
          (flat_map (inputCommands sessionId) inputBoxes) /\
  (forall box : AttestedBox,
     extension box = None \/ extension box = Some [] ->
     inputCommands sessionId box =
     map (fun frame => command P1.ADD_INPUT_BOX_FRAME sessionId (buffer frame))
         (frames box)) /\
  (forall (box : AttestedBox) ext,
     (0 < MAX_DATA_LENGTH)%nat -> extension box = Some ext -> ext <> [] ->
     exists c cs,
       extensionCommands sessionId (extension box) = c :: cs /\
       Forall (fun c => cmd_p1 c = P1.ADD_INPUT_BOX_CONTEXT_EXTENSION_CHUNK)
              (c :: cs) /\
       concat (map cmd_data (c :: cs)) = ext).
Proof.
  split; [| split; [| split]].
  - unfold SignTx.sendInputs, SignTx.sendBoxContextExtension.
    apply Follows_forEach. intro box. apply inputBody_follows.
  - unfold SignTx2.sendInputs, SignTx2.sendBoxContextExtension.
    apply Follows_forEach. intro box. apply inputBody_follows.
  - intros box H. unfold inputCommands, extensionCommands.
    destruct H as [-> | ->]; [| rewrite chunk_nil]; apply app_nil_r.
  - intros box ext Hmax -> Hext. unfold extensionCommands.
    destruct (chunk_spec ext Hmax) as [Hcat _].
    pose proof (chunk_inhabited Hmax Hext) as Hne.
    destruct (Serialize.chunk ext MAX_DATA_LENGTH) as [| s rest] eqn:Hchunk;
      [congruence |].
    exists (command P1.ADD_INPUT_BOX_CONTEXT_EXTENSION_CHUNK sessionId s),
           (map (command P1.ADD_INPUT_BOX_CONTEXT_EXTENSION_CHUNK sessionId) rest).
    split; [reflexivity |]. split.
    + constructor; [reflexivity |].
      apply Forall_map, Forall_forall. reflexivity.
    + simpl. rewrite map_map. simpl. now rewrite map_id.
Qed.

Lemma res_map_app {T A} (f : T -> Res A) (a b : list T) :
  res_map f (a ++ b) =
  res_bind (res_map f a) (fun x =>
  res_bind (res_map f b) (fun y => inr (x ++ y))).
Proof.
  induction a as [| h a IH]; simpl.
  - now destruct (res_map f b).
  - destruct (f h) as [e | v]; simpl; [reflexivity |].
    rewrite IH.
    destruct (res_map f a) as [e | x]; simpl; [reflexivity |].
    now destruct (res_map f b).
Qed.

(** The packets of a list of batches. *)
Lemma packets_of_batches {T} (f : T -> Res Buffer) batches packets :
  res_map (fun batch => Serialize.array batch f) batches = inr packets ->
  Forall2 (fun batch packet => Serialize.array batch f = inr packet)
          batches packets /\
  Serialize.array (concat batches) f = inr (concat packets).
Proof.
  revert packets.
  induction batches as [| b rest IH]; intros packets H; simpl in H.
  - inversion H. split; [constructor | reflexivity].
  - destruct (Serialize.array b f) as [e | packet] eqn:Hb; [discriminate |].
    simpl in H.
    destruct (res_map _ rest) as [e | others] eqn:Hrest; [discriminate |].
    inversion H; subst.
    destruct (IH others eq_refl) as [HF Hcat].
    split; [now constructor |].
    simpl. unfold Serialize.array in *.
    rewrite res_map_app.
    destruct (res_map f b) as [e | xb]; [discriminate |].
    destruct (res_map f (concat rest)) as [e | xr]; [discriminate |].
    simpl in *. inversion Hb. inversion Hcat.
    now rewrite concat_app.
Qed.

Lemma arrayAndChunk_total (ids : list Buffer) maxSize :
  (0 < maxSize)%nat ->
  exists packets,
    Serialize.arrayAndChunk ids maxSize (fun id => inr id) = inr packets /\
    concat packets = concat ids.
Proof.
  intro Hn.
  assert (Harr : forall l : list Buffer,
             Serialize.array l (fun id => inr id) = inr (concat l)).
  { intro l. unfold Serialize.array.
    assert (Hm : res_map (fun id : Buffer => @inr Err Buffer id) l = inr l).
    { induction l as [| x l IH]; simpl; [reflexivity | now rewrite IH]. }
    now rewrite Hm. }
  unfold Serialize.arrayAndChunk.
  destruct (chunk_spec ids Hn) as [Hcat _].
  assert (Hm : forall bs : list (list Buffer),
             res_map (fun batch => Serialize.array batch (fun id => inr id)) bs
             = inr (map (@concat byte) bs)).
  { induction bs as [| b bs IH]; simpl; [reflexivity |].
    now rewrite Harr, IH. }
  rewrite Hm. eexists. split; [reflexivity |].
  assert (Hcc : forall bs : list (list Buffer),
             concat (map (@concat byte) bs) = concat (concat bs)).
  { induction bs as [| b bs IH]; simpl;
      [reflexivity | now rewrite concat_app, IH]. }
  now rewrite Hcc, Hcat.
Qed.

End Lists.

Section CountBounded.
Context {platform : Platform}.

(** C5.  The count-bounded packetizer with the constant 7: the packets it
    returns are the encodings of consecutive, non-empty batches of at most
    7 whole items each, so that the packets concatenated are the encoded
    items concatenated, in order, and no item lies across two packets; the
    empty list gives no packet.  The two steps that use it, for the
    distinct token ids and for the data-input ids, send one command per
    packet, in order, and for an empty list they return without a command. *)
Theorem count_bounded_packets :
  (forall (T : Type) (f : T -> Res Buffer) (items : list T) packets,
     Serialize.arrayAndChunk items 7 f = inr packets ->
     exists batches,
       concat batches = items /\
       Forall (fun b => b <> [] /\ (length b <= 7)%nat) batches /\
       Forall2 (fun batch packet => Serialize.array batch f = inr packet)
               batches packets /\
       Serialize.array items f = inr (concat packets)) /\
  (forall (T : Type) (f : T -> Res Buffer),
     Serialize.arrayAndChunk (@nil T) 7 f = inr []) /\
  (forall ids : list Buffer,
     exists packets,
       Serialize.arrayAndChunk ids 7 (fun id => inr id) = inr packets /\
       concat packets = concat ids) /\
  (forall sessionId ids packets,
     Serialize.arrayAndChunk ids 7 (fun id => inr id) = inr packets ->
     Follows (SignTx.sendDistinctTokensIds sessionId ids)
             (map (command P1.ADD_TOKEN_IDS sessionId) packets)) /\
  (forall sessionId boxIds packets,
     Serialize.arrayAndChunk boxIds 7 (fun id => Serialize.hex id) = inr packets ->
     Follows (SignTx.sendDataInputs sessionId boxIds)
             (map (command P1.ADD_DATA_INPUTS sessionId) packets)) /\
  (forall dev log sessionId,
     run dev (SignTx.sendDistinctTokensIds sessionId []) log = (inr tt, []) /\
     run dev (SignTx.sendDataInputs sessionId []) log = (inr tt, [])).
Proof.
  assert (Hnil : forall (T : Type) (f : T -> Res Buffer),
             Serialize.arrayAndChunk (@nil T) 7 f = inr []).
  { intros T f. unfold Serialize.arrayAndChunk. now rewrite chunk_nil. }
  split; [| split; [exact Hnil | split; [| split; [| split]]]].
  - intros T f items packets H.
    unfold Serialize.arrayAndChunk in H.
    destruct (@chunk_spec T items 7) as [Hcat Hall]; [lia |].
    exists (Serialize.chunk items 7).
    destruct (packets_of_batches f _ H) as [HF Harr].
    rewrite Hcat in Harr. auto.
  - intro ids. apply arrayAndChunk_total. lia.
  - intros sessionId ids packets H.
    unfold SignTx.sendDistinctTokensIds, SignTx.MAX_PACKET_SIZE.
    destruct ids as [| x ids]; simpl (length _ =? 0)%nat; cbv iota.
    + rewrite Hnil in H. inversion H. apply Follows_Ret.
    + rewrite H. simpl liftRes. cbn [bind]. apply Follows_forEach_send.
  - intros sessionId boxIds packets H.
    unfold SignTx.sendDataInputs, SignTx.MAX_PACKET_SIZE.
    rewrite H. simpl liftRes. cbn [bind]. apply Follows_forEach_send.
  - intros dev log sessionId. split; [reflexivity |].
    unfold SignTx.sendDataInputs, SignTx.MAX_PACKET_SIZE.
    now rewrite Hnil.
Qed.

End CountBounded.

(* ================================================================== *)
(** * Outputs *)

Section Outputs.
Context {platform : Platform}.
Import DeviceChannel.

Lemma fee_follows sessionId network :
  Follows (SignTx.addOutputBoxMinersFeeTree sessionId network)
          (feeTreeCommands sessionId [byteOfZ network]).
Proof. apply Follows_step, Follows_send. Qed.

Lemma fee2_follows sessionId :
  Follows (SignTx2.addOutputBoxMinersFeeTree sessionId)
          (feeTreeCommands sessionId []).
Proof. apply Follows_step, Follows_send. Qed.

Lemma changePath_follows sessionId p :
  Follows (payload <- liftRes (bip32Path p) ;;
           send SIGN_TX P1.ADD_OUTPUT_BOX_CHANGE_TREE sessionId payload ;;
           Ret tt)
          (changePathCommands sessionId p).
Proof.
  unfold changePathCommands.
  apply Follows_liftRes with
    (plan := fun payload => [command P1.ADD_OUTPUT_BOX_CHANGE_TREE sessionId payload]).
  intros payload _. apply Follows_step, Follows_send.
Qed.

Lemma change_follows sessionId p :
  Follows (SignTx.addOutputBoxChangeTree sessionId p)
          (changeTreeCommands sessionId p).
Proof.
  unfold SignTx.addOutputBoxChangeTree, changeTreeCommands.
  destruct (falsyString p); [apply Follows_Throw | apply changePath_follows].
Qed.

Lemma ergo_follows sessionId box :
  Follows (SignTx.addOutputBoxErgoTree sessionId (ergoTree box))
          (ergoTreeCommands sessionId box).
Proof. apply Follows_sendData. Qed.

Lemma tokens_follows sessionId table box :
  Follows (if (0 <? length (tokens box))%nat
           then SignTx.addOutputBoxTokens sessionId (tokens box) table
           else Ret tt)
          (tokenCommands sessionId table box).
Proof.
  unfold tokenCommands, SignTx.addOutputBoxTokens.
  destruct (0 <? length (tokens box))%nat; [| apply Follows_Ret].
  apply Follows_liftRes with
    (plan := fun payload => [command P1.ADD_OUTPUT_BOX_TOKENS sessionId payload]).
  intros payload _. apply Follows_step, Follows_send.
Qed.

Lemma registers_follows sessionId box :
  Follows (if (0 <? length (registers box))%nat
           then SignTx.addOutputBoxRegisters sessionId (registers box)
           else Ret tt)
          (registerCommands sessionId box).
Proof.
  unfold registerCommands.
  destruct (0 <? length (registers box))%nat; [| apply Follows_Ret].
  apply Follows_sendData.
Qed.

Lemma tree_follows sessionId changeMap network box :
  Follows
    (if String.eqb (Deserialize.hex (ergoTree box)) SignTx.MAINNET_MINER_FEE_TREE
        || String.eqb (Deserialize.hex (ergoTree box)) SignTx.TESTNET_FEE_TREE
     then SignTx.addOutputBoxMinersFeeTree sessionId network
     else if String.eqb (addressFromErgoTree (Deserialize.hex (ergoTree box)))
                        (address changeMap)
     then SignTx.addOutputBoxChangeTree sessionId (path changeMap)
     else SignTx.addOutputBoxErgoTree sessionId (ergoTree box))
    (treeCommands sessionId changeMap network box).
Proof.
  unfold treeCommands. cbv zeta.
  destruct (_ || _)%bool; [apply fee_follows |].
  destruct (String.eqb _ _); [apply change_follows | apply ergo_follows].
Qed.

Lemma tree2_follows sessionId changeMap box :
  Follows
    (if String.eqb (Deserialize.hex (ergoTree box)) SignTx2.MINER_FEE_TREE
     then SignTx2.addOutputBoxMinersFeeTree sessionId
     else if String.eqb (addressFromErgoTree (Deserialize.hex (ergoTree box)))
                        (SignTx2.address changeMap)
     then SignTx2.addOutputBoxChangeTree sessionId (SignTx2.path changeMap)
     else SignTx2.addOutputBoxErgoTree sessionId (ergoTree box))
    (treeCommands2 sessionId changeMap box).
Proof.
  unfold treeCommands2. cbv zeta.
  destruct (String.eqb _ SignTx2.MINER_FEE_TREE); [apply fee2_follows |].
  destruct (String.eqb _ _); [apply changePath_follows | apply ergo_follows].
Qed.

(** The body of the loop of [sendOutputs] sends the commands of the
    output, in order. *)
Lemma sendOutputBox_follows sessionId changeMap table network box :
  Follows (SignTx.sendOutputBox sessionId changeMap table network box)
          (outputCommands sessionId changeMap table network box).
Proof.
  unfold SignTx.sendOutputBox, outputCommands, startCommands, outputHeader.
  apply Follows_liftRes with
    (plan := fun header =>
       command P1.ADD_OUTPUT_BOX_START sessionId header
       :: treeCommands sessionId changeMap network box
          ++ tokenCommands sessionId table box
          ++ registerCommands sessionId box).
  intros header _.
  change (?c :: ?l) with ([c] ++ l).
  apply Follows_bind; [apply Follows_send | intros _]. cbv zeta.
  apply Follows_bind; [apply tree_follows | intros _].
  apply Follows_bind; [apply tokens_follows | intros _].
  apply registers_follows.
Qed.

Lemma sendOutputBox2_follows sessionId changeMap table box :
  Follows (SignTx2.sendOutputBox sessionId changeMap table box)
          (outputCommands2 sessionId changeMap table box).
Proof.
  unfold SignTx2.sendOutputBox, outputCommands2, startCommands, outputHeader.
  apply Follows_liftRes with
    (plan := fun header =>
       command P1.ADD_OUTPUT_BOX_START sessionId header
       :: treeCommands2 sessionId changeMap box
          ++ tokenCommands sessionId table box
          ++ registerCommands sessionId box).
  intros header _.
  change (?c :: ?l) with ([c] ++ l).
  apply Follows_bind; [apply Follows_send | intros _]. cbv zeta.
  apply Follows_bind; [apply tree2_follows | intros _].
  apply Follows_bind; [apply tokens_follows | intros _].
  apply registers_follows.
Qed.

Lemma sendOutputs_follows sessionId boxes changeMap ids network :
  Follows (SignTx.sendOutputs sessionId boxes changeMap ids network)
    (flat_map (outputCommands sessionId changeMap (map Deserialize.hex ids) network)
              boxes).
Proof.
  unfold SignTx.sendOutputs. cbv zeta.
  apply Follows_forEach. intro box. apply sendOutputBox_follows.
Qed.

Lemma sendOutputs2_follows sessionId boxes changeMap ids :
  Follows (SignTx2.sendOutputs sessionId boxes changeMap ids)
    (flat_map (outputCommands2 sessionId changeMap (map Deserialize.hex ids))
              boxes).
Proof.
  unfold SignTx2.sendOutputs. cbv zeta.
  apply Follows_forEach. intro box. apply sendOutputBox2_follows.
Qed.

End Outputs.

Section Classification.
Context {platform : Platform}.
Import DeviceChannel.

Lemma Follows_returns {A} (p : Prog A) plan dev log a cs :
  Follows p plan -> run dev p log = (inr a, cs) -> cs = plan.
Proof.
  intros H Hrun. destruct (H dev log) as [_ Hall].
  rewrite Hrun in Hall. simpl in Hall. eauto.
Qed.

Lemma Follows_sends {A} (p : Prog A) plan dev log r cs (P : Apdu -> Prop) :
  Follows p plan -> Forall P plan -> run dev p log = (r, cs) -> Forall P cs.
Proof.
  intros H HP Hrun. destruct (H dev log) as [Hpre _].
  rewrite Hrun in Hpre. simpl in Hpre. eapply prefix_Forall; eauto.
Qed.

Lemma isFeeScript_eqb box :
  (String.eqb (Deserialize.hex (ergoTree box)) SignTx.MAINNET_MINER_FEE_TREE
   || String.eqb (Deserialize.hex (ergoTree box)) SignTx.TESTNET_FEE_TREE)%bool
  = true <-> isFeeScript box.
Proof.
  unfold isFeeScript. now rewrite orb_true_iff, !String.eqb_eq.
Qed.

Lemma false_not (b : bool) (P : Prop) : (b = true <-> P) -> b = false -> ~ P.
Proof. destruct b; intuition; discriminate. Qed.

Lemma tokenCommands_after sessionId table box :
  Forall afterTreeCommand (tokenCommands sessionId table box).
Proof.
  unfold tokenCommands.
  destruct (0 <? _)%nat; [| constructor].
  destruct (Serialize.array _ _); repeat constructor.
Qed.

Lemma registerCommands_after sessionId box :
  Forall afterTreeCommand (registerCommands sessionId box).
Proof.
  unfold registerCommands.
  destruct (0 <? _)%nat; [| constructor].
  apply Forall_map, Forall_forall. intros slice _. now right.
Qed.

Lemma changePathCommands_inv sessionId p c :
  In c (changePathCommands sessionId p) ->
  cmd_p1 c = P1.ADD_OUTPUT_BOX_CHANGE_TREE /\ bip32Path p = inr (cmd_data c).
Proof.
  unfold changePathCommands.
  destruct (bip32Path p) as [e | payload]; simpl; [tauto |].
  intros [<- | []]. auto.
Qed.

Lemma treeCommands_policy sessionId changeMap network box :
  Forall (treePolicy changeMap network box)
         (treeCommands sessionId changeMap network box).
Proof.
  unfold treeCommands. cbv zeta.
  pose proof (isFeeScript_eqb box) as Hfee.
  destruct (_ || _)%bool eqn:Hb.
  - constructor; [| constructor].
    unfold treePolicy. simpl.
    split; [intros _; split; [now apply Hfee | reflexivity] |].
    split; intro H; discriminate H.
  - pose proof (false_not Hfee eq_refl) as Hnot.
    destruct (String.eqb _ (address changeMap)) eqn:Ha.
    + apply String.eqb_eq in Ha.
      unfold changeTreeCommands.
      destruct (path changeMap) as [[| ch s] |] eqn:Hp; simpl; try constructor.
      apply Forall_forall. intros c Hc.
      apply changePathCommands_inv in Hc. destruct Hc as [Hp1 Hpath].
      unfold treePolicy. rewrite Hp1.
      split; [intro H; discriminate H |].
      split; [intros _; split; [exact Hnot | split; [exact Ha | eauto]] |].
      intro H; discriminate H.
    + apply String.eqb_neq in Ha.
      apply Forall_map, Forall_forall. intros slice _.
      unfold treePolicy. simpl.
      split; [intro H; discriminate H |].
      split; [intro H; discriminate H | auto].
Qed.

Lemma treeCommands2_policy sessionId changeMap box :
  Forall (treePolicy2 changeMap box) (treeCommands2 sessionId changeMap box).
Proof.
  unfold treeCommands2. cbv zeta.
  destruct (String.eqb _ SignTx2.MINER_FEE_TREE) eqn:Hb.
  - apply String.eqb_eq in Hb.
    constructor; [| constructor].
    unfold treePolicy2. simpl.
    split; [intros _; split; [exact Hb | reflexivity] |].
    split; intro H; discriminate H.
  - apply String.eqb_neq in Hb.
    destruct (String.eqb _ (SignTx2.address changeMap)) eqn:Ha.
    + apply String.eqb_eq in Ha.
      apply Forall_forall. intros c Hc.
      apply changePathCommands_inv in Hc. destruct Hc as [Hp1 Hpath].
      unfold treePolicy2. rewrite Hp1.
      split; [intro H; discriminate H |].
      split; [intros _; auto |].
      intro H; discriminate H.
    + apply String.eqb_neq in Ha.
      apply Forall_map, Forall_forall. intros slice _.
      unfold treePolicy2. simpl.
      split; [intro H; discriminate H |].
      split; [intro H; discriminate H | auto].
Qed.

(** A command that is not a tree command says nothing of the script. *)
Lemma afterTree_policy changeMap network box c :
  afterTreeCommand c -> treePolicy changeMap network box c.
Proof.
  unfold treePolicy.
  intros [H | H]; rewrite H;
    (split; [| split]); intro H'; discriminate H'.
Qed.

Lemma afterTree_policy2 changeMap box c :
  afterTreeCommand c -> treePolicy2 changeMap box c.
Proof.
  unfold treePolicy2.
  intros [H | H]; rewrite H;
    (split; [| split]); intro H'; discriminate H'.
Qed.

Lemma outputCommands_policy sessionId changeMap table network box :
  Forall (treePolicy changeMap network box)
         (outputCommands sessionId changeMap table network box).
Proof.
  unfold outputCommands, startCommands.
  destruct (outputHeader _) as [e | header]; constructor.
  - unfold treePolicy. simpl. (split; [| split]); intro H; discriminate H.
  - apply Forall_app; split.
    + apply treeCommands_policy.
    + apply Forall_app; split;
        (eapply Forall_impl; [apply afterTree_policy |]);
        [apply tokenCommands_after | apply registerCommands_after].
Qed.

Lemma outputCommands2_policy sessionId changeMap table box :
  Forall (treePolicy2 changeMap box)
         (outputCommands2 sessionId changeMap table box).
Proof.
  unfold outputCommands2, startCommands.
  destruct (outputHeader _) as [e | header]; constructor.
  - unfold treePolicy2. simpl. (split; [| split]); intro H; discriminate H.
  - apply Forall_app; split.
    + apply treeCommands2_policy.
    + apply Forall_app; split;
        (eapply Forall_impl; [apply afterTree_policy2 |]);
        [apply tokenCommands_after | apply registerCommands_after].
Qed.

Lemma changePath_returns dev sessionId p log (a : unit) cs :
  run dev (payload <- liftRes (bip32Path p) ;;
           send SIGN_TX P1.ADD_OUTPUT_BOX_CHANGE_TREE sessionId payload ;;
           Ret tt) log = (inr a, cs) ->
  exists payload,
    bip32Path p = inr payload /\
    cs = [command P1.ADD_OUTPUT_BOX_CHANGE_TREE sessionId payload].
Proof.
  intro Hrun.
  assert (Hcs : cs = changePathCommands sessionId p)
    by (eapply Follows_returns; [apply changePath_follows | exact Hrun]).
  subst cs.
  rewrite run_bind, run_liftRes in Hrun.
  unfold changePathCommands.
  destruct (bip32Path p) as [e | payload]; [discriminate | eauto].
Qed.

Lemma change_returns dev sessionId p log (a : unit) cs :
  run dev (SignTx.addOutputBoxChangeTree sessionId p) log = (inr a, cs) ->
  exists s payload,
    p = Some s /\ bip32Path s = inr payload /\
    cs = [command P1.ADD_OUTPUT_BOX_CHANGE_TREE sessionId payload].
Proof.
  unfold SignTx.addOutputBoxChangeTree.
  destruct p as [[| ch s] |]; simpl; try discriminate.
  intro Hrun. apply changePath_returns in Hrun.
  destruct Hrun as (payload & Hp & ->). eauto.
Qed.

End Classification.

(** [H] is a run of a program that follows a plan and has returned. *)
Ltac returned H F := eapply Follows_returns in H; [| apply F].

Section TreeStep.
Context {platform : Platform}.
Import DeviceChannel.

(** A run of the loop body that returns has sent the start command, the
    tree commands of the class of the output, and then commands about
    tokens and registers only. *)
Lemma sendOutputBox_returns dev log sessionId changeMap table network box a cs :
  run dev (SignTx.sendOutputBox sessionId changeMap table network box) log
    = (inr a, cs) ->
  exists header tree rest,
    cs = command P1.ADD_OUTPUT_BOX_START sessionId header :: tree ++ rest /\
    Forall afterTreeCommand rest /\
    (isFeeScript box ->
       tree = [command P1.ADD_OUTPUT_BOX_MINERS_FEE_TREE sessionId
                 [byteOfZ network]]) /\
    (~ isFeeScript box -> paysTo (address changeMap) box ->
       exists p payload,
         path changeMap = Some p /\ bip32Path p = inr payload /\
         tree = [command P1.ADD_OUTPUT_BOX_CHANGE_TREE sessionId payload]) /\
    (~ isFeeScript box -> ~ paysTo (address changeMap) box ->
       tree = ergoTreeCommands sessionId box).
Proof.
  intro Hrun. unfold SignTx.sendOutputBox in Hrun.
  apply run_bind_inv in Hrun.
  destruct Hrun as [(e & _ & He) | (header & cs0 & cs1 & H0 & Hrun & ->)];
    [discriminate |].
  rewrite run_liftRes in H0. inversion H0 as [[Hheader Hcs0]]. clear H0.
  apply run_bind_inv in Hrun.
  destruct Hrun as [(e & _ & He) | (x & csS & cs2 & HS & Hrun & ->)];
    [discriminate |].
  returned HS Follows_send. subst csS.
  cbv zeta in Hrun.
  apply run_bind_inv in Hrun.
  destruct Hrun as [(e & _ & He) | (y & csT & cs3 & HT & Hrun & ->)];
    [discriminate |].
  apply run_bind_inv in Hrun.
  destruct Hrun as [(e & _ & He) | (z & csK & csR & HK & HR & ->)];
    [discriminate |].
  returned HK (tokens_follows sessionId table box).
  returned HR (registers_follows sessionId box).
  exists header, csT, (csK ++ csR). simpl.
  split; [reflexivity |].
  split; [subst; apply Forall_app; split;
          [apply tokenCommands_after | apply registerCommands_after] |].
  pose proof (isFeeScript_eqb box) as Hfee.
  pose proof (String.eqb_spec
                (addressFromErgoTree (Deserialize.hex (ergoTree box)))
                (address changeMap)) as Haddr.
  destruct (_ || _)%bool.
  - returned HT (fee_follows sessionId network).
    split; [intros _; exact HT |].
    split; intro Hnot; exfalso; apply Hnot; now apply Hfee.
  - assert (Hnot : ~ isFeeScript box) by (now apply (false_not Hfee)).
    split; [intro; contradiction |].
    destruct Haddr as [Heq | Hne].
    + apply change_returns in HT. destruct HT as (s & payload & Hp & Hb & ->).
      split; [intros _ _; eauto | intros _ Hno; contradiction].
    + returned HT (ergo_follows sessionId box).
      split; [intros _ Hyes; contradiction | intros _ _; exact HT].
Qed.

Lemma sendOutputBox2_returns dev log sessionId changeMap table box a cs :
  run dev (SignTx2.sendOutputBox sessionId changeMap table box) log
    = (inr a, cs) ->
  exists header tree rest,
    cs = command P1.ADD_OUTPUT_BOX_START sessionId header :: tree ++ rest /\
    Forall afterTreeCommand rest /\
    (isFeeScript2 box ->
       tree = [command P1.ADD_OUTPUT_BOX_MINERS_FEE_TREE sessionId []]) /\
    (~ isFeeScript2 box -> paysTo (SignTx2.address changeMap) box ->
       exists payload,
         bip32Path (SignTx2.path changeMap) = inr payload /\
         tree = [command P1.ADD_OUTPUT_BOX_CHANGE_TREE sessionId payload]) /\
    (~ isFeeScript2 box -> ~ paysTo (SignTx2.address changeMap) box ->
       tree = ergoTreeCommands sessionId box).
Proof.
  intro Hrun. unfold SignTx2.sendOutputBox in Hrun.
  apply run_bind_inv in Hrun.
  destruct Hrun as [(e & _ & He) | (header & cs0 & cs1 & H0 & Hrun & ->)];
    [discriminate |].
  rewrite run_liftRes in H0. inversion H0 as [[Hheader Hcs0]]. clear H0.
  apply run_bind_inv in Hrun.
  destruct Hrun as [(e & _ & He) | (x & csS & cs2 & HS & Hrun & ->)];
    [discriminate |].
  returned HS Follows_send. subst csS.
  cbv zeta in Hrun.
  apply run_bind_inv in Hrun.
  destruct Hrun as [(e & _ & He) | (y & csT & cs3 & HT & Hrun & ->)];
    [discriminate |].
  apply run_bind_inv in Hrun.
  destruct Hrun as [(e & _ & He) | (z & csK & csR & HK & HR & ->)];
    [discriminate |].
  returned HK (tokens_follows sessionId table box).
  returned HR (registers_follows sessionId box).
  exists header, csT, (csK ++ csR). simpl.
  split; [reflexivity |].
  split; [subst; apply Forall_app; split;
          [apply tokenCommands_after | apply registerCommands_after] |].
  pose proof (String.eqb_spec (Deserialize.hex (ergoTree box))
                SignTx2.MINER_FEE_TREE) as Hfee.
  pose proof (String.eqb_spec
                (addressFromErgoTree (Deserialize.hex (ergoTree box)))
                (SignTx2.address changeMap)) as Haddr.
  unfold isFeeScript2, paysTo.
  destruct Hfee as [Hfee | Hnot].
  - returned HT (fee2_follows sessionId).
    split; [intros _; exact HT |].
    split; intro Hno; contradiction.
  - split; [intro; contradiction |].
    destruct Haddr as [Heq | Hne].
    + apply changePath_returns in HT. destruct HT as (payload & Hb & ->).
      split; [intros _ _; eauto | intros _ Hno; contradiction].
    + returned HT (ergo_follows sessionId box).
      split; [intros _ Hyes; contradiction | intros _ _; exact HT].
Qed.

End TreeStep.

Section OutputClaims.
Context {platform : Platform}.

(** C1, as amended.  For every output, the loop body of [sendOutputs]
    announces the script in one of three ways, tried in this order.  In
    [signTx.ts] the fee-tree command is sent exactly when the script in hex
    is the mainnet or the testnet miner-fee constant, whatever the network
    of the session, and its payload is the one network byte; in the second
    variant exactly when it is the one constant, with an empty payload: in
    neither are script bytes sent.  Otherwise, when the address derived from
    the script is the change address, the change-tree command is sent, with
    the encoded change path; otherwise the script goes out in
    ergo-tree-chunk commands.  A run of the body that returns has sent the
    start command, then the tree commands of that one kind, and after them
    only commands about tokens and registers.  [sendOutputs] runs the body
    on the outputs in turn, so every tree command it sends is the one of
    some output. *)
Theorem output_tree_classification dev log sessionId table box :
  (forall changeMap network r cs,
     run dev (SignTx.sendOutputBox sessionId changeMap table network box) log
       = (r, cs) ->
     Forall (treePolicy changeMap network box) cs /\
     (forall a, r = inr a ->
        exists header tree rest,
          cs = command P1.ADD_OUTPUT_BOX_START sessionId header :: tree ++ rest /\
          Forall afterTreeCommand rest /\
          (isFeeScript box ->
             tree = [command P1.ADD_OUTPUT_BOX_MINERS_FEE_TREE sessionId
                       [byteOfZ network]]) /\
          (~ isFeeScript box -> paysTo (address changeMap) box ->
             exists p payload,
               path changeMap = Some p /\ bip32Path p = inr payload /\
               tree = [command P1.ADD_OUTPUT_BOX_CHANGE_TREE sessionId payload]) /\
          (~ isFeeScript box -> ~ paysTo (address changeMap) box ->
             tree = ergoTreeCommands sessionId box))) /\
  (forall changeMap r cs,
     run dev (SignTx2.sendOutputBox sessionId changeMap table box) log
       = (r, cs) ->
     Forall (treePolicy2 changeMap box) cs /\
     (forall a, r = inr a ->
        exists header tree rest,
          cs = command P1.ADD_OUTPUT_BOX_START sessionId header :: tree ++ rest /\
          Forall afterTreeCommand rest /\
          (isFeeScript2 box ->
             tree = [command P1.ADD_OUTPUT_BOX_MINERS_FEE_TREE sessionId []]) /\
          (~ isFeeScript2 box -> paysTo (SignTx2.address changeMap) box ->
             exists payload,
               bip32Path (SignTx2.path changeMap) = inr payload /\
               tree = [command P1.ADD_OUTPUT_BOX_CHANGE_TREE sessionId payload]) /\
          (~ isFeeScript2 box -> ~ paysTo (SignTx2.address changeMap) box ->
             tree = ergoTreeCommands sessionId box))) /\
  (forall boxes changeMap ids network r cs,
     run dev (SignTx.sendOutputs sessionId boxes changeMap ids network) log
       = (r, cs) ->
     Forall (fun c => exists b, In b boxes /\ treePolicy changeMap network b c)
            cs) /\
  (forall boxes changeMap ids r cs,
     run dev (SignTx2.sendOutputs sessionId boxes changeMap ids) log = (r, cs) ->
     Forall (fun c => exists b, In b boxes /\ treePolicy2 changeMap b c) cs).
Proof.
  split; [| split; [| split]].
  - intros changeMap network r cs Hrun. split.
    + eapply Follows_sends;
        [apply sendOutputBox_follows | apply outputCommands_policy | exact Hrun].
    + intros a ->. eapply sendOutputBox_returns, Hrun.
  - intros changeMap r cs Hrun. split.
    + eapply Follows_sends;
        [apply sendOutputBox2_follows | apply outputCommands2_policy | exact Hrun].
    + intros a ->. eapply sendOutputBox2_returns, Hrun.
  - intros boxes changeMap ids network r cs Hrun.
    eapply Follows_sends; [apply sendOutputs_follows | | exact Hrun].
    apply Forall_flat_map, Forall_forall. intros b Hb.
    eapply Forall_impl; [| apply outputCommands_policy].
    intros c Hc. eauto.
  - intros boxes changeMap ids r cs Hrun.
    eapply Follows_sends; [apply sendOutputs2_follows | | exact Hrun].
    apply Forall_flat_map, Forall_forall. intros b Hb.
    eapply Forall_impl; [| apply outputCommands2_policy].
    intros c Hc. eauto.
Qed.

(** C2.  For an output whose script is not a miner-fee script and whose
    derived address is the change address, no command of the loop body
    carries the script: none is an ergo-tree chunk (nor a fee tree), the
    payload of a change-tree command is the encoding of the change path, and
    a run of the body that returns has sent exactly that one command between
    the start command and the commands about tokens and registers. *)
Theorem change_output_sends_path_only
    dev log sessionId changeMap table network box r cs :
  ~ isFeeScript box ->
  paysTo (address changeMap) box ->
  run dev (SignTx.sendOutputBox sessionId changeMap table network box) log
    = (r, cs) ->
  Forall (fun c =>
            cmd_p1 c <> P1.ADD_OUTPUT_BOX_ERGO_TREE_CHUNK /\
            cmd_p1 c <> P1.ADD_OUTPUT_BOX_MINERS_FEE_TREE /\
            (cmd_p1 c = P1.ADD_OUTPUT_BOX_CHANGE_TREE ->
             exists p, path changeMap = Some p /\ bip32Path p = inr (cmd_data c)))
         cs /\
  (forall a, r = inr a ->
     exists header p payload rest,
       path changeMap = Some p /\ bip32Path p = inr payload /\
       cs = command P1.ADD_OUTPUT_BOX_START sessionId header
            :: command P1.ADD_OUTPUT_BOX_CHANGE_TREE sessionId payload :: rest /\
       Forall afterTreeCommand rest).
Proof.
  intros Hnot Hpays Hrun. split.
  - assert (HF : Forall (treePolicy changeMap network box) cs)
      by (eapply Follows_sends;
          [apply sendOutputBox_follows | apply outputCommands_policy | exact Hrun]).
    eapply Forall_impl; [| exact HF].
    intros c (Hfee & Hchange & Hergo).
    split; [intro H; now apply Hergo in H |].
    split; [intro H; now apply Hfee in H |].
    intro H. now apply Hchange in H.
  - intros a ->.
    apply sendOutputBox_returns in Hrun.
    destruct Hrun as (header & tree & rest & -> & Hrest & _ & Hchange & _).
    destruct (Hchange Hnot Hpays) as (p & payload & Hp & Hb & ->).
    exists header, p, payload, rest. auto.
Qed.

End OutputClaims.

(* ================================================================== *)
(** * Where malformed input is found out *)

Section Malformed.
Context {platform : Platform}.
Import DeviceChannel.

(** A program whose own errors are those of the encoders never ends with
    the missing-change-path error. *)
Lemma res_concat_error parts e :
  res_concat parts = inl e -> In (inl e) parts.
Proof.
  induction parts as [| p rest IH]; simpl; [discriminate |].
  destruct p as [e' | b]; simpl.
  - intro H. inversion H. now left.
  - destruct (res_concat rest) as [e' | more]; simpl; [| discriminate].
    intro H. inversion H. subst. right. now apply IH.
Qed.

Lemma uint_error width v e :
  Serialize.uint width v = inl e -> e = Malformed IntegerOutOfRange.
Proof.
  unfold Serialize.uint. destruct (fitsUnsigned width v); intro H; now inversion H.
Qed.

Lemma res_map_error {T A} (f : T -> Res A) items e :
  res_map f items = inl e -> exists x, In x items /\ f x = inl e.
Proof.
  induction items as [| x rest IH]; simpl; [discriminate |].
  destruct (f x) as [e' | a] eqn:Hx; simpl.
  - intro H. inversion H. subst. exists x. auto.
  - destruct (res_map f rest) as [e' | others]; simpl; [| discriminate].
    intro H. inversion H. subst. destruct (IH eq_refl) as (y & Hy & Hf).
    exists y. auto.
Qed.

Lemma Conforms_never {A} C (p : Prog A) dev log cs :
  Conforms RETURN_CODE_OK C encoderError p ->
  run dev p log = (inl (Malformed ChangePathNotPresent), cs) -> False.
Proof.
  intros H Hrun.
  destruct (Conforms_run H dev log) as [_ Hout].
  rewrite Hrun in Hout. simpl in Hout.
  destruct Hout as [Hne _]. now apply Hne.
Qed.

Lemma changePath_conforms sessionId p :
  Conforms RETURN_CODE_OK (inPhase 6 sessionId) encoderError
    (payload <- liftRes (bip32Path p) ;;
     send SIGN_TX P1.ADD_OUTPUT_BOX_CHANGE_TREE sessionId payload ;;
     Ret tt).
Proof. conforms. Qed.

Lemma change_missing dev sessionId p log cs :
  run dev (SignTx.addOutputBoxChangeTree sessionId p) log
    = (inl (Malformed ChangePathNotPresent), cs) ->
  cs = [] /\ falsyString p = true.
Proof.
  unfold SignTx.addOutputBoxChangeTree.
  destruct (falsyString p).
  - simpl. intro H. inversion H. auto.
  - intro H. exfalso. eapply Conforms_never; [apply changePath_conforms | exact H].
Qed.

(** The loop body ends with the missing-change-path error only right
    after the start command of the output. *)
Lemma sendOutputBox_missing dev log sessionId changeMap table network box cs :
  run dev (SignTx.sendOutputBox sessionId changeMap table network box) log
    = (inl (Malformed ChangePathNotPresent), cs) ->
  exists header, cs = [command P1.ADD_OUTPUT_BOX_START sessionId header].
Proof.
  intro Hrun. unfold SignTx.sendOutputBox in Hrun.
  apply run_bind_inv in Hrun.
  destruct Hrun as [(e & H0 & He) | (header & cs0 & cs1 & H0 & Hrun & ->)].
  { exfalso. inversion He; subst.
    eapply Conforms_never; [| exact H0].
    apply Conforms_liftRes with (C := fun _ => True). encoder_side. }
  rewrite run_liftRes in H0. inversion H0 as [[Hheader Hcs0]]. clear H0.
  apply run_bind_inv in Hrun.
  destruct Hrun as [(e & HS & He) | (x & csS & cs2 & HS & Hrun & ->)].
  { exfalso. inversion He; subst.
    eapply Conforms_never; [| exact HS].
    apply Conforms_send with (C := fun _ => True). exact I. }
  returned HS Follows_send. subst csS.
  cbv zeta in Hrun.
  apply run_bind_inv in Hrun.
  destruct Hrun as [(e & HT & He) | (y & csT & cs3 & HT & Hrun & ->)].
  { inversion He; subst. exists header.
    destruct (_ || _)%bool.
    - exfalso. eapply Conforms_never;
        [apply addOutputBoxMinersFeeTree_conforms | exact HT].
    - destruct (String.eqb _ _).
      + apply change_missing in HT. destruct HT as [-> _]. reflexivity.
      + exfalso. eapply Conforms_never;
          [apply addOutputBoxErgoTree_conforms | exact HT]. }
  exfalso.
  apply run_bind_inv in Hrun.
  destruct Hrun as [(e & HK & He) | (z & csK & csR & HK & HR & ->)].
  - inversion He; subst.
    destruct (0 <? _)%nat; [| discriminate].
    eapply Conforms_never; [apply addOutputBoxTokens_conforms | exact HK].
  - destruct (0 <? length (registers box))%nat; [| discriminate].
    eapply Conforms_never; [apply addOutputBoxRegisters_conforms | exact HR].
Qed.

Lemma sendOutputs_missing dev sessionId boxes changeMap ids network log cs :
  run dev (SignTx.sendOutputs sessionId boxes changeMap ids network) log
    = (inl (Malformed ChangePathNotPresent), cs) ->
  exists pre header,
    cs = pre ++ [command P1.ADD_OUTPUT_BOX_START sessionId header].
Proof.
  unfold SignTx.sendOutputs. cbv zeta.
  revert log cs.
  induction boxes as [| box rest IH]; intros log cs Hrun; simpl in Hrun.
  - discriminate.
  - apply run_bind_inv in Hrun.
    destruct Hrun as [(e & H1 & He) | (x & cs1 & cs2 & H1 & Hrun & ->)].
    + inversion He; subst.
      apply sendOutputBox_missing in H1. destruct H1 as [header ->].
      now exists [], header.
    + apply IH in Hrun. destruct Hrun as (pre & header & ->).
      exists (cs1 ++ pre), header. now rewrite app_assoc.
Qed.

(** A token that the table does not hold cannot be encoded. *)
Lemma tokens_unencodable (tokens : list Token) table t :
  In t tokens -> indexOf table (id t) = (-1)%Z ->
  exists e,
    Serialize.array tokens (fun t =>
      res_concat [ Serialize.uint32 (indexOf table (id t));
                   Serialize.uint64 (amount t) ]) = inl e.
Proof.
  intros Hin Hidx.
  set (f := fun t : Token =>
              res_concat [ Serialize.uint32 (indexOf table (id t));
                           Serialize.uint64 (amount t) ]).
  assert (Ht : exists e, f t = inl e).
  { unfold f. rewrite Hidx. simpl. eauto. }
  unfold Serialize.array.
  induction tokens as [| u rest IH]; [contradiction |].
  simpl.
  destruct (f u) as [e | b] eqn:Hu; simpl; [eauto |].
  destruct Hin as [-> | Hin].
  - destruct Ht as [e He]. congruence.
  - destruct (IH Hin) as [e He].
    destruct (res_map f rest); simpl in *; [eauto | discriminate].
Qed.

End Malformed.

Section MalformedClaims.
Context {platform : Platform}.
Import DeviceChannel.

Lemma treeCommands_kinds sessionId changeMap network box :
  Forall isTreeCommand (treeCommands sessionId changeMap network box).
Proof.
  unfold treeCommands. cbv zeta.
  destruct (_ || _)%bool.
  - constructor; [| constructor]. unfold isTreeCommand. simpl. auto.
  - destruct (String.eqb _ _).
    + unfold changeTreeCommands.
      destruct (falsyString _); [constructor |].
      apply Forall_forall. intros c Hc.
      apply changePathCommands_inv in Hc. destruct Hc as [Hp1 _].
      unfold isTreeCommand. auto.
    + apply Forall_map, Forall_forall. intros slice _.
      unfold isTreeCommand. simpl. auto.
Qed.

(** An output with a token that the table does not hold: the body never
    returns and never sends the tokens command. *)
Lemma sendOutputBox_stray dev log sessionId changeMap table network box t r cs :
  In t (tokens box) -> indexOf table (id t) = (-1)%Z ->
  run dev (SignTx.sendOutputBox sessionId changeMap table network box) log
    = (r, cs) ->
  (forall a, r <> inr a) /\
  Forall (fun c => cmd_p1 c <> P1.ADD_OUTPUT_BOX_TOKENS) cs.
Proof.
  intros Hin Hidx Hrun.
  destruct (tokens_unencodable (tokens box) table t Hin Hidx) as [e He].
  split.
  - intros a ->. unfold SignTx.sendOutputBox in Hrun.
    apply run_bind_inv in Hrun.
    destruct Hrun as [(e0 & _ & H) | (header & cs0 & cs1 & _ & Hrun & ->)];
      [discriminate |].
    apply run_bind_inv in Hrun.
    destruct Hrun as [(e0 & _ & H) | (x & csS & cs2 & _ & Hrun & ->)];
      [discriminate |].
    cbv zeta in Hrun.
    apply run_bind_inv in Hrun.
    destruct Hrun as [(e0 & _ & H) | (y & csT & cs3 & _ & Hrun & ->)];
      [discriminate |].
    apply run_bind_inv in Hrun.
    destruct Hrun as [(e0 & _ & H) | (z & csK & csR & HK & _ & ->)];
      [discriminate |].
    destruct (tokens box) as [| u rest]; [contradiction |].
    simpl in HK. unfold SignTx.addOutputBoxTokens in HK.
    rewrite run_bind, run_liftRes, He in HK. discriminate.
  - eapply Follows_sends; [apply sendOutputBox_follows | | exact Hrun].
    unfold outputCommands, startCommands.
    destruct (outputHeader box); constructor; [discriminate |].
    apply Forall_app. split.
    + eapply Forall_impl; [| apply treeCommands_kinds].
      intros c [H | [H | H]]; rewrite H; discriminate.
    + unfold tokenCommands. rewrite He.
      assert (Hreg : Forall (fun c => cmd_p1 c <> P1.ADD_OUTPUT_BOX_TOKENS)
                            (registerCommands sessionId box)).
      { unfold registerCommands.
        destruct (0 <? _)%nat; [| constructor].
        apply Forall_map, Forall_forall. intros slice _. discriminate. }
      now destruct (0 <? _)%nat.
Qed.

(** The start command of an output is sent as soon as it can be encoded. *)
Lemma sendOutputBox_starts dev log sessionId changeMap table network box header :
  outputHeader box = inr header ->
  exists rest,
    snd (run dev (SignTx.sendOutputBox sessionId changeMap table network box) log)
    = command P1.ADD_OUTPUT_BOX_START sessionId header :: rest.
Proof.
  intro Hheader. unfold SignTx.sendOutputBox.
  unfold outputHeader in Hheader.
  rewrite run_bind, run_liftRes, Hheader.
  rewrite app_nil_r. simpl app.
  rewrite run_bind, run_send. cbv zeta.
  destruct (returnCode _ =? RETURN_CODE_OK)%Z; [| simpl; eauto].
  destruct (run dev _ (log ++ _)) as [r' cs']. simpl. eauto.
Qed.

End MalformedClaims.

Section MalformedSession.
Context {platform : Platform}.
Import SignTx.

Ltac earlier_step H lemma :=
  exfalso; eapply Conforms_never; [apply lemma | exact H].

(** A run of [signTx] that ends with the missing-change-path error has
    sent the start-signing and start-transaction commands and, last, the
    start command of an output. *)
Lemma signTx_missing_change_path dev tx signPath network authToken :
  result dev (signTx tx signPath network authToken)
    = inl (Malformed ChangePathNotPresent) ->
  exists hdr st mid start,
    trace dev (signTx tx signPath network authToken)
      = hdr :: st :: mid ++ [start] /\
    phase hdr = 1%nat /\ phase st = 2%nat /\
    cmd_p1 start = P1.ADD_OUTPUT_BOX_START.
Proof.
  unfold result, trace.
  destruct (run dev (signTx tx signPath network authToken) []) as [r cs] eqn:Hrun.
  simpl. intros ->. unfold signTx in Hrun.
  apply run_bind_inv in Hrun.
  destruct Hrun as [(e & H1 & He) | (sid & cs1 & rest1 & H1 & Hrun & ->)];
    [inversion He; subst; earlier_step H1 sendHeader_conforms |].
  apply encode_send_returns in H1. destruct H1 as (pl1 & _ & -> & _).
  apply run_bind_inv in Hrun.
  destruct Hrun as [(e & H2 & He) | (x2 & cs2 & rest2 & H2 & Hrun & ->)];
    [inversion He; subst; earlier_step H2 sendStartTx_conforms |].
  apply encode_send_returns in H2. destruct H2 as (pl2 & _ & -> & _).
  apply run_bind_inv in Hrun.
  destruct Hrun as [(e & H3 & He) | (x3 & cs3 & rest3 & _ & Hrun & ->)];
    [inversion He; subst; earlier_step H3 sendDistinctTokensIds_conforms |].
  apply run_bind_inv in Hrun.
  destruct Hrun as [(e & H4 & He) | (x4 & cs4 & rest4 & _ & Hrun & ->)];
    [inversion He; subst; earlier_step H4 sendInputs_conforms |].
  apply run_bind_inv in Hrun.
  destruct Hrun as [(e & H5 & He) | (x5 & cs5 & rest5 & _ & Hrun & ->)];
    [inversion He; subst; earlier_step H5 sendDataInputs_conforms |].
  apply run_bind_inv in Hrun.
  destruct Hrun as [(e & H6 & He) | (x6 & cs6 & rest6 & _ & Hrun & ->)].
  - inversion He; subst.
    apply sendOutputs_missing in H6. destruct H6 as (pre & header & ->).
    eexists _, _, (cs3 ++ cs4 ++ cs5 ++ pre), _.
    repeat rewrite <- app_assoc. simpl.
    repeat split; reflexivity.
  - apply run_bind_inv in Hrun.
    destruct Hrun as [(e & H7 & He) | (x7 & cs7 & rest7 & _ & Hret & _)].
    + inversion He; subst. earlier_step H7 sendConfirmAndSign_conforms.
    + simpl in Hret. discriminate.
Qed.

Lemma run_forEach_app {T} dev (a b : list T) body log :
  run dev (forEach (a ++ b) body) log =
  match run dev (forEach a body) log with
  | (inl e, cs) => (inl e, cs)
  | (inr _, cs) =>
      let (r, cs') := run dev (forEach b body) (log ++ cs) in (r, cs ++ cs')
  end.
Proof.
  revert log.
  induction a as [| x a IH]; intro log; simpl.
  - rewrite app_nil_r. now destruct (run dev (forEach b body) log).
  - rewrite !run_bind.
    destruct (run dev (body x) log) as [[e | []] cs1]; [reflexivity |].
    rewrite IH.
    destruct (run dev (forEach a body) (log ++ cs1)) as [[e | []] cs2];
      [reflexivity |].
    rewrite <- app_assoc.
    destruct (run dev (forEach b body) (log ++ cs1 ++ cs2)) as [r cs3].
    now rewrite app_assoc.
Qed.

(** An output whose loop body fails ends the session: the run of [signTx]
    is the run of the steps before that output followed by the commands of
    the failing body, and its result is the error of the body.  The steps
    before have sent the start-signing and start-transaction commands. *)
Lemma signTx_stops_at_output
    dev tx signPath network authToken before box after sessionId pre e cs :
  outputs tx = before ++ box :: after ->
  run dev (stepsBefore tx signPath network authToken before) []
    = (inr sessionId, pre) ->
  run dev (sendOutputBox sessionId (changeMap tx)
             (map Deserialize.hex (distinctTokenIds tx)) network box) pre
    = (inl e, cs) ->
  run dev (signTx tx signPath network authToken) [] = (inl e, pre ++ cs) /\
  exists hdr st mid,
    pre = hdr :: st :: mid /\ phase hdr = 1%nat /\ phase st = 2%nat.
Proof.
  intros Hout Hpre Hbody. unfold stepsBefore in Hpre.
  apply run_bind_inv in Hpre.
  destruct Hpre as [(e0 & _ & He) | (sid & cs1 & r1 & H1 & Hpre & ->)];
    [discriminate |].
  apply run_bind_inv in Hpre.
  destruct Hpre as [(e0 & _ & He) | (x2 & cs2 & r2 & H2 & Hpre & ->)];
    [discriminate |].
  apply run_bind_inv in Hpre.
  destruct Hpre as [(e0 & _ & He) | (x3 & cs3 & r3 & H3 & Hpre & ->)];
    [discriminate |].
  apply run_bind_inv in Hpre.
  destruct Hpre as [(e0 & _ & He) | (x4 & cs4 & r4 & H4 & Hpre & ->)];
    [discriminate |].
  apply run_bind_inv in Hpre.
  destruct Hpre as [(e0 & _ & He) | (x5 & cs5 & r5 & H5 & Hpre & ->)];
    [discriminate |].
  apply run_bind_inv in Hpre.
  destruct Hpre as [(e0 & _ & He) | (x6 & cs6 & r6 & H6 & Hpre & ->)];
    [discriminate |].
  simpl in Hpre. injection Hpre as <- <-.
  split.
  - unfold signTx.
    rewrite run_bind, H1. cbn beta iota.
    rewrite run_bind, H2. cbn beta iota.
    rewrite run_bind, H3. cbn beta iota.
    rewrite run_bind, H4. cbn beta iota.
    rewrite run_bind, H5. cbn beta iota.
    rewrite run_bind. unfold sendOutputs. cbv zeta.
    rewrite Hout, run_forEach_app, H6. cbn beta iota.
    cbn [forEach]. rewrite run_bind.
    rewrite app_nil_r in Hbody. cbn [app] in *.
    repeat rewrite app_assoc in Hbody.
    rewrite Hbody. cbn beta iota.
    repeat rewrite <- app_assoc. reflexivity.
  - apply encode_send_returns in H1. destruct H1 as (pl1 & _ & -> & _).
    apply encode_send_returns in H2. destruct H2 as (pl2 & _ & -> & _).
    eexists _, _, _. split; [reflexivity |]. split; reflexivity.
Qed.

(** A change output without a change path: the body sends the start
    command and, if the device accepts it, raises the error. *)
Lemma sendOutputBox_change_missing
    dev log sessionId changeMap table network box header :
  outputHeader box = inr header ->
  ~ isFeeScript box -> paysTo (address changeMap) box ->
  falsyString (path changeMap) = true ->
  run dev (sendOutputBox sessionId changeMap table network box) log
  = (if (returnCode (dev log (command P1.ADD_OUTPUT_BOX_START sessionId header))
         =? RETURN_CODE_OK)%Z
     then inl (Malformed ChangePathNotPresent)
     else inl (DeviceRejection
                 (returnCode
                    (dev log (command P1.ADD_OUTPUT_BOX_START sessionId header)))),
     [command P1.ADD_OUTPUT_BOX_START sessionId header]).
Proof.
  intros Hheader Hfee Hpays Hfalsy. unfold sendOutputBox.
  unfold outputHeader in Hheader.
  rewrite run_bind, run_liftRes, Hheader. cbn beta iota.
  rewrite app_nil_r. cbn [app].
  rewrite run_bind, run_send. cbv zeta. unfold command.
  destruct (returnCode _ =? RETURN_CODE_OK)%Z; [| reflexivity].
  rewrite run_bind.
  destruct (String.eqb _ MAINNET_MINER_FEE_TREE || String.eqb _ TESTNET_FEE_TREE)%bool
    eqn:Htest.
  { exfalso. apply Hfee. now apply isFeeScript_eqb. }
  unfold paysTo in Hpays. apply String.eqb_eq in Hpays. rewrite Hpays.
  unfold addOutputBoxChangeTree. rewrite Hfalsy. reflexivity.
Qed.

(** With a tree step that has nothing to fail on, the encoders of the body
    can only fail on an integer that is out of range. *)
Lemma sendOutputBox_conforms_encoding sessionId changeMap table network box :
  treeStepEncodes changeMap box ->
  Conforms RETURN_CODE_OK (fun _ => True) (fun m => m = IntegerOutOfRange)
    (sendOutputBox sessionId changeMap table network box).
Proof.
  intro Htree. unfold sendOutputBox.
  assert (Hparts : forall parts e,
             Forall (fun p => exists width v, p = Serialize.uint width v) parts ->
             res_concat parts = inl e -> e = Malformed IntegerOutOfRange).
  { intros parts e Hall H. apply res_concat_error in H.
    rewrite Forall_forall in Hall.
    destruct (Hall _ H) as (width & v & Hp). symmetry in Hp.
    now apply uint_error in Hp. }
  apply Conforms_bind.
  { apply Conforms_liftRes. intros e He. exists IntegerOutOfRange.
    split; [| reflexivity].
    apply Hparts with (2 := He).
    repeat constructor; eexists _, _; reflexivity. }
  intro header.
  apply Conforms_bind; [now apply Conforms_send |]. intros _. cbv zeta.
  apply Conforms_bind.
  { destruct (String.eqb _ MAINNET_MINER_FEE_TREE
              || String.eqb _ TESTNET_FEE_TREE)%bool eqn:Htest.
    - unfold addOutputBoxMinersFeeTree.
      apply Conforms_bind; [now apply Conforms_send | intro; constructor].
    - destruct (String.eqb _ (address changeMap)) eqn:Haddr.
      + destruct Htree as [Hfee | [Hnot | (p & payload & Hp & Hpresent & Henc)]].
        * apply isFeeScript_eqb in Hfee. congruence.
        * exfalso. apply Hnot. unfold paysTo. now apply String.eqb_eq.
        * unfold addOutputBoxChangeTree. rewrite Hp, Hpresent, Henc.
          apply Conforms_bind; [constructor |]. intro.
          apply Conforms_bind; [now apply Conforms_send | intro; constructor].
      + unfold addOutputBoxErgoTree.
        apply Conforms_bind; [now apply Conforms_sendData | intro; constructor]. }
  intros _.
  apply Conforms_bind.
  { destruct (0 <? _)%nat; [| constructor].
    unfold addOutputBoxTokens.
    apply Conforms_bind.
    - apply Conforms_liftRes. intros e He. exists IntegerOutOfRange.
      split; [| reflexivity].
      unfold Serialize.array in He.
      destruct (res_map _ (tokens box)) as [e' | encoded] eqn:Hmap;
        [| discriminate].
      simpl in He. inversion He. subst e'.
      apply res_map_error in Hmap. destruct Hmap as (t & _ & Ht).
      apply Hparts with (2 := Ht).
      repeat constructor; eexists _, _; reflexivity.
    - intro. apply Conforms_bind; [now apply Conforms_send | intro; constructor]. }
  intros _.
  destruct (0 <? _)%nat; [| constructor].
  unfold addOutputBoxRegisters.
  apply Conforms_bind; [now apply Conforms_sendData | intro; constructor].
Qed.

(** A body whose commands were all accepted did not end with a rejection. *)
Lemma accepted_not_rejected {A} dev log E (r : Res A) cs code :
  outcome RETURN_CODE_OK dev log E r cs ->
  accepted RETURN_CODE_OK dev log cs ->
  r <> inl (DeviceRejection code).
Proof.
  intros Hout Hacc ->. simpl in Hout.
  destruct Hout as (cs' & c & -> & _ & Hcode & Hno).
  apply accepted_app in Hacc. destruct Hacc as [_ [Hc _]]. congruence.
Qed.

(** C3, as amended.  Malformed input is found out when the step it
    concerns is reached, not before the session starts.  A run of [signTx]
    that ends with the missing-change-path error has already sent the
    start-signing and start-transaction commands and everything up to the
    start command of the change output, which is the last command sent.  An
    output that refers to a token the table does not hold makes the loop
    body fail: it never returns and never sends the add-output-tokens
    command, but it has sent the start command of the output whenever that
    command can be encoded.

    And the errors are raised.  When the steps before an output have
    returned, having sent the start-signing and start-transaction commands
    among others, and the output is a change output while the change path is
    missing, the run goes on with the start command of that output alone:
    if the device accepts it the run ends with the missing-change-path
    error, otherwise with the device's rejection, and no change-tree command
    is sent.  When the output names a token the table does not hold, the
    run goes on with the commands of the output's body, which fails: the
    error of the body ends the run, no add-output-tokens command is among
    its commands, the start command is the first of them if it can be
    encoded, and if the device accepted them all and the tree step has
    nothing to fail on, the error is the out-of-range integer. *)
Theorem malformed_input_found_at_its_step :
  (forall dev tx signPath network authToken,
     result dev (signTx tx signPath network authToken)
       = inl (Malformed ChangePathNotPresent) ->
     exists hdr st mid start,
       trace dev (signTx tx signPath network authToken)
         = hdr :: st :: mid ++ [start] /\
       phase hdr = 1%nat /\ phase st = 2%nat /\
       cmd_p1 start = P1.ADD_OUTPUT_BOX_START) /\
  (forall dev log sessionId changeMap table network box t r cs,
     In t (tokens box) -> indexOf table (id t) = (-1)%Z ->
     run dev (sendOutputBox sessionId changeMap table network box) log = (r, cs) ->
     (forall a, r <> inr a) /\
     Forall (fun c => cmd_p1 c <> P1.ADD_OUTPUT_BOX_TOKENS) cs /\
     (forall header, outputHeader box = inr header ->
        exists rest,
          cs = command P1.ADD_OUTPUT_BOX_START sessionId header :: rest)) /\
  (forall dev tx signPath network authToken before box after sessionId pre header,
     outputs tx = before ++ box :: after ->
     run dev (stepsBefore tx signPath network authToken before) []
       = (inr sessionId, pre) ->
     ~ isFeeScript box -> paysTo (address (changeMap tx)) box ->
     falsyString (path (changeMap tx)) = true ->
     outputHeader box = inr header ->
     let start := command P1.ADD_OUTPUT_BOX_START sessionId header in
     (exists hdr st mid,
        pre = hdr :: st :: mid /\ phase hdr = 1%nat /\ phase st = 2%nat) /\
     trace dev (signTx tx signPath network authToken) = pre ++ [start] /\
     result dev (signTx tx signPath network authToken)
     = (if (returnCode (dev pre start) =? RETURN_CODE_OK)%Z
        then inl (Malformed ChangePathNotPresent)
        else inl (DeviceRejection (returnCode (dev pre start))))) /\
  (forall dev tx signPath network authToken before box after sessionId pre t,
     outputs tx = before ++ box :: after ->
     run dev (stepsBefore tx signPath network authToken before) []
       = (inr sessionId, pre) ->
     In t (tokens box) ->
     indexOf (map Deserialize.hex (distinctTokenIds tx)) (id t) = (-1)%Z ->
     exists e cs,
       run dev (sendOutputBox sessionId (changeMap tx)
                  (map Deserialize.hex (distinctTokenIds tx)) network box) pre
         = (inl e, cs) /\
       (exists hdr st mid,
          pre = hdr :: st :: mid /\ phase hdr = 1%nat /\ phase st = 2%nat) /\
       trace dev (signTx tx signPath network authToken) = pre ++ cs /\
       result dev (signTx tx signPath network authToken) = inl e /\
       Forall (fun c => cmd_p1 c <> P1.ADD_OUTPUT_BOX_TOKENS) cs /\
       (forall header, outputHeader box = inr header ->
          exists rest,
            cs = command P1.ADD_OUTPUT_BOX_START sessionId header :: rest) /\
       (accepted RETURN_CODE_OK dev pre cs ->
        treeStepEncodes (changeMap tx) box ->
        e = Malformed IntegerOutOfRange)).
Proof.
  split; [apply signTx_missing_change_path |].
  split.
  { intros dev log sessionId changeMap table network box t r cs Hin Hidx Hrun.
    destruct (sendOutputBox_stray _ _ _ _ _ _ _ _ Hin Hidx Hrun) as [Hnever Hsent].
    repeat split; auto.
    intros header Hheader.
    destruct (sendOutputBox_starts dev log sessionId changeMap table network box Hheader)
      as [rest Hrest].
    rewrite Hrun in Hrest. simpl in Hrest. eauto. }
  split.
  - intros dev tx signPath network authToken before box after sessionId pre
           header Hout Hpre Hfee Hpays Hfalsy Hheader start.
    pose proof (@sendOutputBox_change_missing dev pre sessionId
                  (changeMap tx)
                  (map Deserialize.hex (distinctTokenIds tx)) network box
                  header Hheader Hfee Hpays Hfalsy) as Hbody.
    fold start in Hbody. revert Hbody.
    destruct (returnCode (dev pre start) =? RETURN_CODE_OK)%Z; intro Hbody;
      (destruct (@signTx_stops_at_output dev tx signPath network authToken
                   before box after sessionId pre _ _ Hout Hpre Hbody)
         as [Hrun Hshape];
       unfold trace, result; rewrite Hrun; auto).
  - intros dev tx signPath network authToken before box after sessionId pre t
           Hout Hpre Hin Hidx.
    destruct (run dev (sendOutputBox sessionId (changeMap tx)
                         (map Deserialize.hex (distinctTokenIds tx)) network box)
                  pre) as [r cs] eqn:Hbody.
    destruct (sendOutputBox_stray _ _ _ _ _ _ _ _ Hin Hidx Hbody) as [Hnever Hsent].
    destruct r as [e | []]; [| now destruct (Hnever tt)].
    exists e, cs. split; [reflexivity |].
    destruct (@signTx_stops_at_output dev tx signPath network authToken
                before box after sessionId pre e _ Hout Hpre Hbody)
      as [Hrun Hshape].
    split; [exact Hshape |].
    unfold trace, result. rewrite Hrun.
    split; [reflexivity |]. split; [reflexivity |]. split; [exact Hsent |].
    split.
    + intros header Hheader.
      destruct (sendOutputBox_starts dev pre sessionId (changeMap tx)
                  (map Deserialize.hex (distinctTokenIds tx)) network box Hheader)
        as [rest Hrest].
      rewrite Hbody in Hrest. simpl in Hrest. eauto.
    + intros Hacc Htree.
      pose proof (@sendOutputBox_conforms_encoding sessionId (changeMap tx)
                    (map Deserialize.hex (distinctTokenIds tx)) network box
                    Htree) as Hconf.
      apply Conforms_run with (dev := dev) (log := pre) in Hconf.
      destruct Hconf as [_ Hout'].
      rewrite Hbody in Hout'. cbn [fst snd] in Hout'.
      destruct e as [m | code].
      * simpl in Hout'. destruct Hout' as [-> _]. reflexivity.
      * exfalso. eapply accepted_not_rejected; [exact Hout' | exact Hacc | reflexivity].
Qed.

End MalformedSession.

(* ================================================================== *)
(** * Token references *)

Section Tokens.
Context {platform : Platform}.
Import DeviceChannel.

Lemma indexOfFrom_spec table x i :
  indexOfFrom table x i = (-1)%Z \/
  (i <= indexOfFrom table x i < i + Z.of_nat (length table))%Z /\
  nth_error table (Z.to_nat (indexOfFrom table x i - i)) = Some x /\
  forall j, (j < Z.to_nat (indexOfFrom table x i - i))%nat ->
            nth_error table j <> Some x.
Proof.
  revert i.
  induction table as [| y rest IH]; intro i; simpl; [now left |].
  destruct (String.eqb_spec y x) as [-> | Hne].
  - right. rewrite Z.sub_diag. simpl. repeat split; try lia.
  - destruct (IH (i + 1)%Z) as [Hnone | (Hrange & Hnth & Hfirst)];
      [now left | right].
    replace (indexOfFrom rest x (i + 1) - i)%Z
      with (Z.succ (indexOfFrom rest x (i + 1) - (i + 1)))%Z by lia.
    rewrite Z2Nat.inj_succ by lia.
    repeat split; try lia; [exact Hnth |].
    intros [| j] Hj; simpl.
    + congruence.
    + apply Hfirst. lia.
Qed.


(** [indexOf] returns the first position of the id, when it returns one. *)
Lemma indexOf_position table x :
  indexOf table x <> (-1)%Z ->
  (0 <= indexOf table x < Z.of_nat (length table))%Z /\
  nth_error table (Z.to_nat (indexOf table x)) = Some x /\
  forall j, (j < Z.to_nat (indexOf table x))%nat -> nth_error table j <> Some x.
Proof.
  unfold indexOf. intro Hfound.
  destruct (indexOfFrom_spec table x 0) as [Hnone | H]; [contradiction |].
  now rewrite Z.sub_0_r in H.
Qed.






End Tokens.

Section TokenClaims.
Context {platform : Platform}.
Import DeviceChannel.






End TokenClaims.

(* ================================================================== *)
(** * The start-signing command *)

Section Header.
Context {platform : Platform}.
Import DeviceChannel.

Lemma trace_after_header {A B} dev (r : Res Buffer) p2
    (g : DeviceResponse -> A) (f : A -> Prog B) payload :
  r = inr payload ->
  exists rest,
    trace dev (bind (payload <- liftRes r ;;
                     response <- send SIGN_TX P1.START_SIGNING p2 payload ;;
                     Ret (g response)) f)
    = command P1.START_SIGNING p2 payload :: rest.
Proof.
  intros ->. unfold trace.
  rewrite run_bind, run_encode_send. cbv zeta.
  destruct (returnCode _ =? RETURN_CODE_OK)%Z; [| simpl; eauto].
  destruct (run dev (f _) _) as [r' cs']. simpl. eauto.
Qed.

(** C8, as amended.  The first command of a run is the start-signing
    command.  In [signTx.ts] its payload is the encoded signing path, followed
    by the 32-bit auth token when a token is given and is not 0: there is no
    network tag in it.  In the second variant the payload is the network
    byte, then the path, then the token under the same condition.  In both,
    P2 is [WITH_TOKEN] when the token is in the payload and [WITHOUT_TOKEN]
    when it is not. *)
Theorem start_signing_payload dev signPath network authToken pathBytes :
  bip32Path signPath = inr pathBytes ->
  (forall tx,
     (truthy authToken = false ->
      exists rest,
        trace dev (SignTx.signTx tx signPath network authToken)
        = command P1.START_SIGNING (Some P2.WITHOUT_TOKEN) pathBytes :: rest) /\
     (forall t, authToken = Some t -> t <> 0%Z -> fitsUnsigned 4 t = true ->
      exists rest,
        trace dev (SignTx.signTx tx signPath network authToken)
        = command P1.START_SIGNING (Some P2.WITH_TOKEN)
            (pathBytes ++ bigEndian 4 t) :: rest)) /\
  (forall tx,
     fitsUnsigned 1 network = true ->
     (truthy authToken = false ->
      exists rest,
        trace dev (SignTx2.signTx tx signPath network authToken)
        = command P1.START_SIGNING (Some P2.WITHOUT_TOKEN)
            (bigEndian 1 network ++ pathBytes) :: rest) /\
     (forall t, authToken = Some t -> t <> 0%Z -> fitsUnsigned 4 t = true ->
      exists rest,
        trace dev (SignTx2.signTx tx signPath network authToken)
        = command P1.START_SIGNING (Some P2.WITH_TOKEN)
            (bigEndian 1 network ++ pathBytes ++ bigEndian 4 t) :: rest)).
Proof.
  intro Hpath. split.
  - intro tx. split.
    + intro Hno. unfold SignTx.signTx, SignTx.sendHeader. rewrite Hno.
      apply trace_after_header. rewrite Hpath.
      cbn [res_concat res_bind]. now rewrite ?app_nil_r.
    + intros t -> Ht Hfit. unfold SignTx.signTx, SignTx.sendHeader.
      assert (Hyes : truthy (Some t) = true)
        by (simpl; now apply negb_true_iff, Z.eqb_neq).
      rewrite Hyes. apply trace_after_header.
      rewrite Hpath. unfold Serialize.uint32, Serialize.uint. rewrite Hfit.
      cbn [res_concat res_bind]. now rewrite ?app_nil_r.
  - intros tx Hnet. split.
    + intro Hno. unfold SignTx2.signTx, SignTx2.sendHeader. rewrite Hno.
      apply trace_after_header.
      rewrite Hpath. unfold Serialize.uint8, Serialize.uint. rewrite Hnet.
      cbn [res_concat res_bind]. now rewrite ?app_nil_r.
    + intros t -> Ht Hfit. unfold SignTx2.signTx, SignTx2.sendHeader.
      assert (Hyes : truthy (Some t) = true)
        by (simpl; now apply negb_true_iff, Z.eqb_neq).
      rewrite Hyes. apply trace_after_header.
      rewrite Hpath.
      unfold Serialize.uint8, Serialize.uint32, Serialize.uint.
      rewrite Hnet, Hfit. cbn [res_concat res_bind]. now rewrite ?app_nil_r.
Qed.

End Header.

(* ================================================================== *)
(** * The auth token *)

Section Doubles.
Import ErgoApp.
Local Open Scope Z_scope.

Lemma digits2_pos_size p : digits2_pos p = Pos.size p.
Proof. induction p; simpl; congruence. Qed.

Lemma digits2_bounds p :
  2 ^ (Z.pos (digits2_pos p) - 1) <= Z.pos p < 2 ^ Z.pos (digits2_pos p).
Proof.
  rewrite digits2_pos_size. split.
  - pose proof (Pos.size_le p) as H.
    apply Pos2Z.pos_le_pos in H. rewrite Pos2Z.inj_pow in H.
    replace (Z.pos (Pos.size p)) with (Z.succ (Z.pos (Pos.size p) - 1)) in H by lia.
    rewrite Z.pow_succ_r in H by lia. lia.
  - pose proof (Pos.size_gt p) as H.
    apply Pos2Z.pos_lt_pos in H. now rewrite Pos2Z.inj_pow in H.
Qed.

Lemma iter_pos_nat {A} (f : A -> A) p x :
  iter_pos f p x = Nat.iter (Pos.to_nat p) f x.
Proof.
  revert x. induction p as [p IH | p IH |]; intro x; cbn [iter_pos].
  - rewrite !IH, Pos2Nat.inj_xI.
    replace (S (2 * Pos.to_nat p)) with (Pos.to_nat p + S (Pos.to_nat p))%nat
      by lia.
    now rewrite Nat.iter_add, Nat.iter_succ_r.
  - rewrite !IH, Pos2Nat.inj_xO.
    replace (2 * Pos.to_nat p)%nat with (Pos.to_nat p + Pos.to_nat p)%nat
      by lia.
    now rewrite Nat.iter_add.
  - reflexivity.
Qed.

(** One shift: the mantissa is halved and the round bit is the bit that
    was shifted out. *)
Lemma shr_1_spec mrs :
  0 <= shr_m mrs ->
  exists b : bool,
    shr_m mrs = 2 * shr_m (shr_1 mrs) + (if b then 1 else 0) /\
    0 <= shr_m (shr_1 mrs) /\
    shr_r (shr_1 mrs) = b.
Proof.
  destruct mrs as [m r s]. simpl. intro Hm.
  destruct m as [| [p | p |] | p]; simpl.
  - exists false. lia.
  - exists true. lia.
  - exists false. lia.
  - exists true. lia.
  - lia.
Qed.

(** [j] shifts: the mantissa is divided by [2 ^ j], and the round bit is
    set only if the remainder is at least half of [2 ^ j]. *)
Lemma shr_iter_spec m j :
  0 <= m ->
  let mrs := Nat.iter j shr_1 {| shr_m := m; shr_r := false; shr_s := false |} in
  exists rem,
    m = shr_m mrs * 2 ^ Z.of_nat j + rem /\
    0 <= rem < 2 ^ Z.of_nat j /\
    0 <= shr_m mrs /\
    (shr_r mrs = true -> 2 ^ Z.of_nat j <= 2 * rem).
Proof.
  intro Hm. induction j as [| j IH]; cbv zeta.
  - exists 0. simpl. repeat split; try lia; try discriminate.
  - cbv zeta in IH. destruct IH as (rem & Heq & Hrem & Hpos & _).
    rewrite Nat.iter_succ.
    set (mrs := Nat.iter j shr_1 _) in *.
    destruct (@shr_1_spec mrs Hpos) as (b & Hb & Hpos' & Hr).
    rewrite Nat2Z.inj_succ, Z.pow_succ_r by lia.
    set (X := 2 ^ Z.of_nat j) in *.
    assert (HX : 0 < X) by (apply Z.pow_pos_nonneg; lia).
    exists ((if b then X else 0) + rem).
    rewrite Hr. destruct b; repeat split; try nia; try discriminate.
Qed.

(** [shr]: a shift by [n] when [n] is positive, nothing otherwise. *)
Lemma shr_spec m e n :
  0 <= m ->
  exists N rem,
    0 <= N /\ (n <= N) /\ (N = 0 \/ N = n) /\
    snd (shr {| shr_m := m; shr_r := false; shr_s := false |} e n) = e + N /\
    let mrs := fst (shr {| shr_m := m; shr_r := false; shr_s := false |} e n) in
    m = shr_m mrs * 2 ^ N + rem /\
    0 <= rem < 2 ^ N /\
    0 <= shr_m mrs /\
    (shr_r mrs = true -> 2 ^ N <= 2 * rem).
Proof.
  intro Hm. unfold shr. destruct n as [| p | p].
  - exists 0, 0. simpl. repeat split; try lia; auto; discriminate.
  - destruct (@shr_iter_spec m (Pos.to_nat p) Hm) as (rem & H).
    exists (Z.pos p), rem. cbn [fst snd].
    rewrite iter_pos_nat. rewrite positive_nat_Z in H.
    repeat split; try lia; try tauto.
  - exists 0, 0. simpl. repeat split; try lia; auto; discriminate.
Qed.

Lemma round_nearest_even_spec mrs :
  let m1 := round_nearest_even (shr_m mrs) (loc_of_shr_record mrs) in
  shr_m mrs <= m1 <= shr_m mrs + 1 /\
  (m1 = shr_m mrs + 1 -> shr_r mrs = true).
Proof.
  destruct mrs as [m [] []]; simpl; try lia.
  destruct (Z.even m); lia.
Qed.

Lemma bounded_spec m e :
  bounded prec emax m e = true ->
  Z.pos m < 2 ^ 53 /\ -1074 <= e.
Proof.
  unfold bounded, canonical_mantissa, fexp, emin, prec, emax.
  intro H. apply andb_prop in H. destruct H as [H _].
  apply Z.eqb_eq in H.
  destruct (digits2_bounds m) as [_ Hd].
  split; [| lia].
  eapply Z.lt_le_trans; [exact Hd |].
  apply Z.pow_le_mono_r; lia.
Qed.

Lemma Zdigits2_le m j : 0 <= m < 2 ^ j -> 0 <= j -> Zdigits2 m <= j.
Proof.
  intros [Hm Hlt] Hj. destruct m as [| p | p]; simpl; [lia | | lia].
  destruct (digits2_bounds p) as [Hd _].
  destruct (Z_le_gt_dec (Z.pos (digits2_pos p)) j) as [H | H]; [exact H |].
  exfalso.
  assert (2 ^ j <= 2 ^ (Z.pos (digits2_pos p) - 1))
    by (apply Z.pow_le_mono_r; lia).
  lia.
Qed.

(** The product of a number of the unit interval and 0xffffffff, rounded
    to the nearest double, is a number (zero, or finite and positive) below
    0xffffffff: its integer part is at most 0xfffffffe. *)
Lemma product_spec r :
  unitInterval r ->
  SFmul prec emax r MAX_UINT32 = S754_zero false \/
  exists m2 e2,
    SFmul prec emax r MAX_UINT32 = S754_finite false m2 e2 /\
    0 <= Z.shiftl (Z.pos m2) e2 <= 4294967294.
Proof.
  change MAX_UINT32 with (S754_finite false 9007199252643840 (-21)).
  destruct r as [[] | | | [] m e]; simpl; try tauto.
  intros [Hb Hlt].
  destruct (@bounded_spec m e Hb) as [Hm He].
  assert (Hk : 0 < - e).
  { destruct (Z_lt_le_dec 0 (- e)) as [H | H]; [exact H | exfalso].
    assert (2 ^ (- e) <= 1).
    { destruct (Z.eq_dec (- e) 0) as [-> | Hne]; [simpl; lia |].
      rewrite Z.pow_neg_r by lia. lia. }
    lia. }
  unfold binary_round_aux, shr_fexp.
  cbn [shr_record_of_loc].
  set (P := Z.pos (m * 9007199252643840)).
  set (E := e + -21).
  assert (HP : P = Z.pos m * 9007199252643840)
    by (subst P; now rewrite Pos2Z.inj_mul).
  assert (HP0 : 0 <= P) by lia.
  assert (HPlt : P < 2 ^ 106)
    by (change (2 ^ 106) with (2 ^ 53 * 2 ^ 53); nia).
  set (n1 := fexp prec emax (Zdigits2 P + E) - E).
  destruct (@shr_spec P E n1 HP0)
    as (N1 & rem1 & HN1 & Hn1 & HN1' & He1 & Hdiv1 & Hrem1 & Hq1 & Hr1).
  destruct (shr {| shr_m := P; shr_r := false; shr_s := false |} E n1)
    as [mrs1 e1] eqn:Hshr1.
  cbn [fst snd] in He1, Hdiv1, Hrem1, Hq1, Hr1.
  pose proof (round_nearest_even_spec mrs1) as Hround. cbv zeta in Hround.
  set (m1 := round_nearest_even (shr_m mrs1) (loc_of_shr_record mrs1)) in *.
  destruct Hround as [Hm1 Hup].
  assert (Hm10 : 0 <= m1) by lia.
  set (n2 := fexp prec emax (Zdigits2 m1 + e1) - e1).
  destruct (@shr_spec m1 e1 n2 Hm10)
    as (N2 & rem2 & HN2 & Hn2 & HN2' & He2 & Hdiv2 & Hrem2 & Hq2 & _).
  destruct (shr {| shr_m := m1; shr_r := false; shr_s := false |} e1 n2)
    as [mrs2 e2] eqn:Hshr2.
  cbn [fst snd] in He2, Hdiv2, Hrem2, Hq2.
  (* the shift of the first rounding is at most 53 *)
  assert (HN1le : N1 <= 53).
  { destruct HN1' as [-> | ->]; [lia |].
    subst n1. unfold fexp, emin, prec, emax.
    assert (Zdigits2 P <= 106) by (apply Zdigits2_le; lia).
    subst E. lia. }
  set (A := 2 ^ N1) in *. set (B := 2 ^ N2) in *.
  assert (HA : 0 < A <= 2 ^ 53).
  { split; [apply Z.pow_pos_nonneg; lia | apply Z.pow_le_mono_r; lia]. }
  assert (HB : 0 < B) by (apply Z.pow_pos_nonneg; lia).
  (* the exponent of the result is small *)
  assert (He2le : e2 <= 971).
  { destruct HN2' as [-> | ->]; [subst E; lia |].
    subst n2. unfold fexp, emin, prec, emax in He2.
    assert (Zdigits2 m1 <= 107).
    { apply Zdigits2_le; [| lia]. split; [lia |].
      assert (m1 <= P + 1) by nia.
      change (2 ^ 107) with (2 * 2 ^ 106). lia. }
    subst E. lia. }
  destruct (shr_m mrs2) as [| m2 | m2] eqn:Hm2; [now left | right | lia].
  replace (e2 <=? emax - prec) with true
    by (symmetry; apply Z.leb_le; unfold emax, prec; lia).
  exists m2, e2. split; [reflexivity |].
  split; [apply Z.shiftl_nonneg; lia |].
  set (K := 2 ^ (- e)) in *.
  assert (HK : 0 < K) by (apply Z.pow_pos_nonneg; lia).
  (* the first rounding adds at most half of the last place *)
  assert (Hfirst : 2 * m1 * A <= 2 * P + A).
  { destruct (Z.eq_dec m1 (shr_m mrs1 + 1)) as [Heq | Hne].
    - specialize (Hr1 (Hup Heq)). nia.
    - assert (m1 = shr_m mrs1) by lia. nia. }
  assert (Hsecond : Z.pos m2 * B <= m1) by lia.
  (* the integer part, scaled *)
  set (F := Z.shiftl (Z.pos m2) e2).
  assert (He2' : e2 = N1 + N2 - (- e + 21)) by (subst E; lia).
  assert (Hfloor : F * (K * 2 ^ 21) <= Z.pos m2 * (A * B)).
  { subst F K A B.
    rewrite <- !Z.pow_add_r by lia.
    destruct (Z_le_gt_dec 0 e2) as [Hpos | Hneg].
    - rewrite Z.shiftl_mul_pow2 by lia.
      rewrite <- Z.mul_assoc, <- Z.pow_add_r by lia.
      replace (e2 + (- e + 21)) with (N1 + N2) by lia. lia.
    - rewrite Z.shiftl_div_pow2 by lia.
      replace (- e + 21) with (- e2 + (N1 + N2)) by lia.
      rewrite Z.pow_add_r by lia.
      assert (Hd : 0 < 2 ^ (- e2)) by (apply Z.pow_pos_nonneg; lia).
      pose proof (Z.mul_div_le (Z.pos m2) (2 ^ (- e2)) Hd) as Hdiv.
      assert (0 <= 2 ^ (N1 + N2)) by (apply Z.pow_nonneg; lia).
      nia. }
  destruct (Z_le_gt_dec F 4294967294) as [Hok | Hbig]; [exact Hok | exfalso].
  assert (H1 : 2 * (Z.pos m2 * (A * B)) <= 2 * P + A) by nia.
  assert (H2 : 4294967295 * (K * 2 ^ 21) <= F * (K * 2 ^ 21)).
  { apply Z.mul_le_mono_nonneg_r; [| lia].
    apply Z.mul_nonneg_nonneg; lia. }
  change (2 ^ 21) with 2097152 in *. change (2 ^ 53) with 9007199254740992 in *.
  nia.
Qed.

Lemma candidate_range r :
  unitInterval r -> 1 <= candidate r <= 0xffffffff.
Proof.
  intro Hr. unfold candidate.
  destruct (product_spec r Hr) as [-> | (m2 & e2 & -> & H)]; simpl; lia.
Qed.

(** An integer of at most 53 bits is a double, exactly. *)
Lemma iter_xO_spec p d :
  Z.pos (Pos.iter xO p d) = Z.pos p * 2 ^ Z.pos d /\
  digits2_pos (Pos.iter xO p d) = (digits2_pos p + d)%positive.
Proof.
  induction d as [| d IH] using Pos.peano_ind.
  - simpl. split; [lia |]. now rewrite Pos.add_1_r.
  - rewrite Pos.iter_succ. destruct IH as [IH1 IH2].
    rewrite Pos2Z.inj_xO, IH1, Pos2Z.inj_succ, Z.pow_succ_r by lia.
    split; [ring |]. cbn [digits2_pos]. rewrite IH2. lia.
Qed.

Lemma ofInt_spec z :
  0 < z < 2 ^ 53 ->
  exists m e,
    ofInt z = S754_finite false m e /\ Z.shiftl (Z.pos m) e = z /\
    bounded prec emax m e = true.
Proof.
  intros [Hpos Hlt]. destruct z as [| p | p]; try lia.
  unfold ofInt, binary_normalize, binary_round.
  assert (Hd : Z.pos (digits2_pos p) <= 53).
  { apply (@Zdigits2_le (Z.pos p) 53); lia. }
  assert (Hfexp : fexp prec emax (Z.pos (digits2_pos p) + 0)
                  = Z.pos (digits2_pos p) - 53)
    by (unfold fexp, emin, prec, emax; lia).
  rewrite Hfexp. unfold shl_align.
  assert (Hcanon : forall mz ez,
             Z.pos (digits2_pos mz) = 53 -> -1074 <= ez <= 971 ->
             binary_round_aux prec emax false (Z.pos mz) ez loc_Exact
             = S754_finite false mz ez).
  { intros mz ez Hdz Hez. unfold binary_round_aux, shr_fexp.
    cbn [shr_record_of_loc Zdigits2]. rewrite Hdz.
    assert (Hz : fexp prec emax (53 + ez) - ez = 0)
      by (unfold fexp, emin, prec, emax; lia).
    rewrite Hz. cbn [shr loc_of_shr_record round_nearest_even shr_m shr_r shr_s].
    cbn [Zdigits2]. rewrite Hdz, Hz.
    cbn [shr shr_m].
    now replace (ez <=? emax - prec) with true
      by (symmetry; apply Z.leb_le; unfold emax, prec; lia). }
  assert (Hbounded : forall mz ez,
             Z.pos (digits2_pos mz) = 53 -> -1074 <= ez <= 971 ->
             bounded prec emax mz ez = true).
  { intros mz ez Hdz Hez. unfold bounded, canonical_mantissa.
    rewrite Hdz. apply andb_true_intro. split.
    - apply Z.eqb_eq. unfold fexp, emin, prec, emax. lia.
    - apply Z.leb_le. unfold emax, prec. lia. }
  destruct (Z.pos (digits2_pos p) - 53 - 0) as [| d | d] eqn:Hshift.
  - rewrite Hcanon by lia. exists p, 0. split; [reflexivity |].
    split; [now rewrite Z.shiftl_0_r | apply Hbounded; lia].
  - lia.
  - destruct (iter_xO_spec p d) as [Hval Hdig].
    rewrite Hcanon; [| rewrite Hdig; lia | lia].
    eexists _, _. split; [reflexivity |].
    split; [| apply Hbounded; [rewrite Hdig; lia | lia]].
    rewrite Z.shiftl_div_pow2 by lia.
    rewrite Hval.
    replace (- (Z.pos (digits2_pos p) - 53)) with (Z.pos d) by lia.
    apply Z.div_mul. apply Z.pow_nonzero; lia.
Qed.

Lemma ofInt_not_zero z s :
  0 < z < 2 ^ 53 -> SFeqb (ofInt z) (S754_zero s) = false.
Proof.
  intro Hz. destruct (@ofInt_spec z Hz) as (m & e & -> & _). reflexivity.
Qed.

End Doubles.

Section AuthToken.
Import ErgoApp.
Local Open Scope Z_scope.

Lemma newAuthToken_spec current draws t rest :
  Forall unitInterval draws ->
  newAuthToken current draws = Some (t, rest) ->
  (exists z, t = ofInt z /\ 1 <= z <= 0xffffffff /\ floor t = z) /\
  isNumber t /\
  SFeqb t current = false /\
  SFeqb t (S754_zero false) = false /\
  exists collided r,
    draws = collided ++ r :: rest /\ t = ofInt (candidate r) /\
    Forall (fun c => SFeqb (ofInt (candidate c)) current = true) collided.
Proof.
  induction 1 as [| r draws Hr _ IH]; simpl; [discriminate |].
  destruct (SFeqb (ofInt (candidate r)) current) eqn:Hc.
  - intro H.
    destruct (IH H)
      as (Hrange & Hvalid & Hne & Hnz & collided & r' & -> & Ht & Hall).
    repeat split; try assumption.
    exists (r :: collided), r'. repeat split; auto.
  - intro H. inversion H; subst.
    pose proof (@candidate_range r Hr) as Hrange.
    assert (Hz : 0 < candidate r < 2 ^ 53)
      by (change (2 ^ 53) with 9007199254740992; lia).
    destruct (@ofInt_spec _ Hz) as (m & e & Hof & Hfl & Hbounded).
    split.
    { exists (candidate r). split; [reflexivity |]. split; [exact Hrange |].
      now rewrite Hof. }
    split; [unfold isNumber; now rewrite Hof |].
    split; [exact Hc |]. split; [now apply ofInt_not_zero |].
    exists [], r. repeat split; auto.
Qed.

Lemma newAuthToken_returns current draws :
  Exists (fun r => SFeqb (ofInt (candidate r)) current = false) draws ->
  exists t rest, newAuthToken current draws = Some (t, rest).
Proof.
  induction draws as [| r draws IH]; intro H; [inversion H |].
  simpl. destruct (SFeqb (ofInt (candidate r)) current) eqn:Hc; [| eauto].
  apply IH. inversion H; subst; [congruence | assumption].
Qed.

(** C9.  A token produced by [newAuthToken] from results of [Math.random],
    whatever number the current token is, is an integer of at least 1 and at
    most 0xffffffff, held exactly as a number; it is not 0 and differs from
    the token it replaces; a candidate
    equal to the current token is dropped and the next one drawn; the
    generator returns as soon as a draw gives another candidate; and the
    constructor given the token 0 (of either sign) replaces it at once, at
    the first draw, with a generated token, while it keeps any other number
    it is given.  The candidate is computed as the code computes it, in
    doubles: the product of the draw and 0xffffffff is rounded to the
    nearest double before its integer part is taken. *)
Theorem auth_token_generated :
  (forall current draws t rest,
     isNumber current ->
     Forall unitInterval draws ->
     newAuthToken current draws = Some (t, rest) ->
     (exists z, t = ofInt z /\ 1 <= z <= 0xffffffff /\ floor t = z) /\
     isNumber t /\
     SFeqb t current = false /\
     SFeqb t (S754_zero false) = false /\
     exists collided r,
       draws = collided ++ r :: rest /\ t = ofInt (candidate r) /\
       Forall (fun c => SFeqb (ofInt (candidate c)) current = true) collided) /\
  (forall current r draws,
     isNumber current ->
     SFeqb (ofInt (candidate r)) current = true ->
     newAuthToken current (r :: draws) = newAuthToken current draws) /\
  (forall current draws,
     isNumber current ->
     Exists (fun r => SFeqb (ofInt (candidate r)) current = false) draws ->
     exists t rest, newAuthToken current draws = Some (t, rest)) /\
  (forall sign r draws,
     unitInterval r ->
     constructor (S754_zero sign) (r :: draws)
     = Some (ofInt (candidate r), draws) /\
     1 <= candidate r <= 0xffffffff /\
     (SFmul prec emax r MAX_UINT32 = S754_zero false \/
      exists m e, SFmul prec emax r MAX_UINT32 = S754_finite false m e)) /\
  (forall authToken draws,
     isNumber authToken ->
     SFeqb authToken (S754_zero false) = false ->
     constructor authToken draws = Some (authToken, draws)).
Proof.
  split; [intros current draws t rest _; apply newAuthToken_spec |].
  split; [| split; [intros current draws _; apply newAuthToken_returns | split]].
  - intros current r draws _ Hc. simpl. now rewrite Hc.
  - intros sign r draws Hr.
    pose proof (@candidate_range r Hr) as Hrange.
    assert (Hz : 0 < candidate r < 2 ^ 53)
      by (change (2 ^ 53) with 9007199254740992; lia).
    split; [| split; [exact Hrange |]].
    + unfold constructor.
      replace (SFeqb (S754_zero sign) (S754_zero false)) with true
        by (now destruct sign).
      simpl. now rewrite (@ofInt_not_zero (candidate r) sign Hz).
    + destruct (@product_spec r Hr) as [H | (m & e & H & _)]; eauto.
  - intros authToken draws _ Hne. unfold constructor. now rewrite Hne.
Qed.

End AuthToken.

(* ================================================================== *)
(** * The properties on the sample inputs *)

(** A run on the sample transaction: the device names the session 7 and
    every later command carries 7. *)
Lemma session_id_on_sample :
  let t := trace Sample.accepting
             (SignTx.signTx (platform := Sample.platform)
                Sample.tx Sample.signPath 0%Z None) in
  cmd_p1 (hd Sample.noCommand t) = P1.START_SIGNING /\
  Forall (fun c => cmd_p2 c = firstByte (Sample.accepting [] (hd Sample.noCommand t)))
         (tl t).
Proof.
  intro t.
  apply (session_id_scopes_every_later_command (platform := Sample.platform)
           Sample.accepting Sample.tx Sample.signPath 0%Z None).
  vm_compute. reflexivity.
Defined.


(** The two miner-fee constants are both announced as a fee tree in a
    session of network 0, so that no one constant per network decides the
    class; and a change output without a change path gets no tree command
    at all. *)
Lemma fee_class_ignores_network :
  (~ exists feeScriptOf : Network -> string,
       forall network box,
         In P1.ADD_OUTPUT_BOX_MINERS_FEE_TREE
            (map cmd_p1
               (snd (run Sample.accepting
                       (SignTx.sendOutputBox (platform := Sample.platform)
                          (Some 7%Z) Sample.change [] network box) [])))
         <-> Deserialize.hex (ergoTree box) = feeScriptOf network) /\
  Forall (fun c => ~ isTreeCommand c)
    (snd (run Sample.accepting
            (SignTx.sendOutputBox (platform := Sample.platform)
               (Some 7%Z) Sample.changeWithoutPath [] 0%Z Sample.changeBox) [])).
Proof.
  split.
  - intros [feeScriptOf H].
    assert (H1 : Deserialize.hex (ergoTree Sample.mainnetFeeBox) = feeScriptOf 0%Z)
      by (apply (proj1 (H 0%Z Sample.mainnetFeeBox)); vm_compute; tauto).
    assert (H2 : Deserialize.hex (ergoTree Sample.testnetFeeBox) = feeScriptOf 0%Z)
      by (apply (proj1 (H 0%Z Sample.testnetFeeBox)); vm_compute; tauto).
    rewrite <- H2 in H1. vm_compute in H1. discriminate H1.
  - vm_compute. constructor; [| constructor].
    intros [H | [H | H]]; discriminate H.
Qed.

(** The testnet fee script in a session of network 0: a fee-tree command
    with the network byte, and nothing of the script. *)
Lemma classification_on_sample :
  let cs := snd (run Sample.accepting
                   (SignTx.sendOutputBox (platform := Sample.platform)
                      (Some 7%Z) Sample.change [] 0%Z Sample.testnetFeeBox) []) in
  Forall (treePolicy (platform := Sample.platform) Sample.change 0%Z
            Sample.testnetFeeBox) cs /\
  exists header tree rest,
    cs = command P1.ADD_OUTPUT_BOX_START (Some 7%Z) header :: tree ++ rest /\
    Forall afterTreeCommand rest /\
    (isFeeScript Sample.testnetFeeBox ->
     tree = [command P1.ADD_OUTPUT_BOX_MINERS_FEE_TREE (Some 7%Z) [byteOfZ 0]]).
Proof.
  intro cs.
  destruct (output_tree_classification (platform := Sample.platform)
              Sample.accepting [] (Some 7%Z) [] Sample.testnetFeeBox)
    as [Hfirst _].
  destruct (Hfirst Sample.change 0%Z (inr tt) cs) as [Hpolicy Hret];
    [vm_compute; reflexivity |].
  split; [exact Hpolicy |].
  destruct (Hret tt eq_refl) as (header & tree & rest & Hcs & Hrest & Hfee & _).
  exists header, tree, rest. auto.
Defined.

(** The sample change output: the change path goes out, the script does
    not. *)
Lemma change_output_on_sample :
  let cs := snd (run Sample.accepting
                   (SignTx.sendOutputBox (platform := Sample.platform)
                      (Some 7%Z) Sample.change ["aa01"; "bb02"]%string 0%Z
                      Sample.changeBox) []) in
  Forall (fun c =>
            cmd_p1 c <> P1.ADD_OUTPUT_BOX_ERGO_TREE_CHUNK /\
            cmd_p1 c <> P1.ADD_OUTPUT_BOX_MINERS_FEE_TREE /\
            (cmd_p1 c = P1.ADD_OUTPUT_BOX_CHANGE_TREE ->
             exists p, path Sample.change = Some p /\
                       bip32Path (platform := Sample.platform) p
                       = inr (cmd_data c)))
         cs /\
  (forall a : unit, (inr tt : Res unit) = inr a ->
     exists header p payload rest,
       path Sample.change = Some p /\
       bip32Path (platform := Sample.platform) p = inr payload /\
       cs = command P1.ADD_OUTPUT_BOX_START (Some 7%Z) header
            :: command P1.ADD_OUTPUT_BOX_CHANGE_TREE (Some 7%Z) payload :: rest /\
       Forall afterTreeCommand rest).
Proof.
  intro cs.
  apply (@change_output_sends_path_only Sample.platform
           Sample.accepting [] (Some 7%Z) Sample.change
           ["aa01"; "bb02"]%string 0%Z Sample.changeBox (inr tt) cs).
  - intros [H | H]; vm_compute in H; discriminate H.
  - vm_compute. reflexivity.
  - vm_compute. reflexivity.
Defined.

(** A missing change path and a stray token are found out after the
    device has received commands: seven and eight of them. *)
Lemma malformed_input_after_device_traffic :
  result Sample.accepting
    (SignTx.signTx (platform := Sample.platform)
       Sample.txWithoutChangePath Sample.signPath 0%Z None)
  = inl (Malformed ChangePathNotPresent) /\
  length (trace Sample.accepting
            (SignTx.signTx (platform := Sample.platform)
               Sample.txWithoutChangePath Sample.signPath 0%Z None)) = 7%nat /\
  result Sample.accepting
    (SignTx.signTx (platform := Sample.platform)
       Sample.txWithStrayToken Sample.signPath 0%Z None)
  = inl (Malformed IntegerOutOfRange) /\
  length (trace Sample.accepting
            (SignTx.signTx (platform := Sample.platform)
               Sample.txWithStrayToken Sample.signPath 0%Z None)) = 8%nat.
Proof. vm_compute. repeat split; reflexivity. Qed.

(** On the sample without a change path the error comes right after the
    start command of the change output; the sample output with a stray
    token sends its start command and no tokens command. *)
Lemma malformed_input_on_sample :
  (exists hdr st mid start,
     trace Sample.accepting
       (SignTx.signTx (platform := Sample.platform)
          Sample.txWithoutChangePath Sample.signPath 0%Z None)
     = hdr :: st :: mid ++ [start] /\
     phase hdr = 1%nat /\ phase st = 2%nat /\
     cmd_p1 start = P1.ADD_OUTPUT_BOX_START) /\
  (let cs := snd (run Sample.accepting
                    (SignTx.sendOutputBox (platform := Sample.platform)
                       (Some 7%Z) Sample.change ["aa01"]%string 0%Z
                       Sample.strayTokenBox) []) in
   Forall (fun c => cmd_p1 c <> P1.ADD_OUTPUT_BOX_TOKENS) cs /\
   exists header rest,
     cs = command P1.ADD_OUTPUT_BOX_START (Some 7%Z) header :: rest) /\
  result Sample.accepting
    (SignTx.signTx (platform := Sample.platform)
       Sample.txWithoutChangePath Sample.signPath 0%Z None)
  = inl (Malformed ChangePathNotPresent) /\
  result Sample.accepting
    (SignTx.signTx (platform := Sample.platform)
       Sample.txWithStrayToken Sample.signPath 0%Z None)
  = inl (Malformed IntegerOutOfRange).
Proof.
  destruct (malformed_input_found_at_its_step (platform := Sample.platform))
    as (Hpath & Htoken & Hraised & Hstray).
  split; [| split; [| split]].
  - apply Hpath. vm_compute. reflexivity.
  - intro cs.
    destruct (Htoken Sample.accepting [] (Some 7%Z) Sample.change
                ["aa01"]%string 0%Z Sample.strayTokenBox
                {| id := "cc03"; amount := 1 |}
                (fst (run Sample.accepting
                        (SignTx.sendOutputBox (platform := Sample.platform)
                           (Some 7%Z) Sample.change ["aa01"]%string 0%Z
                           Sample.strayTokenBox) []))
                cs)
      as (_ & Hsent & Hstart).
    + vm_compute. auto.
    + vm_compute. reflexivity.
    + vm_compute. reflexivity.
    + split; [exact Hsent |].
      eexists. apply Hstart. vm_compute. reflexivity.
  - destruct (Hraised Sample.accepting Sample.txWithoutChangePath
                Sample.signPath 0%Z None [] Sample.changeBox [] (Some 7%Z)
                (snd (run Sample.accepting
                        (stepsBefore (platform := Sample.platform)
                           Sample.txWithoutChangePath Sample.signPath 0%Z None [])
                        []))
                (match outputHeader Sample.changeBox with
                 | inr header => header
                 | inl _ => []
                 end))
      as (_ & _ & Hresult).
    + reflexivity.
    + vm_compute. reflexivity.
    + intros [H | H]; vm_compute in H; discriminate H.
    + vm_compute. reflexivity.
    + reflexivity.
    + vm_compute. reflexivity.
    + exact Hresult.
  - destruct (Hstray Sample.accepting Sample.txWithStrayToken
                Sample.signPath 0%Z None [] Sample.strayTokenBox [] (Some 7%Z)
                (snd (run Sample.accepting
                        (stepsBefore (platform := Sample.platform)
                           Sample.txWithStrayToken Sample.signPath 0%Z None [])
                        []))
                {| id := "cc03"; amount := 1 |})
      as (e & cs & Hbody & _ & _ & Hresult & _ & _ & Herror).
    + reflexivity.
    + vm_compute. reflexivity.
    + vm_compute. auto.
    + vm_compute. reflexivity.
    + rewrite Hresult. f_equal. apply Herror.
      * vm_compute in Hbody. injection Hbody as _ <-.
        vm_compute. auto.
      * right. left. intro H. vm_compute in H. discriminate H.
Defined.


(** Eight data-input ids: a packet of seven and a packet of one. *)
Lemma count_bounded_packets_on_sample :
  exists batches,
    concat batches = Sample.eightIds /\
    Forall (fun b => b <> [] /\ (length b <= 7)%nat) batches /\
    Forall2 (fun batch packet =>
               Serialize.array batch (fun id => Serialize.hex id) = inr packet)
            batches Sample.eightIdsPackets /\
    Serialize.array Sample.eightIds (fun id => Serialize.hex id)
    = inr (concat Sample.eightIdsPackets).
Proof.
  destruct (count_bounded_packets (platform := Sample.platform)) as [Hpackets _].
  apply (Hpackets string (fun id => Serialize.hex id) Sample.eightIds
           Sample.eightIdsPackets).
  vm_compute. reflexivity.
Defined.

(** The start-signing command of the sample run, without a token and with
    the token 9. *)
Lemma start_signing_on_sample :
  let pathBytes :=
    match bip32Path (platform := Sample.platform) Sample.signPath with
    | inr b => b
    | inl _ => []
    end in
  (exists rest,
     trace Sample.accepting
       (SignTx.signTx (platform := Sample.platform)
          Sample.tx Sample.signPath 16%Z None)
     = command P1.START_SIGNING (Some P2.WITHOUT_TOKEN) pathBytes :: rest) /\
  (exists rest,
     trace Sample.accepting
       (SignTx2.signTx (platform := Sample.platform)
          Sample.tx2 Sample.signPath 16%Z (Some 9%Z))
     = command P1.START_SIGNING (Some P2.WITH_TOKEN)
         (bigEndian 1 16 ++ pathBytes ++ bigEndian 4 9) :: rest).
Proof.
  intro pathBytes.
  assert (Hpath : bip32Path (platform := Sample.platform) Sample.signPath
                  = inr pathBytes) by (vm_compute; reflexivity).
  split.
  - destruct (@start_signing_payload Sample.platform Sample.accepting
                Sample.signPath 16%Z None pathBytes Hpath) as [Hfirst _].
    apply (proj1 (Hfirst Sample.tx)). reflexivity.
  - destruct (@start_signing_payload Sample.platform Sample.accepting
                Sample.signPath 16%Z (Some 9%Z) pathBytes Hpath) as [_ Hsecond].
    apply (proj2 (Hsecond Sample.tx2 eq_refl) 9%Z eq_refl).
    + discriminate.
    + reflexivity.
Defined.

(** In [signTx.ts] the start-signing command is the same for the networks
    0 and 16, and its payload is the encoded path and nothing else. *)
Lemma start_signing_without_network_tag :
  exists hdr rest0 rest16,
    trace Sample.accepting
      (SignTx.signTx (platform := Sample.platform)
         Sample.tx Sample.signPath 0%Z None) = hdr :: rest0 /\
    trace Sample.accepting
      (SignTx.signTx (platform := Sample.platform)
         Sample.tx Sample.signPath 16%Z None) = hdr :: rest16 /\
    bip32Path (platform := Sample.platform) Sample.signPath = inr (cmd_data hdr).
Proof.
  vm_compute. eexists _, _, _. repeat split; reflexivity.
Qed.

(** With the token 5 in place and a first draw that gives 5 again, the
    generator draws once more: the draw 1/2 + 2^-33 gives 2147483649, the
    product having been rounded up to 2^31. *)
Lemma auth_token_on_sample :
  (exists z,
     ErgoApp.ofInt 2147483649 = ErgoApp.ofInt z /\
     (1 <= z <= 0xffffffff)%Z /\
     ErgoApp.floor (ErgoApp.ofInt 2147483649) = z) /\
  ErgoApp.isNumber (ErgoApp.ofInt 2147483649) /\
  SFeqb (ErgoApp.ofInt 2147483649) (ErgoApp.ofInt 5) = false /\
  SFeqb (ErgoApp.ofInt 2147483649) (S754_zero false) = false /\
  exists collided r,
    Sample.draws = collided ++ r :: [] /\
    ErgoApp.ofInt 2147483649 = ErgoApp.ofInt (ErgoApp.candidate r) /\
    Forall (fun c => SFeqb (ErgoApp.ofInt (ErgoApp.candidate c))
                           (ErgoApp.ofInt 5) = true) collided.
Proof.
  apply (proj1 auth_token_generated (ErgoApp.ofInt 5) Sample.draws
           (ErgoApp.ofInt 2147483649) []).
  - vm_compute. reflexivity.
  - repeat constructor; vm_compute; reflexivity.
  - vm_compute. reflexivity.
Defined.

(** The two sample inputs: two frames and one extension slice, then one
    frame and, the extension being empty, nothing more. *)
Lemma inputs_on_sample :
  snd (run Sample.accepting
         (SignTx.sendInputs (platform := Sample.platform) (Some 7%Z)
            [Sample.input1; Sample.input2]) [])
  = flat_map (inputCommands (platform := Sample.platform) (Some 7%Z))
             [Sample.input1; Sample.input2] /\
  inputCommands (platform := Sample.platform) (Some 7%Z) Sample.input2
  = map (fun frame => command P1.ADD_INPUT_BOX_FRAME (Some 7%Z) (buffer frame))
        (frames Sample.input2) /\
  exists c cs,
    extensionCommands (platform := Sample.platform) (Some 7%Z)
      (extension Sample.input1) = c :: cs /\
    Forall (fun c => cmd_p1 c = P1.ADD_INPUT_BOX_CONTEXT_EXTENSION_CHUNK)
           (c :: cs) /\
    concat (map cmd_data (c :: cs)) = [x09; x09].
Proof.
  destruct (inputs_frames_then_extension (platform := Sample.platform)
              (Some 7%Z) [Sample.input1; Sample.input2])
    as (Hfirst & _ & Hnone & Hsome).
  split; [| split].
  - destruct (Hfirst Sample.accepting []) as [_ Hall].
    apply (Hall tt). vm_compute. reflexivity.
  - apply Hnone. right. reflexivity.
  - apply (Hsome Sample.input1 [x09; x09]).
    + vm_compute. repeat constructor.
    + reflexivity.
    + discriminate.
Defined.

(* ================================================================== *)
(** * The second variant: scoping, order, abort *)

Section SecondVariantConforms.
Context {platform : Platform}.
Import SignTx2.

Variable sessionId : option Z.

Lemma sendHeader2_conforms network path authToken :
  Conforms RETURN_CODE_OK
    (fun c => cmd_ins c = SIGN_TX /\ phase c = 1%nat) encoderError
    (sendHeader network path authToken).
Proof. unfold sendHeader. conforms. Qed.

Lemma sendStartTx2_conforms tx n :
  Conforms RETURN_CODE_OK (inPhase 2 sessionId) encoderError
    (sendStartTx sessionId tx n).
Proof. unfold sendStartTx. conforms. Qed.

Lemma sendDistinctTokensIds2_conforms ids :
  Conforms RETURN_CODE_OK (inPhase 3 sessionId) encoderError
    (sendDistinctTokensIds sessionId ids).
Proof. unfold sendDistinctTokensIds. conforms. Qed.

Lemma sendInputs2_conforms inputBoxes :
  Conforms RETURN_CODE_OK (inPhase 4 sessionId) encoderError
    (sendInputs sessionId inputBoxes).
Proof. unfold sendInputs, sendBoxContextExtension. conforms. Qed.

Lemma sendDataInputs2_conforms boxIds :
  Conforms RETURN_CODE_OK (inPhase 5 sessionId) encoderError
    (sendDataInputs sessionId boxIds).
Proof. unfold sendDataInputs. conforms. Qed.

Lemma sendOutputs2_conforms boxes changeMap ids :
  Conforms RETURN_CODE_OK (inPhase 6 sessionId) encoderError
    (sendOutputs sessionId boxes changeMap ids).
Proof.
  unfold sendOutputs, sendOutputBox, addOutputBoxMinersFeeTree,
    addOutputBoxChangeTree, addOutputBoxErgoTree, addOutputBoxTokens,
    addOutputBoxRegisters.
  conforms.
Qed.

Lemma sendConfirmAndSign2_conforms :
  Conforms RETURN_CODE_OK (inPhase 7 sessionId) encoderError
    (sendConfirmAndSign sessionId).
Proof. unfold sendConfirmAndSign. conforms. Qed.

Lemma afterHeader2_conforms tx :
  Conforms RETURN_CODE_OK
    (fun c => cmd_ins c = SIGN_TX /\ cmd_p2 c = sessionId) encoderError
    (sendStartTx sessionId tx (Z.of_nat (length (distinctTokenIds tx))) ;;
     sendDistinctTokensIds sessionId (distinctTokenIds tx) ;;
     sendInputs sessionId (inputs tx) ;;
     sendDataInputs sessionId (dataInputs tx) ;;
     sendOutputs sessionId (outputs tx) (changeMap tx) (distinctTokenIds tx) ;;
     proof <- sendConfirmAndSign sessionId ;;
     Ret proof).
Proof.
  assert (HC : forall n c, inPhase n sessionId c ->
                           cmd_ins c = SIGN_TX /\ cmd_p2 c = sessionId)
    by (unfold inPhase; tauto).
  apply Conforms_bind;
    [eapply Conforms_mono; [apply HC | | apply sendStartTx2_conforms]; auto
    | intros _].
  apply Conforms_bind;
    [eapply Conforms_mono; [apply HC | | apply sendDistinctTokensIds2_conforms]; auto
    | intros _].
  apply Conforms_bind;
    [eapply Conforms_mono; [apply HC | | apply sendInputs2_conforms]; auto
    | intros _].
  apply Conforms_bind;
    [eapply Conforms_mono; [apply HC | | apply sendDataInputs2_conforms]; auto
    | intros _].
  apply Conforms_bind;
    [eapply Conforms_mono; [apply HC | | apply sendOutputs2_conforms]; auto
    | intros _].
  apply Conforms_bind;
    [eapply Conforms_mono; [apply HC | | apply sendConfirmAndSign2_conforms]; auto
    | intro; apply Conforms_Ret].
Qed.

End SecondVariantConforms.

Section SecondVariantSession.
Context {platform : Platform}.
Import SignTx2.

Lemma signTx2_conforms tx signPath network authToken :
  Conforms RETURN_CODE_OK (fun c => cmd_ins c = SIGN_TX) encoderError
    (signTx tx signPath network authToken).
Proof.
  unfold signTx. apply Conforms_bind.
  - eapply Conforms_mono; [| | apply sendHeader2_conforms]; simpl; tauto.
  - intro sessionId.
    eapply Conforms_mono; [| | apply afterHeader2_conforms]; simpl; tauto.
Qed.

(** In the second variant too the session id is the first byte of the
    response to the start-signing command, and every command sent after it
    in the same run carries that value as its P2. *)
Theorem second_variant_session_id_scopes
    dev tx signPath network authToken hdr later :
  trace dev (signTx tx signPath network authToken) = hdr :: later ->
  cmd_p1 hdr = P1.START_SIGNING /\
  Forall (fun c => cmd_ins c = SIGN_TX /\
                   cmd_p2 c = firstByte (dev [] hdr)) later.
Proof.
  unfold trace, signTx. rewrite run_bind.
  unfold sendHeader at 1. rewrite run_encode_send.
  destruct (res_concat _) as [e | payload]; [discriminate |].
  cbv zeta.
  set (c := {| cmd_ins := SIGN_TX; cmd_p1 := P1.START_SIGNING;
               cmd_p2 := _; cmd_data := payload |}).
  destruct (returnCode (dev [] c) =? RETURN_CODE_OK)%Z.
  - pose proof (Conforms_run (afterHeader2_conforms (firstByte (dev [] c)) tx)
                  dev ([] ++ [c])) as [HF _].
    destruct (run dev _ ([] ++ [c])) as [r cs]. simpl in *.
    intro H. inversion H; subst. split; [reflexivity | exact HF].
  - simpl. intro H. inversion H; subst. split; [reflexivity | constructor].
Qed.

Lemma signTx2_staged dev tx signPath network authToken :
  staged [oneOfPhase 1; oneOfPhase 2; allOfPhase 3; allOfPhase 4;
          allOfPhase 5; allOfPhase 6; oneOfPhase 7]
         (trace dev (signTx tx signPath network authToken)).
Proof.
  unfold trace, signTx.
  apply staged_bind;
    [intro; now apply oneOfPhase_encode_send | intros sessionId log0
    | repeat constructor; auto using oneOfPhase_nil, allOfPhase_nil ].
  apply staged_bind;
    [intro; now apply oneOfPhase_encode_send | intros _ log1
    | repeat constructor; auto using oneOfPhase_nil, allOfPhase_nil ].
  apply staged_bind;
    [intro; eapply allOfPhase_run, sendDistinctTokensIds2_conforms | intros _ log2
    | repeat constructor; auto using oneOfPhase_nil, allOfPhase_nil ].
  apply staged_bind;
    [intro; eapply allOfPhase_run, sendInputs2_conforms | intros _ log3
    | repeat constructor; auto using oneOfPhase_nil, allOfPhase_nil ].
  apply staged_bind;
    [intro; eapply allOfPhase_run, sendDataInputs2_conforms | intros _ log4
    | repeat constructor; auto using oneOfPhase_nil, allOfPhase_nil ].
  apply staged_bind;
    [intro; eapply allOfPhase_run, sendOutputs2_conforms | intros _ log5
    | repeat constructor; auto using oneOfPhase_nil, allOfPhase_nil ].
  apply staged_last. intro log.
  unfold sendConfirmAndSign. rewrite run_bind, run_send_then. simpl.
  destruct (returnCode _ =? RETURN_CODE_OK)%Z; simpl;
    (split; [now repeat constructor | simpl; lia]).
Qed.

(** The second variant sends its commands in the order of the steps; a
    command answered with a non-success status is the last one sent and the
    run ends with the rejection that carries that status; and the variant
    never raises the missing-change-path error. *)
Theorem second_variant_ordered_and_aborting dev tx signPath network authToken :
  staged [oneOfPhase 1; oneOfPhase 2; allOfPhase 3; allOfPhase 4;
          allOfPhase 5; allOfPhase 6; oneOfPhase 7]
         (trace dev (signTx tx signPath network authToken)) /\
  (forall pre c post,
     trace dev (signTx tx signPath network authToken) = pre ++ c :: post ->
     returnCode (dev pre c) <> RETURN_CODE_OK ->
     post = [] /\
     result dev (signTx tx signPath network authToken)
       = inl (DeviceRejection (returnCode (dev pre c)))) /\
  result dev (signTx tx signPath network authToken)
    <> inl (Malformed ChangePathNotPresent).
Proof.
  split; [apply signTx2_staged |].
  destruct (Conforms_run (signTx2_conforms tx signPath network authToken) dev [])
    as [_ Hout].
  split.
  - intros pre c post Htrace Hrej.
    exact (@outcome_abort _ _ dev [] _ _ _ pre c post Hout Htrace Hrej).
  - unfold result. intro H. rewrite H in Hout. simpl in Hout.
    destruct Hout as [Hne _]. now apply Hne.
Qed.

End SecondVariantSession.

(* ================================================================== *)
(** * Whole runs of the first variant *)

Section WholeRuns.
Context {platform : Platform}.
Import SignTx.

Lemma res_concat_values parts payload :
  res_concat parts = inr payload ->
  exists values,
    Forall2 (fun p v => p = inr v) parts values /\ payload = concat values.
Proof.
  revert payload.
  induction parts as [| p rest IH]; intros payload H; simpl in H.
  - inversion H. exists []. split; [constructor | reflexivity].
  - destruct p as [e | b]; [discriminate |]. simpl in H.
    destruct (res_concat rest) as [e | more]; [discriminate |].
    inversion H. destruct (IH more eq_refl) as (values & HF & ->).
    exists (b :: values). split; [now constructor | reflexivity].
Qed.

(** The start-signing payload of the first variant, when it encodes. *)
Lemma header_payload_value signPath authToken payload :
  res_concat
    [ bip32Path signPath;
      if truthy authToken
      then Serialize.uint32 (match authToken with Some t => t | None => 0%Z end)
      else inr [] ] = inr payload ->
  exists pathBytes,
    bip32Path signPath = inr pathBytes /\
    payload = pathBytes ++ authTokenBytes authToken.
Proof.
  intro H. apply res_concat_values in H. destruct H as (values & HF & ->).
  inversion HF as [| p1 v1 l1 l1' H1 HF1]; subst.
  inversion HF1 as [| p2 v2 l2 l2' H2 HF2]; subst.
  inversion HF2; subst.
  exists v1. split; [exact H1 |].
  cbn [concat]. rewrite app_nil_r. f_equal.
  unfold authTokenBytes, truthy in *.
  destruct authToken as [t |]; [| now inversion H2].
  destruct (t =? 0)%Z; simpl in H2; [now inversion H2 |].
  apply uint_value in H2. now destruct H2 as [-> _].
Qed.

(** The start-transaction payload, when it encodes: the four counts fit. *)
Lemma startTx_payload_value (tx : AttestedTx) n payload :
  res_concat
    [ Serialize.uint16 (Z.of_nat (length (inputs tx)));
      Serialize.uint16 (Z.of_nat (length (dataInputs tx)));
      Serialize.uint8 (Z.of_nat n);
      Serialize.uint16 (Z.of_nat (length (outputs tx))) ] = inr payload ->
  payload = startTxPayload (length (inputs tx)) (length (dataInputs tx)) n
              (length (outputs tx)) /\
  (Z.of_nat (length (inputs tx)) < 65536 /\
   Z.of_nat (length (dataInputs tx)) < 65536 /\
   Z.of_nat n < 256 /\ Z.of_nat (length (outputs tx)) < 65536)%Z.
Proof.
  intro H. apply res_concat_values in H. destruct H as (values & HF & ->).
  inversion HF as [| p1 v1 l1 l1' H1 HF1]; subst.
  inversion HF1 as [| p2 v2 l2 l2' H2 HF2]; subst.
  inversion HF2 as [| p3 v3 l3 l3' H3 HF3]; subst.
  inversion HF3 as [| p4 v4 l4 l4' H4 HF4]; subst.
  inversion HF4; subst.
  apply uint_value in H1, H2, H3, H4.
  destruct H1 as [-> F1], H2 as [-> F2], H3 as [-> F3], H4 as [-> F4].
  split.
  - unfold startTxPayload. cbn [concat]. now rewrite app_nil_r.
  - unfold fitsUnsigned in *.
    apply andb_true_iff in F1, F2, F3, F4.
    destruct F1 as [_ F1], F2 as [_ F2], F3 as [_ F3], F4 as [_ F4].
    apply Z.ltb_lt in F1, F2, F3, F4.
    change (2 ^ (8 * Z.of_nat 2))%Z with 65536%Z in *.
    change (2 ^ (8 * Z.of_nat 1))%Z with 256%Z in *.
    lia.
Qed.

Lemma sendDistinctTokensIds_follows sessionId ids packets :
  Serialize.arrayAndChunk ids 7 (fun id => inr id) = inr packets ->
  Follows (sendDistinctTokensIds sessionId ids)
          (map (command P1.ADD_TOKEN_IDS sessionId) packets).
Proof.
  intro H. unfold sendDistinctTokensIds, MAX_PACKET_SIZE.
  destruct ids as [| x ids]; simpl (length _ =? 0)%nat; cbv iota.
  - unfold Serialize.arrayAndChunk in H. rewrite chunk_nil in H.
    inversion H. apply Follows_Ret.
  - rewrite H. simpl liftRes. cbn [bind]. apply Follows_forEach_send.
Qed.

Lemma sendDataInputs_returns dev sessionId boxIds log a cs :
  run dev (sendDataInputs sessionId boxIds) log = (inr a, cs) ->
  exists packets,
    Serialize.arrayAndChunk boxIds 7 (fun id => Serialize.hex id) = inr packets /\
    cs = map (command P1.ADD_DATA_INPUTS sessionId) packets.
Proof.
  unfold sendDataInputs, MAX_PACKET_SIZE. intro Hrun.
  destruct (Serialize.arrayAndChunk boxIds 7 _) as [e | packets] eqn:Hp.
  - simpl in Hrun. discriminate.
  - exists packets. split; [reflexivity |].
    simpl liftRes in Hrun. cbn [bind] in Hrun.
    eapply Follows_returns in Hrun; [| apply Follows_forEach_send].
    exact Hrun.
Qed.

Lemma sendInputs_follows sessionId inputBoxes :
  Follows (sendInputs sessionId inputBoxes)
          (flat_map (inputCommands sessionId) inputBoxes).
Proof.
  unfold sendInputs, sendBoxContextExtension.
  apply Follows_forEach. intro box. apply inputBody_follows.
Qed.

(** A run of [signTx] that returns has sent the whole transaction: the
    start-signing command with the encoded path and the optional token, the
    start-transaction command with the four counts, one command per packet
    of token ids, the commands of every input, one command per packet of
    data-input ids, the commands of every output, and confirm-and-sign, in
    this order and nothing else; the bytes returned are the data of the
    response to the last command. *)
Theorem returning_run_sends_whole_transaction
    dev tx signPath network authToken signBytes :
  result dev (signTx tx signPath network authToken) = inr signBytes ->
  exists pathBytes tokenPackets dataPackets hdr sessionId body,
    bip32Path signPath = inr pathBytes /\
    Serialize.arrayAndChunk (distinctTokenIds tx) 7 (fun id => inr id)
      = inr tokenPackets /\
    Serialize.arrayAndChunk (dataInputs tx) 7 (fun id => Serialize.hex id)
      = inr dataPackets /\
    hdr = command P1.START_SIGNING
            (Some (if truthy authToken then P2.WITH_TOKEN else P2.WITHOUT_TOKEN))
            (pathBytes ++ authTokenBytes authToken) /\
    sessionId = firstByte (dev [] hdr) /\
    body = command P1.START_TRANSACTION sessionId
             (startTxPayload (length (inputs tx)) (length (dataInputs tx))
                (length (distinctTokenIds tx)) (length (outputs tx)))
           :: map (command P1.ADD_TOKEN_IDS sessionId) tokenPackets
           ++ flat_map (inputCommands sessionId) (inputs tx)
           ++ map (command P1.ADD_DATA_INPUTS sessionId) dataPackets
           ++ flat_map (outputCommands sessionId (changeMap tx)
                          (map Deserialize.hex (distinctTokenIds tx)) network)
                       (outputs tx) /\
    trace dev (signTx tx signPath network authToken)
      = hdr :: body ++ [command P1.CONFIRM_AND_SIGN sessionId []] /\
    signBytes = data (dev (hdr :: body) (command P1.CONFIRM_AND_SIGN sessionId [])).
Proof.
  unfold result, trace.
  destruct (run dev (signTx tx signPath network authToken) []) as [r cs] eqn:Hrun.
  simpl. intros ->. unfold signTx in Hrun.
  apply run_bind_inv in Hrun.
  destruct Hrun as [(e & _ & He) | (sid & cs1 & rest1 & H1 & Hrun & ->)];
    [discriminate |].
  apply encode_send_returns in H1. destruct H1 as (pl1 & Hpl1 & -> & Hsid).
  apply header_payload_value in Hpl1. destruct Hpl1 as (pathBytes & Hpath & ->).
  apply run_bind_inv in Hrun.
  destruct Hrun as [(e & _ & He) | (x2 & cs2 & rest2 & H2 & Hrun & ->)];
    [discriminate |].
  apply encode_send_returns in H2. destruct H2 as (pl2 & Hpl2 & -> & _).
  apply startTx_payload_value in Hpl2. destruct Hpl2 as [-> _].
  apply run_bind_inv in Hrun.
  destruct Hrun as [(e & _ & He) | (x3 & cs3 & rest3 & H3 & Hrun & ->)];
    [discriminate |].
  destruct (@arrayAndChunk_total (distinctTokenIds tx) 7) as (tokenPackets & Htok & _);
    [lia |].
  returned H3 (sendDistinctTokensIds_follows sid (distinctTokenIds tx) Htok).
  apply run_bind_inv in Hrun.
  destruct Hrun as [(e & _ & He) | (x4 & cs4 & rest4 & H4 & Hrun & ->)];
    [discriminate |].
  returned H4 (sendInputs_follows sid (inputs tx)).
  apply run_bind_inv in Hrun.
  destruct Hrun as [(e & _ & He) | (x5 & cs5 & rest5 & H5 & Hrun & ->)];
    [discriminate |].
  apply sendDataInputs_returns in H5. destruct H5 as (dataPackets & Hdat & ->).
  apply run_bind_inv in Hrun.
  destruct Hrun as [(e & _ & He) | (x6 & cs6 & rest6 & H6 & Hrun & ->)];
    [discriminate |].
  returned H6 (sendOutputs_follows sid (outputs tx) (changeMap tx)
                 (distinctTokenIds tx) network).
  apply run_bind_inv in Hrun.
  destruct Hrun as [(e & _ & He) | (x7 & cs7 & rest7 & H7 & Hret & ->)];
    [discriminate |].
  simpl in Hret. inversion Hret; subst.
  unfold sendConfirmAndSign in H7. rewrite run_send_then in H7. cbv zeta in H7.
  destruct (returnCode _ =? RETURN_CODE_OK)%Z; inversion H7; subst.
  exists pathBytes, tokenPackets, dataPackets.
  eexists _, _, _.
  split; [exact Hpath |]. split; [exact Htok |]. split; [exact Hdat |].
  split; [reflexivity |]. split; [reflexivity |]. split; [reflexivity |].
  repeat rewrite <- app_assoc. simpl.
  repeat rewrite <- app_assoc. simpl.
  split; reflexivity.
Qed.

End WholeRuns.

Section FirstCommands.
Context {platform : Platform}.
Import SignTx.

Lemma header_encodes_iff signPath authToken :
  (exists payload,
     res_concat
       [ bip32Path signPath;
         if truthy authToken
         then Serialize.uint32 (match authToken with Some t => t | None => 0%Z end)
         else inr [] ] = inr payload) <->
  (exists pathBytes, bip32Path signPath = inr pathBytes) /\
  (forall t, authToken = Some t -> t <> 0%Z -> fitsUnsigned 4 t = true).
Proof.
  cbn [res_concat res_bind].
  destruct (bip32Path signPath) as [e | pathBytes]; cbn [res_bind].
  - split; [intros [payload H]; discriminate | intros [[pb H] _]; discriminate].
  - unfold truthy.
    destruct authToken as [t |].
    + destruct (Z.eqb_spec t 0) as [-> | Hne]; cbn [negb res_bind].
      * split.
        -- intros _. split; [now exists pathBytes |].
           intros t Ht Hnz. inversion Ht. congruence.
        -- intros _. now eexists.
      * unfold Serialize.uint32, Serialize.uint.
        destruct (fitsUnsigned 4 t) eqn:Hfit; cbn [res_bind].
        -- split.
           ++ intros _. split; [now exists pathBytes |].
              intros t' Ht' _. inversion Ht'. now subst.
           ++ intros _. now eexists.
        -- split; [intros [payload H]; discriminate |].
           intros [_ H]. specialize (H t eq_refl Hne). congruence.
    + split.
      * intros _. split; [now exists pathBytes | discriminate].
      * intros _. now eexists.
Qed.

(** The start-signing command is the only thing [signTx] can fail on
    before the device has received anything: it is sent exactly when the
    signing path can be encoded and the auth token, if given and not 0, fits
    32 bits; when it is not sent, the run ends with the error of the
    encoder. *)
Theorem start_signing_sent_iff_encodable dev tx signPath network authToken :
  ((exists hdr later,
      trace dev (signTx tx signPath network authToken) = hdr :: later) <->
   (exists pathBytes, bip32Path signPath = inr pathBytes) /\
   (forall t, authToken = Some t -> t <> 0%Z -> fitsUnsigned 4 t = true)) /\
  (trace dev (signTx tx signPath network authToken) = [] ->
   exists m,
     result dev (signTx tx signPath network authToken) = inl (Malformed m) /\
     encoderError m).
Proof.
  rewrite <- header_encodes_iff.
  unfold trace, result, signTx. rewrite run_bind.
  unfold sendHeader at 1 2 3. rewrite run_encode_send.
  destruct (res_concat _) as [e | payload] eqn:Hp.
  - simpl. split.
    + split; [intros (hdr & later & H); discriminate
             | intros [payload H]; discriminate].
    + intros _.
      assert (Hf : failsAsEncoder (A := Buffer) (inl e))
        by (rewrite <- Hp; encoder_side).
      destruct (Hf e eq_refl) as (m & -> & Hm). eauto.
  - cbv zeta.
    destruct (returnCode _ =? RETURN_CODE_OK)%Z.
    + destruct (run dev _ ([] ++ _)) as [r cs]. simpl.
      split; [split; eauto | discriminate].
    + simpl. split; [split; eauto | discriminate].
Qed.

(** More inputs, data inputs or outputs than 16 bits count, or more
    distinct token ids than 8 bits count, cannot be announced: [signTx] never
    returns, and it stops after the start-signing command, with the
    out-of-range error of the encoder when the device accepted that
    command. *)
Theorem counts_out_of_range_stop_after_start_signing
    dev (tx : AttestedTx) signPath network authToken :
  (65536 <= Z.of_nat (length (inputs tx)) \/
   65536 <= Z.of_nat (length (dataInputs tx)) \/
   256 <= Z.of_nat (length (distinctTokenIds tx)) \/
   65536 <= Z.of_nat (length (outputs tx)))%Z ->
  (forall signBytes,
     result dev (signTx tx signPath network authToken) <> inr signBytes) /\
  (trace dev (signTx tx signPath network authToken) = [] \/
   exists hdr,
     trace dev (signTx tx signPath network authToken) = [hdr] /\
     cmd_p1 hdr = P1.START_SIGNING /\
     (returnCode (dev [] hdr) = RETURN_CODE_OK ->
      result dev (signTx tx signPath network authToken)
        = inl (Malformed IntegerOutOfRange))).
Proof.
  intro Hbig.
  assert (Hstart : exists e,
             res_concat
               [ Serialize.uint16 (Z.of_nat (length (inputs tx)));
                 Serialize.uint16 (Z.of_nat (length (dataInputs tx)));
                 Serialize.uint8 (Z.of_nat (length (distinctTokenIds tx)));
                 Serialize.uint16 (Z.of_nat (length (outputs tx))) ]
             = inl e /\ e = Malformed IntegerOutOfRange).
  { destruct (res_concat _) as [e | payload] eqn:Hp.
    - exists e. split; [reflexivity |].
      unfold Serialize.uint16, Serialize.uint8, Serialize.uint in Hp.
      cbn [res_concat res_bind] in Hp.
      repeat match type of Hp with
             | context [if ?b then _ else _] => destruct b; cbn [res_bind] in Hp
             end; congruence.
    - exfalso. apply startTx_payload_value in Hp. lia. }
  destruct Hstart as (e & Hstart & ->).
  unfold trace, result, signTx. rewrite run_bind.
  unfold sendHeader at 1 2 3 4. rewrite run_encode_send.
  destruct (res_concat [bip32Path signPath; _]) as [e | payload].
  - simpl. split; [intros sb H; discriminate H | now left].
  - cbv zeta.
    set (hdr := {| cmd_ins := SIGN_TX; cmd_p1 := P1.START_SIGNING;
                   cmd_p2 := _; cmd_data := payload |}).
    destruct (returnCode (dev [] hdr) =? RETURN_CODE_OK)%Z eqn:Hok.
    + rewrite run_bind. unfold sendStartTx at 1 2 3 4.
      rewrite run_encode_send, Hstart. simpl.
      split; [intros sb H; discriminate H | right].
      exists hdr. auto.
    + simpl. split; [intros sb H; discriminate H | right].
      exists hdr. repeat split.
      intro H. apply Z.eqb_neq in Hok. contradiction.
Qed.

End FirstCommands.

(* ================================================================== *)
(** * The sub-steps of an output, and the slices of a buffer *)

Section OutputSteps.
Context {platform : Platform}.
Import DeviceChannel.

Lemma outputHeader_value box header :
  outputHeader box = inr header ->
  header = bigEndian 8 (value box)
           ++ bigEndian 4 (Z.of_nat (length (ergoTree box)))
           ++ bigEndian 4 (creationHeight box)
           ++ bigEndian 1 (Z.of_nat (length (tokens box)))
           ++ bigEndian 4 (Z.of_nat (length (registers box))).
Proof.
  unfold outputHeader. intro H.
  apply res_concat_values in H. destruct H as (values & HF & ->).
  inversion HF as [| p1 v1 l1 l1' H1 HF1]; subst.
  inversion HF1 as [| p2 v2 l2 l2' H2 HF2]; subst.
  inversion HF2 as [| p3 v3 l3 l3' H3 HF3]; subst.
  inversion HF3 as [| p4 v4 l4 l4' H4 HF4]; subst.
  inversion HF4 as [| p5 v5 l5 l5' H5 HF5]; subst.
  inversion HF5; subst.
  apply uint_value in H1, H2, H3, H4, H5.
  destruct H1 as [-> _], H2 as [-> _], H3 as [-> _], H4 as [-> _], H5 as [-> _].
  cbn [concat]. now rewrite app_nil_r.
Qed.

Lemma bigEndian_length width v : length (bigEndian width v) = width.
Proof. induction width as [| w IH]; simpl; [reflexivity | now rewrite IH]. Qed.

(** The commands of an output box, in both variants: the start command
    comes first and carries 21 bytes, the value, the length of the script,
    the creation height, the number of tokens and the length of the
    registers; an output without tokens gets no tokens command and an output
    without registers no registers command; and a run that returns has sent
    exactly the start command, the tree commands, the tokens command if
    there are tokens and the register slices if there are registers. *)
Theorem output_sub_steps dev log sessionId table box :
  (forall changeMap network r cs,
     run dev (SignTx.sendOutputBox sessionId changeMap table network box) log
       = (r, cs) ->
     (cs = [] \/
      exists rest,
        cs = command P1.ADD_OUTPUT_BOX_START sessionId
               (bigEndian 8 (value box)
                ++ bigEndian 4 (Z.of_nat (length (ergoTree box)))
                ++ bigEndian 4 (creationHeight box)
                ++ bigEndian 1 (Z.of_nat (length (tokens box)))
                ++ bigEndian 4 (Z.of_nat (length (registers box)))) :: rest /\
        Forall (fun c => cmd_p1 c <> P1.ADD_OUTPUT_BOX_START) rest) /\
     (tokens box = [] ->
      Forall (fun c => cmd_p1 c <> P1.ADD_OUTPUT_BOX_TOKENS) cs) /\
     (registers box = [] ->
      Forall (fun c => cmd_p1 c <> P1.ADD_OUTPUT_BOX_REGISTERS_CHUNK) cs) /\
     (forall a, r = inr a ->
        cs = outputCommands sessionId changeMap table network box)) /\
  (forall changeMap r cs,
     run dev (SignTx2.sendOutputBox sessionId changeMap table box) log = (r, cs) ->
     (cs = [] \/
      exists rest,
        cs = command P1.ADD_OUTPUT_BOX_START sessionId
               (bigEndian 8 (value box)
                ++ bigEndian 4 (Z.of_nat (length (ergoTree box)))
                ++ bigEndian 4 (creationHeight box)
                ++ bigEndian 1 (Z.of_nat (length (tokens box)))
                ++ bigEndian 4 (Z.of_nat (length (registers box)))) :: rest /\
        Forall (fun c => cmd_p1 c <> P1.ADD_OUTPUT_BOX_START) rest) /\
     (tokens box = [] ->
      Forall (fun c => cmd_p1 c <> P1.ADD_OUTPUT_BOX_TOKENS) cs) /\
     (registers box = [] ->
      Forall (fun c => cmd_p1 c <> P1.ADD_OUTPUT_BOX_REGISTERS_CHUNK) cs) /\
     (forall a, r = inr a -> cs = outputCommands2 sessionId changeMap table box)).
Proof.
  assert (Htree : forall changeMap network,
             Forall (fun c => cmd_p1 c <> P1.ADD_OUTPUT_BOX_START /\
                              cmd_p1 c <> P1.ADD_OUTPUT_BOX_TOKENS /\
                              cmd_p1 c <> P1.ADD_OUTPUT_BOX_REGISTERS_CHUNK)
                    (treeCommands sessionId changeMap network box)).
  { intros. eapply Forall_impl; [| apply treeCommands_kinds].
    intros c [H | [H | H]]; rewrite H; repeat split; discriminate. }
  assert (Htree2 : forall changeMap,
             Forall (fun c => cmd_p1 c <> P1.ADD_OUTPUT_BOX_START /\
                              cmd_p1 c <> P1.ADD_OUTPUT_BOX_TOKENS /\
                              cmd_p1 c <> P1.ADD_OUTPUT_BOX_REGISTERS_CHUNK)
                    (treeCommands2 sessionId changeMap box)).
  { intros. unfold treeCommands2. cbv zeta.
    destruct (String.eqb _ SignTx2.MINER_FEE_TREE).
    - repeat constructor; discriminate.
    - destruct (String.eqb _ _).
      + apply Forall_forall. intros c Hc.
        apply changePathCommands_inv in Hc. destruct Hc as [-> _].
        repeat split; discriminate.
      + apply Forall_map, Forall_forall. intros s _.
        repeat split; discriminate. }
  assert (Htok : Forall (fun c => cmd_p1 c = P1.ADD_OUTPUT_BOX_TOKENS)
                        (tokenCommands sessionId table box)).
  { unfold tokenCommands. destruct (0 <? _)%nat; [| constructor].
    destruct (Serialize.array _ _); repeat constructor. }
  assert (Hreg : Forall (fun c => cmd_p1 c = P1.ADD_OUTPUT_BOX_REGISTERS_CHUNK)
                        (registerCommands sessionId box)).
  { unfold registerCommands. destruct (0 <? _)%nat; [| constructor].
    apply Forall_map, Forall_forall. reflexivity. }
  split.
  - intros changeMap network r cs Hrun.
    destruct (sendOutputBox_follows sessionId changeMap table network box dev log)
      as [[more Hpre] Hall].
    rewrite Hrun in Hpre, Hall. simpl in Hpre, Hall.
    assert (Hplan : forall P : Apdu -> Prop,
               Forall P (outputCommands sessionId changeMap table network box) ->
               Forall P cs).
    { intros P HP. rewrite Hpre in HP. now apply Forall_app in HP. }
    split; [| split; [| split]].
    + destruct cs as [| c rest]; [now left | right].
      unfold outputCommands, startCommands in Hpre.
      destruct (outputHeader box) as [e | header] eqn:Hh; [discriminate |].
      apply outputHeader_value in Hh. subst header.
      inversion Hpre as [[Hc Hrest]]. exists rest. split; [reflexivity |].
      assert (HF : Forall (fun c => cmd_p1 c <> P1.ADD_OUTPUT_BOX_START)
                          (rest ++ more)).
      { rewrite <- Hrest. apply Forall_app. split.
        - eapply Forall_impl; [| apply Htree]. cbv beta. tauto.
        - apply Forall_app. split;
            (eapply Forall_impl; [| first [apply Htok | apply Hreg]]);
            intros c0 H0; rewrite H0; discriminate. }
      now apply Forall_app in HF.
    + intro Hnone. apply Hplan.
      unfold outputCommands, startCommands, tokenCommands. rewrite Hnone.
      destruct (outputHeader box); constructor; [discriminate |].
      apply Forall_app. split.
      * eapply Forall_impl; [| apply Htree]. cbv beta. tauto.
      * simpl. eapply Forall_impl; [| apply Hreg].
        intros c0 H0; rewrite H0; discriminate.
    + intro Hnone. apply Hplan.
      unfold outputCommands, startCommands, registerCommands. rewrite Hnone.
      destruct (outputHeader box); constructor; [discriminate |].
      apply Forall_app. split.
      * eapply Forall_impl; [| apply Htree]. cbv beta. tauto.
      * simpl. rewrite app_nil_r. eapply Forall_impl; [| apply Htok].
        intros c0 H0; rewrite H0; discriminate.
    + intros a ->. now apply (Hall a).
  - intros changeMap r cs Hrun.
    destruct (sendOutputBox2_follows sessionId changeMap table box dev log)
      as [[more Hpre] Hall].
    rewrite Hrun in Hpre, Hall. simpl in Hpre, Hall.
    assert (Hplan : forall P : Apdu -> Prop,
               Forall P (outputCommands2 sessionId changeMap table box) ->
               Forall P cs).
    { intros P HP. rewrite Hpre in HP. now apply Forall_app in HP. }
    split; [| split; [| split]].
    + destruct cs as [| c rest]; [now left | right].
      unfold outputCommands2, startCommands in Hpre.
      destruct (outputHeader box) as [e | header] eqn:Hh; [discriminate |].
      apply outputHeader_value in Hh. subst header.
      inversion Hpre as [[Hc Hrest]]. exists rest. split; [reflexivity |].
      assert (HF : Forall (fun c => cmd_p1 c <> P1.ADD_OUTPUT_BOX_START)
                          (rest ++ more)).
      { rewrite <- Hrest. apply Forall_app. split.
        - eapply Forall_impl; [| apply Htree2]. cbv beta. tauto.
        - apply Forall_app. split;
            (eapply Forall_impl; [| first [apply Htok | apply Hreg]]);
            intros c0 H0; rewrite H0; discriminate. }
      now apply Forall_app in HF.
    + intro Hnone. apply Hplan.
      unfold outputCommands2, startCommands, tokenCommands. rewrite Hnone.
      destruct (outputHeader box); constructor; [discriminate |].
      apply Forall_app. split.
      * eapply Forall_impl; [| apply Htree2]. cbv beta. tauto.
      * simpl. eapply Forall_impl; [| apply Hreg].
        intros c0 H0; rewrite H0; discriminate.
    + intro Hnone. apply Hplan.
      unfold outputCommands2, startCommands, registerCommands. rewrite Hnone.
      destruct (outputHeader box); constructor; [discriminate |].
      apply Forall_app. split.
      * eapply Forall_impl; [| apply Htree2]. cbv beta. tauto.
      * simpl. rewrite app_nil_r. eapply Forall_impl; [| apply Htok].
        intros c0 H0; rewrite H0; discriminate.
    + intros a ->. now apply (Hall a).
Qed.

(** The slices of a buffer, as commands. *)
Lemma slices_spec p1 sessionId (payload : Buffer) :
  (0 < MAX_DATA_LENGTH)%nat ->
  let cs := map (command p1 sessionId)
                (Serialize.chunk payload MAX_DATA_LENGTH) in
  concat (map cmd_data cs) = payload /\
  Forall (fun c => cmd_ins c = SIGN_TX /\ cmd_p1 c = p1 /\
                   cmd_p2 c = sessionId /\
                   (0 < length (cmd_data c) <= MAX_DATA_LENGTH)%nat) cs /\
  (payload <> [] -> cs <> []).
Proof.
  intros Hmax cs. subst cs.
  destruct (chunk_spec payload Hmax) as [Hcat Hall].
  split; [| split].
  - rewrite map_map. simpl. now rewrite map_id.
  - apply Forall_map. eapply Forall_impl; [| exact Hall].
    intros b [Hne Hle]. simpl. repeat split; auto.
    destruct b; [congruence | simpl; lia].
  - intros Hp Hnil. apply map_eq_nil in Hnil.
    now apply (chunk_inhabited Hmax Hp).
Qed.

(** A script, a register buffer and a context extension go out in slices:
    when the step returns, the payloads of its commands, concatenated, are
    the buffer, byte for byte; every slice has at least one byte and at most
    the maximum of the channel; and a buffer with bytes makes at least one
    command. *)
Theorem buffers_go_out_in_slices dev log sessionId (buffer : Buffer) a :
  (0 < MAX_DATA_LENGTH)%nat ->
  (forall cs,
     run dev (SignTx.addOutputBoxErgoTree sessionId buffer) log = (inr a, cs) ->
     concat (map cmd_data cs) = buffer /\
     Forall (fun c => cmd_ins c = SIGN_TX /\
                      cmd_p1 c = P1.ADD_OUTPUT_BOX_ERGO_TREE_CHUNK /\
                      cmd_p2 c = sessionId /\
                      (0 < length (cmd_data c) <= MAX_DATA_LENGTH)%nat) cs /\
     (buffer <> [] -> cs <> [])) /\
  (forall cs,
     run dev (SignTx.addOutputBoxRegisters sessionId buffer) log = (inr a, cs) ->
     concat (map cmd_data cs) = buffer /\
     Forall (fun c => cmd_ins c = SIGN_TX /\
                      cmd_p1 c = P1.ADD_OUTPUT_BOX_REGISTERS_CHUNK /\
                      cmd_p2 c = sessionId /\
                      (0 < length (cmd_data c) <= MAX_DATA_LENGTH)%nat) cs /\
     (buffer <> [] -> cs <> [])) /\
  (forall cs,
     run dev (SignTx.sendBoxContextExtension sessionId buffer) log = (inr a, cs) ->
     concat (map cmd_data cs) = buffer /\
     Forall (fun c => cmd_ins c = SIGN_TX /\
                      cmd_p1 c = P1.ADD_INPUT_BOX_CONTEXT_EXTENSION_CHUNK /\
                      cmd_p2 c = sessionId /\
                      (0 < length (cmd_data c) <= MAX_DATA_LENGTH)%nat) cs /\
     (buffer <> [] -> cs <> [])).
Proof.
  intro Hmax.
  split; [| split]; intros cs Hrun;
    (eapply Follows_returns in Hrun; [| apply Follows_sendData]);
    subst cs; now apply slices_spec.
Qed.

End OutputSteps.

(* ================================================================== *)
(** * Hex strings: the token table and the fee scripts *)

Section HexStrings.
Context {platform : Platform}.
Import DeviceChannel SignTx.

Lemma hexChar_of_byte x :
  lowerHexDigit (hexChar (Byte.to_N x / 16)) = true /\
  lowerHexDigit (hexChar (Byte.to_N x mod 16)) = true.
Proof. destruct x; split; reflexivity. Qed.

Lemma hex_is_lowercase b : lowerHexString (Deserialize.hex b) = true.
Proof.
  induction b as [| x rest IH]; [reflexivity |].
  cbn [Deserialize.hex lowerHexString].
  destruct (hexChar_of_byte x) as [-> ->]. now rewrite IH.
Qed.

Lemma hex_of_byte x s :
  Serialize.hex
    (String (hexChar (Byte.to_N x / 16))
            (String (hexChar (Byte.to_N x mod 16)) s))
  = res_bind (Serialize.hex s) (fun bytes => inr (x :: bytes)).
Proof. destruct x; reflexivity. Qed.

Lemma hex_cons x rest :
  Deserialize.hex (x :: rest)
  = String (hexChar (Byte.to_N x / 16))
           (String (hexChar (Byte.to_N x mod 16)) (Deserialize.hex rest)).
Proof. reflexivity. Qed.

Lemma hex_length b :
  String.length (Deserialize.hex b) = (2 * length b)%nat.
Proof.
  induction b as [| x rest IH]; [reflexivity |].
  rewrite hex_cons. cbn [String.length length]. rewrite IH. lia.
Qed.

(** Decoding the hex of a buffer gives the buffer back. *)
Lemma hex_round_trip b : Serialize.hex (Deserialize.hex b) = inr b.
Proof.
  induction b as [| x rest IH]; [reflexivity |].
  cbn [Deserialize.hex]. rewrite hex_of_byte, IH. reflexivity.
Qed.

Lemma forEach_returns {T} dev (items : list T) body log a cs x :
  run dev (forEach items body) log = (inr a, cs) -> In x items ->
  exists log' cs', run dev (body x) log' = (inr tt, cs').
Proof.
  revert log cs.
  induction items as [| y rest IH]; intros log cs Hrun Hin; [contradiction |].
  simpl in Hrun. apply run_bind_inv in Hrun.
  destruct Hrun as [(e & _ & He) | ([] & cs1 & cs2 & H1 & Hrun & _)];
    [discriminate |].
  destruct Hin as [-> | Hin]; [eauto |].
  eapply IH; eassumption.
Qed.

Lemma signTx_returns_outputs dev tx signPath network authToken signBytes :
  result dev (signTx tx signPath network authToken) = inr signBytes ->
  exists sessionId log cs,
    run dev (sendOutputs sessionId (outputs tx) (changeMap tx)
               (distinctTokenIds tx) network) log = (inr tt, cs).
Proof.
  unfold result.
  destruct (run dev (signTx tx signPath network authToken) []) as [r cs] eqn:Hrun.
  simpl. intros ->. unfold signTx in Hrun.
  apply run_bind_inv in Hrun.
  destruct Hrun as [(e & _ & He) | (sid & cs1 & rest1 & _ & Hrun & _)];
    [discriminate |].
  do 4 (apply run_bind_inv in Hrun;
        destruct Hrun as [(e & _ & He) | (? & ? & ? & _ & Hrun & _)];
        [discriminate |]).
  apply run_bind_inv in Hrun.
  destruct Hrun as [(e & _ & He) | ([] & cs6 & rest6 & H6 & _ & _)];
    [discriminate |].
  eauto.
Qed.

(** The table the outputs look token ids up in holds the ids as lowercase
    hex strings, and the look-up compares strings.  So an id with a
    character outside 0-9 and a-f (an uppercase digit, say) is never found,
    whatever bytes the table holds; and when an output of the transaction
    names an id that is not found, [signTx] does not return a signature. *)
Theorem token_ids_are_looked_up_as_lowercase_hex :
  (forall (ids : list Buffer) s,
     lowerHexString s = false ->
     indexOf (map Deserialize.hex ids) s = (-1)%Z) /\
  (forall dev tx signPath network authToken box t,
     In box (outputs tx) -> In t (tokens box) ->
     indexOf (map Deserialize.hex (distinctTokenIds tx)) (id t) = (-1)%Z ->
     forall signBytes,
       result dev (signTx tx signPath network authToken) <> inr signBytes).
Proof.
  split.
  - intros ids s Hs.
    destruct (Z.eq_dec (indexOf (map Deserialize.hex ids) s) (-1)) as [H | H];
      [exact H | exfalso].
    apply indexOf_position in H. destruct H as (_ & Hnth & _).
    apply nth_error_In, in_map_iff in Hnth. destruct Hnth as (b & <- & _).
    rewrite hex_is_lowercase in Hs. discriminate.
  - intros dev tx signPath network authToken box t Hbox Ht Hidx signBytes Hres.
    apply signTx_returns_outputs in Hres.
    destruct Hres as (sessionId & log & cs & Hrun).
    unfold sendOutputs in Hrun. cbv zeta in Hrun.
    eapply forEach_returns in Hrun; [| exact Hbox].
    destruct Hrun as (log' & cs' & Hbody).
    eapply sendOutputBox_stray in Hbody; [| exact Ht | exact Hidx].
    destruct Hbody as [Hnever _]. now apply (Hnever tt).
Qed.

(** Whether an output pays the miners is a matter of its script's bytes: the
    script is classified as the fee script exactly when its bytes are those
    one of the two constants denotes, both of which are scripts of 105
    bytes.  Two buffers with the same hex are the same buffer. *)
Theorem fee_script_is_recognised_by_its_bytes :
  (forall b, Serialize.hex (Deserialize.hex b) = inr b) /\
  (forall a b, Deserialize.hex a = Deserialize.hex b -> a = b) /\
  (forall box,
     isFeeScript box <->
     Serialize.hex MAINNET_MINER_FEE_TREE = inr (ergoTree box) \/
     Serialize.hex TESTNET_FEE_TREE = inr (ergoTree box)) /\
  (forall box, isFeeScript box -> length (ergoTree box) = 105%nat) /\
  (forall box,
     isFeeScript2 box <->
     Serialize.hex SignTx2.MINER_FEE_TREE = inr (ergoTree box)).
Proof.
  assert (Hinj : forall a b, Deserialize.hex a = Deserialize.hex b -> a = b).
  { intros a b H.
    assert (H' : @inr Err _ a = inr b)
      by (rewrite <- (hex_round_trip a), <- (hex_round_trip b); now rewrite H).
    now inversion H'. }
  assert (Hback : forall s b, Serialize.hex s = inr b ->
                    lowerHexString s = true -> Deserialize.hex b = s).
  { intros s. remember (String.length s) as n eqn:Hn.
    revert s Hn. induction n as [n IH] using lt_wf_ind. intros s Hn b Hs Hl.
    destruct s as [| hi [| lo rest]]; cbn [Serialize.hex] in Hs.
    - inversion Hs. reflexivity.
    - discriminate.
    - simpl in Hl.
      apply andb_prop in Hl. destruct Hl as [Hhi Hl].
      apply andb_prop in Hl. destruct Hl as [Hlo Hl].
      destruct (hexValue hi) as [h |] eqn:Hh; [| discriminate].
      destruct (hexValue lo) as [l |] eqn:Hlv; [| discriminate].
      destruct (Serialize.hex rest) as [e | bytes] eqn:Hrest; [discriminate |].
      cbn [res_bind] in Hs. injection Hs as <-. rewrite hex_cons.
      rewrite (IH (String.length rest)) with (s := rest) (b := bytes);
        [| subst n; simpl; lia | reflexivity | exact Hrest | exact Hl].
      assert (Hdigits :
                hexChar (Byte.to_N (byteOfZ (Z.of_N (16 * h + l))) / 16) = hi /\
                hexChar (Byte.to_N (byteOfZ (Z.of_N (16 * h + l))) mod 16) = lo).
      { clear - Hhi Hlo Hh Hlv.
        destruct hi as [[] [] [] [] [] [] [] []]; try discriminate Hhi;
          inversion Hh; subst h;
          destruct lo as [[] [] [] [] [] [] [] []]; try discriminate Hlo;
          inversion Hlv; subst l; split; reflexivity. }
      destruct Hdigits as [Ehi Elo].
      f_equal; [exact Ehi | f_equal; exact Elo]. }
  split; [exact hex_round_trip |].
  split; [exact Hinj |].
  split; [| split].
  - intro box. unfold isFeeScript. split.
    + intros [H | H]; [left | right]; rewrite <- H; apply hex_round_trip.
    + intros [H | H]; [left | right]; apply Hback; try exact H; reflexivity.
  - assert (Hmain : String.length MAINNET_MINER_FEE_TREE = 210%nat)
      by reflexivity.
    assert (Htest : String.length TESTNET_FEE_TREE = 210%nat) by reflexivity.
    intros box [H | H]; apply (f_equal String.length) in H;
      rewrite hex_length in H; lia.
  - intro box. unfold isFeeScript2. split.
    + intro H. rewrite <- H. apply hex_round_trip.
    + intro H. apply Hback; [exact H | reflexivity].
Qed.

End HexStrings.

(* ================================================================== *)
(** * [deriveAddress] and [showAddress] *)

Section AddressRequests.
Context {platform : Platform}.
Import DeviceChannel DeriveAddress.

Lemma uint32s_values (components : list Z) values :
  Forall2 (fun p v => p = inr v) (map Serialize.uint32 components) values ->
  values = map (bigEndian 4) components /\
  Forall (fun v => fitsUnsigned 4 v = true) components.
Proof.
  revert values.
  induction components as [| x rest IH]; intros values H; inversion H; subst.
  - split; [reflexivity | constructor].
  - match goal with
    | Hx : Serialize.uint32 x = inr _, Hr : Forall2 _ (map _ rest) _ |- _ =>
        apply uint_value in Hx; destruct Hx as [-> Hfits];
        destruct (IH _ Hr) as [-> Hall]
    end.
    split; [reflexivity | now constructor].
Qed.

Lemma path_value (components : list Z) pathBytes :
  Serialize.path components = inr pathBytes ->
  pathBytes = bigEndian 1 (Z.of_nat (length components))
              ++ concat (map (bigEndian 4) components) /\
  Forall (fun v => fitsUnsigned 4 v = true) components /\
  (length components < 256)%nat.
Proof.
  unfold Serialize.path. intro H.
  apply res_concat_values in H. destruct H as (values & HF & ->).
  inversion HF as [| p1 v1 l1 l1' H1 HF1]; subst.
  apply uint32s_values in HF1. destruct HF1 as [-> Hall].
  apply uint_value in H1. destruct H1 as [-> Hfits].
  split; [reflexivity |]. split; [exact Hall |].
  unfold fitsUnsigned in Hfits. apply andb_prop in Hfits.
  destruct Hfits as [_ Hlt]. apply Z.ltb_lt in Hlt.
  change (2 ^ (8 * Z.of_nat 1))%Z with 256%Z in Hlt. lia.
Qed.

Lemma path_error (components : list Z) e :
  Serialize.path components = inl e -> e = Malformed IntegerOutOfRange.
Proof.
  unfold Serialize.path. intro H. apply res_concat_error in H.
  assert (Huint : forall width v, Serialize.uint width v = inl e ->
                    e = Malformed IntegerOutOfRange).
  { intros width v. unfold Serialize.uint.
    destruct (fitsUnsigned width v); intro Hu; now inversion Hu. }
  destruct H as [H | H]; [now apply Huint in H |].
  apply in_map_iff in H. destruct H as (v & Hv & _). now apply Huint in Hv.
Qed.

(** Either the checks and the encoders stop the call, in the same way
    whatever is asked for, or the one request is ready to go. *)
Lemma sendDeriveAddress_cases network path authToken :
  (exists failure,
     (forall returnType,
        sendDeriveAddress network path returnType authToken = inl failure) /\
     forall code, failure <> Raised (DeviceRejection code)) \/
  (exists components,
     pathToArray path = Some components /\
     (5 <= length components < 256)%nat /\
     (nth 3 components 0 = 0 \/ nth 3 components 0 = 1)%Z /\
     Forall (fun v => fitsUnsigned 4 v = true) components /\
     (forall t, authToken = Some t -> t <> 0%Z -> fitsUnsigned 4 t = true) /\
     forall returnType,
       sendDeriveAddress network path returnType authToken
       = inr (send DERIVE_ADDRESS (p1Of returnType)
                (Some (if truthy authToken then P2.WITH_TOKEN
                       else P2.WITHOUT_TOKEN))
                (byteOfZ network
                 :: bigEndian 1 (Z.of_nat (length components))
                 ++ concat (map (bigEndian 4) components)
                 ++ authTokenBytes authToken))).
Proof.
  unfold sendDeriveAddress.
  destruct (pathToArray path) as [components |];
    [| left; eexists; split; [reflexivity | discriminate]].
  destruct (length components <? 5)%nat eqn:Hlen;
    [left; eexists; split; [reflexivity | discriminate] |].
  apply Nat.ltb_ge in Hlen. cbv zeta.
  destruct (existsb _ ALLOWED_CHANGE_PATHS) eqn:Hchange; cbn [negb];
    [| left; eexists; split; [reflexivity | discriminate]].
  cbn [res_concat].
  destruct (Serialize.path components) as [e | pathBytes] eqn:Hpath;
    cbn [res_bind].
  { left. eexists. split; [reflexivity |].
    intros code H. inversion H as [He]. subst e.
    apply path_error in Hpath. discriminate. }
  apply path_value in Hpath. destruct Hpath as (-> & Hfit & Hshort).
  assert (Hin : (nth 3 components 0 = 0 \/ nth 3 components 0 = 1)%Z).
  { unfold ALLOWED_CHANGE_PATHS, CHANGE_PATH_INDEX in Hchange.
    cbn [existsb] in Hchange.
    rewrite orb_false_r in Hchange. apply orb_prop in Hchange.
    destruct Hchange as [H | H]; apply Z.eqb_eq in H; auto. }
  unfold truthy, authTokenBytes.
  destruct authToken as [t |].
  - destruct (t =? 0)%Z eqn:Ht; cbn [negb].
    + right. exists components.
      split; [reflexivity | split; [lia | split; [exact Hin |]]].
      split; [exact Hfit |]. split.
      { intros t' Ht' Hne. inversion Ht'; subst t'.
        apply Z.eqb_eq in Ht. contradiction. }
      intro returnType. rewrite app_nil_r, app_nil_r.
      destruct returnType; reflexivity.
    + cbn [res_concat res_bind].
      destruct (Serialize.uint32 t) as [e | tokenBytes] eqn:Htok;
        cbn [res_bind].
      * left. eexists. split; [reflexivity |].
        intros code H. inversion H as [He]. subst e.
        unfold Serialize.uint32, Serialize.uint in Htok.
        destruct (fitsUnsigned 4 t); discriminate.
      * apply uint_value in Htok. destruct Htok as [-> Htfits].
        right. exists components.
        split; [reflexivity | split; [lia | split; [exact Hin |]]].
        split; [exact Hfit |]. split.
        { intros t' Ht' _. now inversion Ht'; subst t'. }
        intro returnType. rewrite app_nil_r.
        cbn [app]. rewrite <- app_assoc.
        destruct returnType; reflexivity.
  - right. exists components.
    split; [reflexivity | split; [lia | split; [exact Hin |]]].
    split; [exact Hfit |]. split; [intros t' Ht'; discriminate Ht' |].
    intro returnType. rewrite app_nil_r, app_nil_r.
    destruct returnType; reflexivity.
Qed.

Lemma path_total (components : list Z) :
  (length components < 256)%nat ->
  Forall (fun v => fitsUnsigned 4 v = true) components ->
  exists pathBytes, Serialize.path components = inr pathBytes.
Proof.
  intros Hshort Hfit. unfold Serialize.path.
  assert (Hcount : Serialize.uint8 (Z.of_nat (length components))
                   = inr (bigEndian 1 (Z.of_nat (length components)))).
  { unfold Serialize.uint8, Serialize.uint.
    replace (fitsUnsigned 1 (Z.of_nat (length components))) with true;
      [reflexivity |].
    symmetry. unfold fitsUnsigned. apply andb_true_intro. split.
    - apply Z.leb_le. lia.
    - apply Z.ltb_lt. change (2 ^ (8 * Z.of_nat 1))%Z with 256%Z. lia. }
  assert (Hrest : exists bytes,
             res_concat (map Serialize.uint32 components) = inr bytes).
  { clear Hshort Hcount.
    induction Hfit as [| v rest Hv _ [bytes IH]]; [now exists [] |].
    cbn [map res_concat]. unfold Serialize.uint32 at 1, Serialize.uint.
    rewrite Hv, IH. cbn [res_bind]. eauto. }
  destruct Hrest as [bytes Hrest].
  cbn [res_concat]. rewrite Hcount, Hrest. cbn [res_bind]. eauto.
Qed.

(** A path that passes the checks and can be encoded, with a token that
    can be encoded: the request is ready to go. *)
Lemma sendDeriveAddress_ready network path returnType authToken components :
  pathToArray path = Some components ->
  (5 <= length components < 256)%nat ->
  (nth 3 components 0 = 0 \/ nth 3 components 0 = 1)%Z ->
  Forall (fun v => fitsUnsigned 4 v = true) components ->
  (forall t, authToken = Some t -> t <> 0%Z -> fitsUnsigned 4 t = true) ->
  exists pending,
    sendDeriveAddress network path returnType authToken = inr pending.
Proof.
  intros Hpath Hlen Hchange Hfit Htoken. unfold sendDeriveAddress.
  rewrite Hpath.
  replace (length components <? 5)%nat with false
    by (symmetry; apply Nat.ltb_ge; lia).
  cbv zeta.
  replace (existsb (Z.eqb (nth CHANGE_PATH_INDEX components 0%Z))
                   ALLOWED_CHANGE_PATHS) with true.
  2:{ symmetry. apply existsb_exists.
      unfold CHANGE_PATH_INDEX, ALLOWED_CHANGE_PATHS.
      destruct Hchange as [-> | ->]; [exists 0%Z | exists 1%Z];
        simpl; auto. }
  cbn [negb res_concat].
  destruct (path_total (proj2 Hlen) Hfit) as [pathBytes ->]. cbn [res_bind].
  destruct authToken as [t |]; [| cbn [truthy]; eauto].
  unfold truthy. destruct (t =? 0)%Z eqn:Ht; cbn [negb]; [eauto |].
  apply Z.eqb_neq in Ht.
  unfold Serialize.uint32, Serialize.uint.
  rewrite (Htoken t eq_refl Ht). cbn [res_concat res_bind]. eauto.
Qed.

Lemma components_length (components : list Z) :
  length (concat (map (bigEndian 4) components)) = (4 * length components)%nat.
Proof.
  induction components as [| x rest IH]; [reflexivity |].
  cbn [map concat length]. rewrite length_app, bigEndian_length, IH. lia.
Qed.

Lemma authTokenBytes_length authToken :
  length (authTokenBytes authToken) = if truthy authToken then 4%nat else 0%nat.
Proof.
  unfold authTokenBytes, truthy. destruct authToken as [t |]; [| reflexivity].
  destruct (t =? 0)%Z; [reflexivity | apply bigEndian_length].
Qed.

(** [sendDeriveAddress] sends one request or none.  It sends none when the
    path does not parse, has fewer than five components, has a fourth
    component other than 0 and 1, or when the number of components, a
    component or the token does not fit its bytes: the call then ends with
    an error that is not a rejection of the device.  Otherwise, and only
    then, the one request is sent: a derive-address command
    whose P2 tells whether a token comes and whose payload is the network
    byte, the number of components, the components in four bytes each and
    the token's four bytes, if any; the call hands back the device's
    response, or raises its status when that is not the success value. *)
Theorem address_request_is_checked_then_sent
    dev log network path returnType authToken r cs :
  attempt dev (sendDeriveAddress network path returnType authToken) log
    = (r, cs) ->
  ((cs = [] /\
    (forall response, r <> inr response) /\
    (forall code, r <> inl (Raised (DeviceRejection code)))) \/
   (exists components,
      pathToArray path = Some components /\
      (5 <= length components < 256)%nat /\
      (nth 3 components 0 = 0 \/ nth 3 components 0 = 1)%Z /\
      Forall (fun v => fitsUnsigned 4 v = true) components /\
      (forall t, authToken = Some t -> t <> 0%Z -> fitsUnsigned 4 t = true) /\
      let c := deriveAddressRequest (p1Of returnType) network components
                 authToken in
      cs = [c] /\
      length (cmd_data c)
      = (2 + 4 * length components + if truthy authToken then 4 else 0)%nat /\
      r = if (returnCode (dev log c) =? RETURN_CODE_OK)%Z
          then inr (dev log c)
          else inl (Raised (DeviceRejection (returnCode (dev log c)))))) /\
  (forall components,
     pathToArray path = Some components ->
     (5 <= length components < 256)%nat ->
     (nth 3 components 0 = 0 \/ nth 3 components 0 = 1)%Z ->
     Forall (fun v => fitsUnsigned 4 v = true) components ->
     (forall t, authToken = Some t -> t <> 0%Z -> fitsUnsigned 4 t = true) ->
     cs <> []).
Proof.
  intro H. split.
  - destruct (sendDeriveAddress_cases network path authToken)
      as [(failure & Hf & Hnot)
         | (components & Hp & Hlen & Hin & Hfit & Htoken & Hsend)].
    + rewrite (Hf returnType) in H. simpl in H. inversion H; subst. left.
      split; [reflexivity |]. split; [discriminate |].
      intros code Hc. inversion Hc as [Hc']. now apply (Hnot code).
    + rewrite (Hsend returnType) in H. unfold attempt in H.
      rewrite run_send in H. cbv zeta in H.
      right. exists components.
      split; [exact Hp |]. split; [exact Hlen |]. split; [exact Hin |].
      split; [exact Hfit |]. split; [exact Htoken |].
      unfold deriveAddressRequest. cbn [cmd_data].
      split; [| split].
      * now inversion H.
      * cbn [length]. rewrite !length_app, bigEndian_length, components_length,
          authTokenBytes_length. lia.
      * inversion H as [[Hr Hcs]].
        now destruct (returnCode _ =? RETURN_CODE_OK)%Z.
  - intros components Hp Hlen Hin Hfit Htoken.
    destruct (@sendDeriveAddress_ready network path returnType authToken
                components Hp Hlen Hin Hfit Htoken) as [pending Hready].
    destruct (sendDeriveAddress_cases network path authToken)
      as [(failure & Hf & _) | (components' & _ & _ & _ & _ & _ & Hsend)].
    + rewrite (Hf returnType) in Hready. discriminate Hready.
    + rewrite (Hsend returnType) in H. unfold attempt in H.
      rewrite run_send in H. cbv zeta in H. inversion H. discriminate.
Qed.

(** A call of [deriveAddress] that returns has sent the one request, with
    P1 asking for the address to be returned, and the device has answered
    with the success status; the address it returns is the data of that
    response in lowercase hex, from which the bytes can be read back. *)
Theorem derived_address_is_the_response_in_hex
    dev log network path authToken address cs :
  attempt dev (deriveAddress network path authToken) log = (inr address, cs) ->
  exists components,
    pathToArray path = Some components /\
    let c := deriveAddressRequest P1.RETURN network components authToken in
    cs = [c] /\
    returnCode (dev log c) = RETURN_CODE_OK /\
    addressHex address = Deserialize.hex (data (dev log c)) /\
    lowerHexString (addressHex address) = true /\
    Serialize.hex (addressHex address) = inr (data (dev log c)).
Proof.
  unfold deriveAddress.
  destruct (sendDeriveAddress_cases network path authToken)
    as [(failure & Hf & Hnot)
       | (components & Hp & Hlen & Hin & Hfit & Htoken & Hsend)].
  - rewrite (Hf Return). simpl. discriminate.
  - rewrite (Hsend Return). unfold attempt. rewrite run_send_then. cbv zeta.
    destruct (returnCode _ =? RETURN_CODE_OK)%Z eqn:Hok; [| discriminate].
    intro H. inversion H as [[Ha Hcs]]. exists components.
    split; [exact Hp |]. cbv zeta. split; [reflexivity |].
    split; [now apply Z.eqb_eq |]. cbn [addressHex].
    split; [reflexivity |].
    split; [apply hex_is_lowercase | apply hex_round_trip].
Qed.

(** [showAddress] never returns [false]: it returns [true], after the
    device has answered the one request (with P1 asking for the address to
    be displayed) with the success status, or it raises.  For the same
    arguments it sends what [deriveAddress] sends, but for P1. *)
Theorem show_address_is_true_or_raises dev log network path authToken :
  fst (attempt dev (showAddress network path authToken) log) <> inr false /\
  (forall cs,
     attempt dev (showAddress network path authToken) log = (inr true, cs) ->
     exists components,
       pathToArray path = Some components /\
       let c := deriveAddressRequest P1.DISPLAY network components authToken in
       cs = [c] /\ returnCode (dev log c) = RETURN_CODE_OK) /\
  map requestBody (snd (attempt dev (showAddress network path authToken) log))
  = map requestBody (snd (attempt dev (deriveAddress network path authToken) log)).
Proof.
  unfold showAddress, deriveAddress.
  destruct (sendDeriveAddress_cases network path authToken)
    as [(failure & Hf & Hnot)
       | (components & Hp & Hlen & Hin & Hfit & Htoken & Hsend)].
  - rewrite (Hf Return), (Hf Display). simpl.
    split; [discriminate |]. split; [discriminate | reflexivity].
  - rewrite (Hsend Return), (Hsend Display). unfold attempt.
    rewrite !run_send_then. cbv zeta.
    split; [| split].
    + cbn [fst]. destruct (returnCode _ =? RETURN_CODE_OK)%Z; discriminate.
    + intros cs H. exists components. split; [exact Hp |]. cbv zeta.
      destruct (returnCode _ =? RETURN_CODE_OK)%Z eqn:Hok; [| discriminate].
      inversion H. split; [reflexivity | now apply Z.eqb_eq].
    + reflexivity.
Qed.

End AddressRequests.

(* ================================================================== *)
(** * The token of the app in the requests *)

Section TokenInRequests.
Context {platform : Platform}.
Import DeviceChannel ErgoApp.

(** An app constructed with the token 0 (of either sign, or with none)
    generates its token: an integer of 1 to 0xffffffff, held exactly as a
    number.  Asking for the token gives it, not asking gives none.  Passed
    as the auth token of a request, the integer counts as present and fits
    four bytes: the request for an address then is the request without
    token with P2 changed and the four bytes of the token appended, and a
    signing session whose path can be encoded starts with the path followed
    by these four bytes. *)
Theorem app_token_always_rides_along authToken draws t rest :
  Forall unitInterval draws ->
  SFeqb authToken (S754_zero false) = true ->
  constructor authToken draws = Some (t, rest) ->
  exists z,
    t = ofInt z /\ (1 <= z <= 0xffffffff)%Z /\ floor t = z /\
    getAuthToken t true = Some (ofInt z) /\
    getAuthToken t false = None /\
    truthy (Some z) = true /\
    fitsUnsigned 4 z = true /\
    authTokenBytes (Some z) = bigEndian 4 z /\
    (forall dev log network path returnType,
       snd (DeriveAddress.attempt dev
              (DeriveAddress.sendDeriveAddress network path returnType
                 (Some z)) log)
       = map (withToken z)
           (snd (DeriveAddress.attempt dev
                   (DeriveAddress.sendDeriveAddress network path returnType
                      None) log))) /\
    (forall dev tx signPath network pathBytes,
       bip32Path signPath = inr pathBytes ->
       exists later,
         trace dev (SignTx.signTx tx signPath network (Some z))
         = command P1.START_SIGNING (Some P2.WITH_TOKEN)
             (pathBytes ++ bigEndian 4 z) :: later).
Proof.
  intros Hdraws Hzero Hnew.
  unfold constructor in Hnew. rewrite Hzero in Hnew.
  apply newAuthToken_spec in Hnew; [| exact Hdraws].
  destruct Hnew as ((z & -> & Hrange & Hfloor) & _).
  exists z.
  assert (Hne : z <> 0%Z) by lia.
  assert (Htruthy : truthy (Some z) = true).
  { unfold truthy. apply Z.eqb_neq in Hne. now rewrite Hne. }
  assert (Hfits : fitsUnsigned 4 z = true).
  { unfold fitsUnsigned. apply andb_true_intro. split.
    - apply Z.leb_le. lia.
    - apply Z.ltb_lt. change (2 ^ (8 * Z.of_nat 4))%Z with 4294967296%Z. lia. }
  assert (Hbytes : authTokenBytes (Some z) = bigEndian 4 z).
  { unfold authTokenBytes. apply Z.eqb_neq in Hne. now rewrite Hne. }
  split; [reflexivity |]. split; [exact Hrange |]. split; [exact Hfloor |].
  split; [reflexivity |]. split; [reflexivity |].
  split; [exact Htruthy |]. split; [exact Hfits |]. split; [exact Hbytes |].
  split.
  - intros dev log network path returnType.
    unfold DeriveAddress.sendDeriveAddress.
    destruct (pathToArray path) as [components |]; [| reflexivity].
    destruct (length components <? 5)%nat; [reflexivity |]. cbv zeta.
    destruct (negb _); [reflexivity |].
    destruct (res_concat [inr [byteOfZ network]; Serialize.path components])
      as [e | bytes]; [reflexivity |].
    rewrite Htruthy. cbn [truthy].
    unfold Serialize.uint32, Serialize.uint. rewrite Hfits.
    cbn [res_concat res_bind]. rewrite app_nil_r.
    unfold DeriveAddress.attempt. rewrite !run_send. reflexivity.
  - intros dev tx signPath network pathBytes Hpath.
    unfold SignTx.signTx, SignTx.sendHeader.
    rewrite Htruthy. apply trace_after_header.
    rewrite Hpath. unfold Serialize.uint32, Serialize.uint.
    rewrite Hfits. cbn [res_concat res_bind]. now rewrite app_nil_r.
Qed.

End TokenInRequests.

(* ================================================================== *)
(** * More runs on the sample inputs *)

(** The second variant on the sample transaction: every command after the
    first is a signing command with the session id 7. *)
Lemma second_variant_session_on_sample :
  let t := trace Sample.accepting
             (SignTx2.signTx (platform := Sample.platform)
                Sample.tx2 Sample.signPath 0%Z None) in
  cmd_p1 (hd Sample.noCommand t) = P1.START_SIGNING /\
  Forall (fun c => cmd_ins c = SIGN_TX /\
                   cmd_p2 c = firstByte (Sample.accepting [] (hd Sample.noCommand t)))
         (tl t).
Proof.
  intro t.
  apply (second_variant_session_id_scopes (platform := Sample.platform)
           Sample.accepting Sample.tx2 Sample.signPath 0%Z None).
  vm_compute. reflexivity.
Defined.

(** The second variant against a device that rejects the fourth command. *)
Lemma second_variant_abort_on_sample :
  let p := SignTx2.signTx (platform := Sample.platform)
             Sample.tx2 Sample.signPath 0%Z None in
  let dev := Sample.rejectingAfter 3 in
  skipn 4 (trace dev p) = [] /\
  result dev p = inl (DeviceRejection 0x6985%Z).
Proof.
  intros p dev.
  destruct (second_variant_ordered_and_aborting (platform := Sample.platform)
              dev Sample.tx2 Sample.signPath 0%Z None) as (_ & Habort & _).
  apply (Habort (firstn 3 (trace dev p)) (nth 3 (trace dev p) Sample.noCommand)
                (skipn 4 (trace dev p))).
  - vm_compute. reflexivity.
  - vm_compute. discriminate.
Defined.

(** The sample transaction, signed: the run ends with the confirmation
    command of session 7. *)
Lemma whole_transaction_on_sample :
  exists hdr body,
    trace Sample.accepting
      (SignTx.signTx (platform := Sample.platform)
         Sample.tx Sample.signPath 0%Z None)
    = hdr :: body ++ [command P1.CONFIRM_AND_SIGN (Some 7%Z) []].
Proof.
  destruct (@returning_run_sends_whole_transaction Sample.platform
              Sample.accepting Sample.tx Sample.signPath 0%Z None [x07])
    as (pathBytes & tokenPackets & dataPackets & hdr & sessionId & body
        & _ & _ & _ & _ & Hsid & _ & Htrace & _).
  - vm_compute. reflexivity.
  - exists hdr, body. rewrite Htrace, Hsid. reflexivity.
Defined.

(** The sample path can be encoded and no token is given: the
    start-signing command is sent. *)
Lemma start_signing_sent_on_sample :
  exists hdr later,
    trace Sample.accepting
      (SignTx.signTx (platform := Sample.platform)
         Sample.tx Sample.signPath 0%Z None) = hdr :: later.
Proof.
  apply (proj2 (proj1 (@start_signing_sent_iff_encodable Sample.platform
                         Sample.accepting Sample.tx Sample.signPath 0%Z None))).
  split.
  - eexists. vm_compute. reflexivity.
  - intros t H. discriminate H.
Defined.

(** A transaction with 256 token ids: the session is opened and the call
    then ends with the out-of-range error. *)
Lemma too_many_token_ids_on_sample :
  result Sample.accepting
    (SignTx.signTx (platform := MoreSamples.platform)
       MoreSamples.txManyTokens Sample.signPath 0%Z None)
  = inl (Malformed IntegerOutOfRange).
Proof.
  destruct (@counts_out_of_range_stop_after_start_signing MoreSamples.platform
              Sample.accepting MoreSamples.txManyTokens Sample.signPath 0%Z None)
    as [_ [Hnone | (hdr & _ & _ & Hresult)]].
  - right. right. left. vm_compute. discriminate.
  - vm_compute in Hnone. discriminate Hnone.
  - apply Hresult. reflexivity.
Defined.

(** An output without tokens and registers: no tokens command and no
    registers command. *)
Lemma plain_output_on_sample :
  let cs := snd (run Sample.accepting
                   (SignTx.sendOutputBox (platform := Sample.platform)
                      (Some 7%Z) Sample.change [] 0%Z MoreSamples.plainBox) []) in
  let cs2 := snd (run Sample.accepting
                    (SignTx2.sendOutputBox (platform := Sample.platform)
                       (Some 7%Z) Sample.change2 [] MoreSamples.plainBox) []) in
  Forall (fun c => cmd_p1 c <> P1.ADD_OUTPUT_BOX_TOKENS) cs /\
  Forall (fun c => cmd_p1 c <> P1.ADD_OUTPUT_BOX_REGISTERS_CHUNK) cs /\
  Forall (fun c => cmd_p1 c <> P1.ADD_OUTPUT_BOX_TOKENS) cs2 /\
  Forall (fun c => cmd_p1 c <> P1.ADD_OUTPUT_BOX_REGISTERS_CHUNK) cs2.
Proof.
  intros cs cs2.
  destruct (@output_sub_steps Sample.platform Sample.accepting []
              (Some 7%Z) [] MoreSamples.plainBox) as [Hfirst Hsecond].
  destruct (Hfirst Sample.change 0%Z (inr tt) cs) as (_ & Htokens & Hregs & _).
  { vm_compute. reflexivity. }
  destruct (Hsecond Sample.change2 (inr tt) cs2) as (_ & Htokens2 & Hregs2 & _).
  { vm_compute. reflexivity. }
  split; [apply Htokens; reflexivity |].
  split; [apply Hregs; reflexivity |].
  split; [apply Htokens2 | apply Hregs2]; reflexivity.
Defined.

(** Five bytes over a channel of two: three slices that make up the five. *)
Lemma slices_on_sample :
  let cs := snd (run Sample.accepting
                   (SignTx.addOutputBoxErgoTree (platform := MoreSamples.narrowPlatform)
                      (Some 7%Z) [x01; x02; x03; x04; x05]) []) in
  length cs = 3%nat /\
  concat (map cmd_data cs) = [x01; x02; x03; x04; x05].
Proof.
  intro cs.
  destruct (@buffers_go_out_in_slices MoreSamples.narrowPlatform
              Sample.accepting [] (Some 7%Z) [x01; x02; x03; x04; x05] tt)
    as [Htree _].
  - vm_compute. lia.
  - destruct (Htree cs) as (Hcat & _ & _).
    + vm_compute. reflexivity.
    + split; [reflexivity | exact Hcat].
Defined.

(** The table holds the bytes aa 01 and the output names AA01: the id is
    not found and the transaction is not signed. *)
Lemma uppercase_token_id_on_sample :
  indexOf (map Deserialize.hex [[xaa; x01]]) "AA01" = (-1)%Z /\
  forall signBytes,
    result Sample.accepting
      (SignTx.signTx (platform := Sample.platform)
         MoreSamples.txUppercaseToken Sample.signPath 0%Z None)
    <> inr signBytes.
Proof.
  destruct (token_ids_are_looked_up_as_lowercase_hex
              (platform := Sample.platform)) as [Hlookup Hsign].
  split.
  - apply Hlookup. vm_compute. reflexivity.
  - apply (Hsign Sample.accepting MoreSamples.txUppercaseToken Sample.signPath
             0%Z None MoreSamples.uppercaseTokenBox
             {| id := "AA01"; amount := 1 |}).
    + left. reflexivity.
    + left. reflexivity.
    + vm_compute. reflexivity.
Defined.

(** The sample fee output is a fee script of 105 bytes. *)
Lemma fee_bytes_on_sample :
  isFeeScript Sample.mainnetFeeBox /\
  length (ergoTree Sample.mainnetFeeBox) = 105%nat.
Proof.
  destruct fee_script_is_recognised_by_its_bytes
    as (_ & _ & Hfee & Hlength & _).
  assert (H : isFeeScript Sample.mainnetFeeBox).
  { apply (proj2 (Hfee Sample.mainnetFeeBox)). left. vm_compute. reflexivity. }
  split; [exact H | exact (Hlength Sample.mainnetFeeBox H)].
Defined.

(** The request to display the address of the sample path, with the token
    9: one command of 26 bytes. *)
Lemma address_request_on_sample :
  let call := DeriveAddress.attempt MoreSamples.addressDevice
                (DeriveAddress.sendDeriveAddress (platform := MoreSamples.platform)
                   0%Z Sample.signPath DeriveAddress.Display (Some 9%Z)) [] in
  exists c, snd call = [c] /\ length (cmd_data c) = 26%nat.
Proof.
  intro call.
  destruct (@address_request_is_checked_then_sent MoreSamples.platform
              MoreSamples.addressDevice [] 0%Z Sample.signPath
              DeriveAddress.Display (Some 9%Z) (fst call) (snd call))
    as [[(Hnone & _)
        | (components & Hpath & _ & _ & _ & _ & Hsent & Hlength & _)] _].
  - vm_compute. reflexivity.
  - vm_compute in Hnone. discriminate Hnone.
  - vm_compute in Hpath. inversion Hpath. subst components.
    eexists. split; [exact Hsent | exact Hlength].
Defined.

(** The device answers 03 ab: the address is 03ab. *)
Lemma derived_address_on_sample :
  lowerHexString "03ab" = true /\
  Serialize.hex "03ab" = inr [x03; xab].
Proof.
  destruct (@derived_address_is_the_response_in_hex MoreSamples.platform
              MoreSamples.addressDevice [] 0%Z Sample.signPath None
              {| DeriveAddress.addressHex := "03ab" |}
              [deriveAddressRequest DeriveAddress.P1.RETURN 0%Z
                 [2147483692; 2147484077; 2147483648; 0; 0]%Z None])
    as (components & _ & _ & _ & _ & Hlower & Hback).
  - vm_compute. reflexivity.
  - split; [exact Hlower | exact Hback].
Defined.

(** The device accepts: [showAddress] gives [true] after one command. *)
Lemma show_address_on_sample :
  exists components,
    pathToArray (Platform := MoreSamples.platform) Sample.signPath
    = Some components /\
    let c := deriveAddressRequest DeriveAddress.P1.DISPLAY 0%Z components None in
    snd (DeriveAddress.attempt MoreSamples.addressDevice
           (DeriveAddress.showAddress (platform := MoreSamples.platform)
              0%Z Sample.signPath None) []) = [c] /\
    returnCode (MoreSamples.addressDevice [] c) = 0x9000%Z.
Proof.
  destruct (@show_address_is_true_or_raises MoreSamples.platform
              MoreSamples.addressDevice [] 0%Z Sample.signPath None)
    as (_ & Htrue & _).
  apply Htrue. vm_compute. reflexivity.
Defined.

(** An app constructed without a token draws 5: the requests with the token
    are the requests without it, with P2 changed and 00 00 00 05 appended. *)
Lemma app_token_on_sample :
  snd (DeriveAddress.attempt MoreSamples.addressDevice
         (DeriveAddress.sendDeriveAddress (platform := MoreSamples.platform)
            0%Z Sample.signPath DeriveAddress.Return (Some 5%Z)) [])
  = map (withToken 5)
      (snd (DeriveAddress.attempt MoreSamples.addressDevice
              (DeriveAddress.sendDeriveAddress (platform := MoreSamples.platform)
                 0%Z Sample.signPath DeriveAddress.Return None) [])).
Proof.
  destruct (@app_token_always_rides_along MoreSamples.platform
              (S754_zero false) Sample.draws (ErgoApp.ofInt 5)
              [Sample.drawHalf])
    as (z & _ & _ & Hfloor & _ & _ & _ & _ & _ & Hrequest & _).
  - repeat constructor; vm_compute; reflexivity.
  - reflexivity.
  - vm_compute. reflexivity.
  - vm_compute in Hfloor. subst z.
    apply (Hrequest MoreSamples.addressDevice [] 0%Z Sample.signPath
             DeriveAddress.Return).
Defined.
